(** * YUDEX / harvey_backend: federated retrieval and centroid personalization

    Shallow embedding of
      - [app/core/personalization.py]   (tag inference, query personalization),
      - [scripts/calculate_centroids.py] (centroid computation and storage),
      - [app/core/rag_bridge.py]        (RRF, external documents, federated search),
    followed by the properties of the specification checked against them.

    Number model.  Scores are Python floats combined with [+], [*], [/],
    [max] and comparisons only.  [RagBridge] embeds them as exact rationals
    ([Q]).  [FloatBridge] embeds the same functions with every float
    operation followed by a rounding [rnd], which is [Binary64.round64]
    (IEEE 754 binary64, to nearest, ties to even) for the Python [float]
    and the identity for exact arithmetic; it also keeps the exceptions
    outside class [Exception], a [priority] that is [None], and the
    [search_metadata] of the hits.  Properties that depend on which of two
    computed scores is the greater, or on whether they are equal, are
    stated over [FloatBridge]; [ExactProps] shows that [RagBridge] is
    [FloatBridge] without rounding.  Embedding vectors go through
    [np.linalg.norm], which needs a square root, so the two normalising
    functions are embedded over the reals ([R]), without rounding.

    String model.  A Python [str] is embedded as a [string] whose characters
    are the code points below 256; [latin1] turns a literal of this file
    (UTF-8) into that representation. *)

From Stdlib Require Import List String Ascii Bool Arith ZArith QArith Qminmax Qabs.
From Stdlib Require Import DecimalNat DecimalString Lia Permutation Sorted Reals Lqa Lra.
From stdpp Require Import gmap strings.
Import ListNotations.

Local Open Scope string_scope.
Local Open Scope nat_scope.

(* ===================================================================== *)
(** * Part I: the program *)
(* ===================================================================== *)

(** ** Python built-ins used by the code *)

Module Py.

(** Outcome of a call: a value, or an exception of class [Exception]
    (the only class the handlers of the code catch). *)
Inductive exn : Type :=
| ZeroDivisionError
| ValueError
| TypeError
| ServiceError (msg : string).

Inductive outcome (A : Type) : Type :=
| Returned (a : A)
| Raised (e : exn).
Arguments Returned {A} a.
Arguments Raised {A} e.

Definition bind {A B} (m : outcome A) (f : A -> outcome B) : outcome B :=
  match m with
  | Returned a => f a
  | Raised e => Raised e
  end.

(** [try: body / except Exception: handler] *)
Definition try_except {A} (body : outcome A) (handler : exn -> outcome A)
  : outcome A :=
  match body with
  | Returned a => Returned a
  | Raised e => handler e
  end.

(** *** [str] *)

Definition code (c : ascii) : nat := nat_of_ascii c.

(** [str.isspace] on code points below 256. *)
Definition isspace (c : ascii) : bool :=
  let n := code c in
  ((9 <=? n) && (n <=? 13)) || ((28 <=? n) && (n <=? 32))
  || (n =? 133) || (n =? 160).

(** [str.lower] on one code point below 256: A-Z, and the Latin-1
    capitals U+00C0..U+00DE except the multiplication sign U+00D7. *)
Definition lower_char (c : ascii) : ascii :=
  let n := code c in
  if ((65 <=? n) && (n <=? 90))
     || ((192 <=? n) && (n <=? 222) && negb (n =? 215))
  then ascii_of_nat (n + 32) else c.

Fixpoint lower (s : string) : string :=
  match s with
  | EmptyString => EmptyString
  | String c s' => String (lower_char c) (lower s')
  end.

(** [needle in hay] for two [str]. *)
Fixpoint contains (needle hay : string) : bool :=
  String.prefix needle hay ||
  match hay with
  | EmptyString => false
  | String _ hay' => contains needle hay'
  end.

(** [s.split()]: maximal runs of non-space characters.  [cur] is the run
    being read, reversed. *)
Definition flush (cur : list ascii) (acc : list string) : list string :=
  match cur with
  | [] => acc
  | _ => string_of_list_ascii (rev cur) :: acc
  end.

Fixpoint split_on (sep : ascii -> bool) (s : string) (cur : list ascii)
  : list string :=
  match s with
  | EmptyString => flush cur []
  | String c s' =>
      if sep c then flush cur (split_on sep s' [])
      else split_on sep s' (c :: cur)
  end.

Definition split (s : string) : list string := split_on isspace s [].

(** [s[:n]] for [n >= 0]. *)
Definition take_str (n : nat) (s : string) : string := substring 0 n s.

(** [str(i)] for a non-negative [int]. *)
Definition str_of_nat (n : nat) : string :=
  NilEmpty.string_of_uint (Nat.to_uint n).

(** Literals: this file is UTF-8, so a code point in 128..255 is written
    as two bytes [0xC2|0xC3, b]; [latin1] folds them back to one
    character. *)
Fixpoint latin1 (s : string) : string :=
  match s with
  | String c1 (String c2 s' as rest) =>
      if code c1 =? 194 then String c2 (latin1 s')
      else if code c1 =? 195 then String (ascii_of_nat (code c2 + 64)) (latin1 s')
      else String c1 (latin1 rest)
  | _ => s
  end.

(** [set(xs)] as a duplicate-free list, and [len(a & b)]. *)
Definition to_set (xs : list string) : list string := nodup string_dec xs.

Definition inter_size (a b : list string) : nat :=
  List.length (List.filter (fun x => if in_dec string_dec x b then true else false) a).

(** [max(d, key=d.get)] over the keys of a non-empty insertion-ordered
    [dict]: the first key whose value is maximal. *)
Fixpoint max_by_value (best : string * nat) (rest : list (string * nat))
  : string * nat :=
  match rest with
  | [] => best
  | p :: rest' =>
      if snd best <? snd p then max_by_value p rest'
      else max_by_value best rest'
  end.

End Py.

(** ** [app/core/personalization.py]: tag inference *)

Module TagInferencer.
Import Py.

Definition tag_keywords : list (string * list string) :=
  [ ("contratos_imobiliarios",
      map latin1 ["imóvel"; "casa"; "apartamento"; "aluguel"; "compra"; "venda"; "propriedade"]);
    ("litigios_tributarios",
      map latin1 ["imposto"; "tributo"; "fisco"; "receita"; "icms"; "ipi"; "irpf"]);
    ("direito_trabalhista",
      map latin1 ["trabalho"; "empregado"; "salário"; "férias"; "rescisão"; "clt"]);
    ("direito_civil",
      map latin1 ["civil"; "família"; "divórcio"; "sucessão"; "herança"; "responsabilidade"]);
    ("direito_penal",
      map latin1 ["crime"; "penal"; "processo"; "denúncia"; "prisão"; "sentença"]);
    ("direito_empresarial",
      map latin1 ["empresa"; "societário"; "contrato"; "negócio"; "comercial"; "cnpj"]) ].

Definition fallback_tag : string := "direito_civil".

(** [sum(1 for keyword in keywords if keyword in query_lower)] *)
Definition keyword_score (query_lower : string) (keywords : list string) : nat :=
  List.length (List.filter (fun keyword => contains keyword query_lower) keywords).

(** The [tag_scores] dict: tags in table order, positive scores only. *)
Definition tag_scores_of (table : list (string * list string))
           (query_lower : string) : list (string * nat) :=
  List.filter (fun p => 0 <? snd p)
    (map (fun p => (fst p, keyword_score query_lower (snd p))) table).

Definition infer_with (table : list (string * list string))
           (fallback : string) (query : string) : string :=
  let query_lower := lower query in
  match tag_scores_of table query_lower with
  | [] => fallback
  | p :: rest => fst (max_by_value p rest)
  end.

Definition infer_query_tag (query : string) : string :=
  infer_with tag_keywords fallback_tag query.

(** *** The inference as the specification words it

    "Lowercase the query; tokenize on whitespace and common punctuation.
    For each tag, count keyword occurrences in tokens.  Return the tag
    with the highest count; ties are broken by the tag's declared order.
    If all counts are zero, return the configured fallback tag." *)

Definition ispunct (c : ascii) : bool :=
  let n := code c in
  ((33 <=? n) && (n <=? 47)) || ((58 <=? n) && (n <=? 64))
  || ((91 <=? n) && (n <=? 96)) || ((123 <=? n) && (n <=? 126)).

Definition tokenize (s : string) : list string :=
  split_on (fun c => isspace c || ispunct c) s [].

Definition token_count (tokens keywords : list string) : nat :=
  List.length
    (List.filter (fun t => if in_dec string_dec t keywords then true else false)
                 tokens).

Definition spec_infer_tag (query : string) : string :=
  let tokens := tokenize (lower query) in
  match List.filter (fun p => 0 <? snd p)
          (map (fun p => (fst p, token_count tokens (snd p))) tag_keywords) with
  | [] => fallback_tag
  | p :: rest => fst (max_by_value p rest)
  end.

End TagInferencer.

(** ** numpy on one-dimensional arrays, over the reals *)

Module Np.
Import Py.

Definition vec : Type := list R.

Fixpoint zip_with (f : R -> R -> R) (u v : vec) : vec :=
  match u, v with
  | x :: u', y :: v' => f x y :: zip_with f u' v'
  | _, _ => []
  end.

(** [u + v]: equal shapes, or one operand of shape [(1,)] stretched to the
    other; any other pair of shapes raises [ValueError]. *)
Definition add (u v : vec) : outcome vec :=
  if (List.length u =? List.length v)%nat then Returned (zip_with Rplus u v)
  else if (List.length v =? 1)%nat then Returned (map (fun x => x + hd 0 v)%R u)
  else if (List.length u =? 1)%nat then Returned (map (fun y => hd 0 u + y)%R v)
  else Raised ValueError.

(** [a * v] and [v / a] for a scalar [a]. *)
Definition scale (a : R) (v : vec) : vec := map (fun x => a * x)%R v.
Definition div (v : vec) (a : R) : vec := map (fun x => x / a)%R v.

Definition sum_sq (v : vec) : R := fold_right (fun x acc => x * x + acc)%R 0%R v.

(** [np.linalg.norm(v)] *)
Definition norm (v : vec) : R := sqrt (sum_sq v).

(** [np.dot(u, v)]: the shapes must agree. *)
Definition dot (u v : vec) : outcome R :=
  if (List.length u =? List.length v)%nat
  then Returned (fold_right Rplus 0%R (zip_with Rmult u v))
  else Raised ValueError.

(** [np.mean(vectors, axis=0)] for a non-empty list of arrays: rows of
    unequal length raise [ValueError]. *)
Fixpoint column_sums (first : vec) (rest : list vec) : outcome vec :=
  match rest with
  | [] => Returned first
  | v :: rest' =>
      if (List.length v =? List.length first)%nat
      then column_sums (zip_with Rplus first v) rest'
      else Raised ValueError
  end.

Definition mean (vectors : list vec) : outcome vec :=
  match vectors with
  | [] => Raised ValueError
  | first :: rest =>
      bind (column_sums first rest) (fun sums =>
      Returned (div sums (INR (List.length vectors))))
  end.

End Np.

(** ** [app/core/personalization.py]: query personalization *)

Module Personalizer.
Import Py Np.

Section Personalize.
(** [get_centroid(tenant_id, tag)]: the centroid found in the local
    cache or in Redis, [None] when there is none or the lookup failed. *)
Variable get_centroid : string -> string -> option vec.

(** Lines 120-123: [not tag] and [not query] hold for [None] and for
    the empty string. *)
Definition resolve_tag (query tag : option string) : string :=
  match tag with
  | Some (String _ _ as tag) => tag
  | _ =>
      match query with
      | Some (String _ _ as query) => TagInferencer.infer_query_tag query
      | _ => "direito_civil"
      end
  end.

Definition apply_personalization_body (query_vector : vec) (tenant_id : string)
           (query tag : option string) (alpha : R) : outcome vec :=
  let tag := resolve_tag query tag in
  match get_centroid tenant_id tag with
  | None => Returned query_vector
  | Some centroid =>
      bind (add query_vector (scale alpha centroid)) (fun adjusted_vector =>
      let norm := norm adjusted_vector in
      let adjusted_vector :=
        if Rlt_dec 0 norm then div adjusted_vector norm else adjusted_vector in
      bind (dot query_vector centroid) (fun similarity =>
      Returned adjusted_vector))
  end.

(** The body sits in [try: ... except Exception: return query_vector]. *)
Definition apply_personalization (query_vector : vec) (tenant_id : string)
           (query tag : option string) (alpha : R) : outcome vec :=
  try_except
    (apply_personalization_body query_vector tenant_id query tag alpha)
    (fun _ => Returned query_vector).

End Personalize.

(** The adjusted vector [q + alpha * c] before renormalisation. *)
Definition adjusted (q : vec) (alpha : R) (c : vec) : vec :=
  zip_with Rplus q (scale alpha c).

End Personalizer.

(** ** [scripts/calculate_centroids.py]: centroid computation and storage *)

Module CentroidCalculator.
Import Py Np.

(** What Redis holds under a key: the array written by [store_centroid]
    (its [float32] bytes, as the array itself) or the metadata string
    (its [dimension] and [norm] entries), each with its TTL in seconds. *)
Inductive redis_value : Type :=
| CentroidBytes (ttl : Z) (centroid : vec)
| Metadata (ttl : Z) (dimension : nat) (norm : R).

(** The Redis client: the keyed store, and whether the server answers. *)
Record redis : Type := mk_redis {
  data : gmap string redis_value;
  reachable : bool
}.

(** [redis_client.setex(key, ttl, value)] *)
Definition setex (r : redis) (key : string) (value : redis_value) : outcome redis :=
  if reachable r then Returned (mk_redis (<[key := value]> (data r)) true)
  else Raised (ServiceError "redis").

Definition centroid_key (tenant_id tag : string) : string :=
  "centroid:" ++ tenant_id ++ ":" ++ tag.

Definition metadata_key (tenant_id tag : string) : string :=
  "centroid_meta:" ++ tenant_id ++ ":" ++ tag.

Definition ttl_7_days : Z := 7 * 24 * 3600.

Definition get_tenant_tags (tenant_id : string) : list string :=
  [ "contratos_imobiliarios"; "litigios_tributarios"; "direito_trabalhista";
    "direito_civil"; "direito_penal"; "direito_empresarial" ].

Definition calculate_centroid (vectors : list vec) : option vec :=
  match vectors with
  | [] => None
  | _ =>
      match mean vectors with
      | Returned centroid =>
          let norm := norm centroid in
          Some (if Rlt_dec 0 norm then div centroid norm else centroid)
      | Raised _ => None
      end
  end.

(** Returns the [bool] of the source and the store afterwards. *)
Definition store_centroid (r : redis) (tenant_id tag : string) (centroid : vec)
  : bool * redis :=
  let key := centroid_key tenant_id tag in
  match setex r key (CentroidBytes ttl_7_days centroid) with
  | Raised _ => (false, r)
  | Returned r1 =>
      let metadata_key := metadata_key tenant_id tag in
      match setex r1 metadata_key
              (Metadata ttl_7_days (List.length centroid) (norm centroid)) with
      | Raised _ => (false, r1)
      | Returned r2 => (true, r2)
      end
  end.

Section Build.
(** [get_vectors_for_tag(tenant_id, tag)]: the embeddings found for the
    pair (drawn at random by the source for now). *)
Variable get_vectors_for_tag : string -> string -> list vec.

(** One iteration of the loop of [calculate_and_store_centroids]. *)
Definition process_tag (tenant_id : string) (r : redis) (tag : string)
  : bool * redis :=
  let vectors := get_vectors_for_tag tenant_id tag in
  match vectors with
  | [] => (false, r)
  | _ =>
      match calculate_centroid vectors with
      | None => (false, r)
      | Some centroid => store_centroid r tenant_id tag centroid
      end
  end.

Fixpoint process_tags (tenant_id : string) (r : redis) (tags : list string)
  : list (string * bool) * redis :=
  match tags with
  | [] => ([], r)
  | tag :: rest =>
      let '(ok, r1) := process_tag tenant_id r tag in
      let '(results, r2) := process_tags tenant_id r1 rest in
      ((tag, ok) :: results, r2)
  end.

Definition calculate_and_store_centroids (r : redis) (tenant_id : string)
  : list (string * bool) * redis :=
  process_tags tenant_id r (get_tenant_tags tenant_id).

End Build.

End CentroidCalculator.

(** ** [app/core/rag_bridge.py]: federated search *)

Module RagBridge.
Import Py.

(** [sorted(xs, key=key, reverse=True)] and [xs.sort(key=key, reverse=True)]:
    Python's sort is stable, also with [reverse=True], so the result is the
    one of any stable sort by decreasing key; insertion sort is the model. *)
Fixpoint insert_desc {A} (key : A -> Q) (x : A) (l : list A) : list A :=
  match l with
  | [] => [x]
  | y :: l' =>
      if Qle_bool (key y) (key x) then x :: l
      else y :: insert_desc key x l'
  end.

Definition sorted_desc {A} (key : A -> Q) (l : list A) : list A :=
  fold_right (insert_desc key) [] l.

(** [for i, x in enumerate(xs): ... f(i, x)] rebuilding each element. *)
Fixpoint enumerate_from {A B} (f : nat -> A -> B) (i : nat) (l : list A) : list B :=
  match l with
  | [] => []
  | x :: l' => f i x :: enumerate_from f (S i) l'
  end.

Definition enumerate {A B} (f : nat -> A -> B) (l : list A) : list B :=
  enumerate_from f 0 l.

(** [xs[:k]] for a Python [int] [k] (a negative [k] counts from the end). *)
Definition slice_to {A} (k : Z) (l : list A) : list A :=
  if (0 <=? k)%Z then firstn (Z.to_nat k) l
  else firstn (List.length l - Z.to_nat (- k)) l.

Definition nat_Q (n : nat) : Q := inject_Z (Z.of_nat n).

(** *** Result dictionaries

    The code passes [dict]s with string keys; a key that may be absent is
    an [option] field.  [content], [metadata] and [search_metadata] carry
    payload that no ranking step reads and are left out of [hit];
    [FloatBridge.found] pairs a hit with its [search_metadata]. *)

Inductive source_kind : Type := Semantic | Lexical | External.
Inductive fusion_kind : Type := FusionInternal | FusionExternal.

Record rank_source : Type := mk_rank_source {
  rs_source : source_kind;
  rs_rank : nat;
  rrf_contribution : Q
}.

Record hit : Type := mk_hit {
  id : string;
  score : option Q;
  source : source_kind;
  semantic_rank : option nat;
  lexical_rank : option nat;
  external_rank : option nat;
  priority : option Q;
  text_overlap : option Q;
  rrf_score : option Q;
  rank_sources : list rank_source;
  final_external_rank : option nat;
  fusion_source : option fusion_kind;
  final_rank : option nat;
  fusion_score : option Q
}.

(** [d.get(key, dflt)] *)
Definition get {A} (field : option A) (dflt : A) : A :=
  match field with Some a => a | None => dflt end.

(** Assignments [h[key] = v]. *)
Definition init_rrf (h : hit) : hit :=
  mk_hit (id h) (score h) (source h) (semantic_rank h) (lexical_rank h)
         (external_rank h) (priority h) (text_overlap h)
         (Some 0%Q) [] (final_external_rank h) (fusion_source h)
         (final_rank h) (fusion_score h).

Definition add_rrf (src : source_kind) (rank : nat) (term : Q) (h : hit) : hit :=
  mk_hit (id h) (score h) (source h) (semantic_rank h) (lexical_rank h)
         (external_rank h) (priority h) (text_overlap h)
         (Some (get (rrf_score h) 0 + term)%Q)
         (rank_sources h ++ [mk_rank_source src rank term])%list
         (final_external_rank h) (fusion_source h)
         (final_rank h) (fusion_score h).

Definition set_final_rank (n : nat) (h : hit) : hit :=
  mk_hit (id h) (score h) (source h) (semantic_rank h) (lexical_rank h)
         (external_rank h) (priority h) (text_overlap h)
         (rrf_score h) (rank_sources h) (final_external_rank h)
         (fusion_source h) (Some n) (fusion_score h).

Definition set_final_external_rank (n : nat) (h : hit) : hit :=
  mk_hit (id h) (score h) (source h) (semantic_rank h) (lexical_rank h)
         (external_rank h) (priority h) (text_overlap h)
         (rrf_score h) (rank_sources h) (Some n)
         (fusion_source h) (final_rank h) (fusion_score h).

Definition set_fusion_source (f : fusion_kind) (h : hit) : hit :=
  mk_hit (id h) (score h) (source h) (semantic_rank h) (lexical_rank h)
         (external_rank h) (priority h) (text_overlap h)
         (rrf_score h) (rank_sources h) (final_external_rank h)
         (Some f) (final_rank h) (fusion_score h).

Definition set_fusion_score (s : Q) (h : hit) : hit :=
  mk_hit (id h) (score h) (source h) (semantic_rank h) (lexical_rank h)
         (external_rank h) (priority h) (text_overlap h)
         (rrf_score h) (rank_sources h) (final_external_rank h)
         (fusion_source h) (final_rank h) (Some s).

(** *** [reciprocal_rank_fusion] *)

(** [all_docs]: a [dict] keyed by document id, in insertion order. *)
Fixpoint has_key (doc_id : string) (all_docs : list hit) : bool :=
  match all_docs with
  | [] => false
  | h :: rest => String.eqb (id h) doc_id || has_key doc_id rest
  end.

Fixpoint update (doc_id : string) (f : hit -> hit) (all_docs : list hit) : list hit :=
  match all_docs with
  | [] => []
  | h :: rest =>
      if String.eqb (id h) doc_id then f h :: rest
      else h :: update doc_id f rest
  end.

(** [1.0 / (k + rank)] *)
Definition rrf_term (k rank : nat) : outcome Q :=
  if (k + rank =? 0)%nat then Raised ZeroDivisionError
  else Returned (1 / nat_Q (k + rank))%Q.

(** One iteration of either loop; [rank_of] reads
    [result.get("semantic_rank", 999)] or [result.get("lexical_rank", 999)]. *)
Definition rrf_step (src : source_kind) (rank_of : hit -> option nat) (k : nat)
           (all_docs : list hit) (result : hit) : outcome (list hit) :=
  let doc_id := id result in
  let rank := get (rank_of result) 999%nat in
  let all_docs :=
    if has_key doc_id all_docs then all_docs
    else (all_docs ++ [init_rrf result])%list in
  bind (rrf_term k rank) (fun term =>
  Returned (update doc_id (add_rrf src rank term) all_docs)).

Fixpoint rrf_loop (src : source_kind) (rank_of : hit -> option nat) (k : nat)
         (all_docs : list hit) (results : list hit) : outcome (list hit) :=
  match results with
  | [] => Returned all_docs
  | result :: rest =>
      bind (rrf_step src rank_of k all_docs result) (fun all_docs' =>
      rrf_loop src rank_of k all_docs' rest)
  end.

Definition rrf_key (h : hit) : Q := get (rrf_score h) 0%Q.

(** The source opens a [try:] in this function and closes it with no
    handler, so an exception of the body reaches the caller. *)
Definition reciprocal_rank_fusion (semantic_results lexical_results : list hit)
           (k : nat) : outcome (list hit) :=
  bind (rrf_loop Semantic semantic_rank k [] semantic_results) (fun all_docs =>
  bind (rrf_loop Lexical lexical_rank k all_docs lexical_results) (fun all_docs =>
  let fused_results := sorted_desc rrf_key all_docs in
  Returned (enumerate (fun i result => set_final_rank (i + 1) result) fused_results))).

(** *** [fuse_internal_and_external] *)

Definition get_sort_key (result : hit) : Q :=
  let base_score := get (score result) 0%Q in
  let rrf_score := get (rrf_score result) 0%Q in
  let effective_score := if Qlt_le_dec 0 rrf_score then rrf_score else base_score in
  match fusion_source result with
  | Some FusionExternal => (effective_score * (12 # 10))%Q
  | _ => effective_score
  end.

(** No operation of the body raises on numeric scores, so the handler of
    the source (which returns [external_results + internal_results]) is
    never entered. *)
Definition fuse_internal_and_external (internal_results external_results : list hit)
  : list hit :=
  let combined_results :=
    (map (set_fusion_source FusionInternal) internal_results
     ++ map (set_fusion_source FusionExternal) external_results)%list in
  let combined_results := sorted_desc get_sort_key combined_results in
  enumerate
    (fun i result =>
       set_fusion_score (get_sort_key result) (set_final_rank (i + 1) result))
    combined_results.

(** *** Collaborators

    The services the bridge calls, as an interface over the vector type.
    A call that raises is a [Raised] outcome. *)

Record scored_point : Type := mk_scored_point {
  sp_id : string;
  sp_score : Q
}.

Class Collaborators (Vec : Type) : Type := {
  (** [embedding_service.embed_query(text)] *)
  embed_query : string -> outcome Vec;
  (** [fallback / np.linalg.norm(fallback)] for the draw
      [fallback = np.random.rand(768)] made while embedding [text] *)
  random_unit_vector : string -> Vec;
  (** [qdrant_client.search(...)] with [query_vector], the tenant of the
      filter and [limit], and the conversion of its rows *)
  qdrant_search : Vec -> string -> Z -> outcome (list scored_point);
  (** [personalize_query_vector(query_vector, tenant_id, query, alpha)] *)
  personalize_query_vector : Vec -> string -> string -> Q -> outcome Vec;
  (** [np.dot(u, v)] *)
  np_dot : Vec -> Vec -> outcome Q
}.

Section Bridge.
Context {Vec : Type} `{C : Collaborators Vec}.

Definition default_k : Z := 20.
Definition rrf_k : nat := 60.
Definition default_personalization_alpha : Q := 25 # 100.

Definition get_query_embedding (query : string) : Vec :=
  match embed_query query with
  | Returned embedding => embedding
  | Raised _ => random_unit_vector query
  end.

Definition semantic_hit (i : nat) (result : scored_point) : hit :=
  mk_hit (sp_id result) (Some (sp_score result)) Semantic
         (Some (i + 1)) None None None None None [] None None None None.

Definition semantic_search (query_vector : Vec) (tenant_id : string) (k : Z)
  : list hit :=
  match qdrant_search query_vector tenant_id k with
  | Returned results => enumerate semantic_hit results
  | Raised _ => []
  end.

(** The simulated lexical source: [min(k, 15)] documents
    [doc_<tenant>_<i>] with score [max(0.1, 1.0 - i * 0.1)]. *)
Definition lexical_hit (tenant_id : string) (i : nat) : hit :=
  mk_hit ("doc_" ++ tenant_id ++ "_" ++ str_of_nat i)
         (Some (Qmax (1 # 10) (1 - nat_Q i * (1 # 10)))%Q) Lexical
         None (Some (i + 1)) None None None None [] None None None None.

Definition lexical_search (query tenant_id : string) (k : Z) : list hit :=
  map (lexical_hit tenant_id) (seq 0 (Z.to_nat (Z.min k 15))).

(** *** [process_external_docs] *)

Record external_doc : Type := mk_external_doc {
  src_id : option string;
  text : option string;
  doc_priority : option Q
}.

Definition nonempty_str (s : string) : bool :=
  match s with EmptyString => false | _ => true end.

(** [len(query_words & doc_words) / len(query_words) if query_words else 0] *)
Definition overlap (query doc_text : string) : Q :=
  let query_words := to_set (split (lower query)) in
  let doc_words := to_set (split (lower doc_text)) in
  match query_words with
  | [] => 0%Q
  | _ => (nat_Q (inter_size query_words doc_words)
          / nat_Q (List.length query_words))%Q
  end.

(** The score after the similarity step (lines 220-237). *)
Definition priority_score (query_vector : option Vec) (i : nat)
           (doc : external_doc) : Q :=
  let text := get (text doc) "" in
  let priority := get (doc_priority doc) (9 # 10) in
  let base_score := priority in
  let position_penalty := (nat_Q i * (1 # 100))%Q in
  let final_score := Qmax (1 # 10) (base_score - position_penalty) in
  match query_vector with
  | Some qv =>
      if nonempty_str text then
        let doc_embedding := get_query_embedding (take_str 1000 text) in
        match np_dot qv doc_embedding with
        | Returned similarity =>
            (final_score * (7 # 10) + similarity * (3 # 10))%Q
        | Raised _ => final_score
        end
      else final_score
  | None => final_score
  end.

Definition external_hit (query : string) (query_vector : option Vec)
           (i : nat) (doc : external_doc) : hit :=
  let src_id := get (src_id doc) ("external_doc_" ++ str_of_nat i) in
  let text := get (text doc) "" in
  let priority := get (doc_priority doc) (9 # 10) in
  let final_score := priority_score query_vector i doc in
  let text_overlap := overlap query text in
  let final_score := (final_score * (8 # 10) + text_overlap * (2 # 10))%Q in
  mk_hit src_id (Some final_score) External None None (Some (i + 1))
         (Some priority) (Some text_overlap) None [] None None None None.

Definition score_key (h : hit) : Q := get (score h) 0%Q.

(** Every step that can raise sits inside the inner handler, so the
    outer handler of the source (which returns [[]]) is never entered. *)
Definition process_external_docs (external_docs : list external_doc)
           (query : string) (query_vector : option Vec) : list hit :=
  match external_docs with
  | [] => []
  | _ =>
      let ephemeral_hits := enumerate (external_hit query query_vector) external_docs in
      let ephemeral_hits := sorted_desc score_key ephemeral_hits in
      enumerate (fun i hit => set_final_external_rank (i + 1) hit) ephemeral_hits
  end.

(** *** [federated_search] *)

(** [not external_docs] is true for [None] and for the empty list. *)
Definition falsy {A} (l : option (list A)) : bool :=
  match l with
  | None | Some [] => true
  | Some (_ :: _) => false
  end.

(** [personalization_alpha or self.personalization_alpha]: [None] and
    [0.0] both select the default. *)
Definition alpha_or_default (personalization_alpha : option Q) : Q :=
  match personalization_alpha with
  | Some a => if Qeq_bool a 0 then default_personalization_alpha else a
  | None => default_personalization_alpha
  end.

(** [all_results.get(key, [])] on the insertion-ordered [dict]. *)
Fixpoint results_get (key : string) (all_results : list (string * list hit))
  : list hit :=
  match all_results with
  | [] => []
  | (k, v) :: rest => if String.eqb k key then v else results_get key rest
  end.

Definition is_nil {A} (l : list A) : bool :=
  match l with [] => true | _ => false end.

(** Lines 366-386: the query vector, personalised when enabled. *)
Definition resolve_query_vector (query tenant_id : string)
           (personalization_alpha : option Q)
           (enable_personalization use_internal_rag : bool)
  : outcome (option Vec) :=
  if use_internal_rag then
    let query_vector := get_query_embedding query in
    if enable_personalization then
      let alpha := alpha_or_default personalization_alpha in
      bind (personalize_query_vector query_vector tenant_id query alpha)
           (fun personalized_vector =>
      bind (np_dot query_vector personalized_vector) (fun similarity =>
      Returned (Some personalized_vector)))
    else Returned (Some query_vector)
  else Returned None.

(** Lines 414-447: fusion of the collected sources and truncation. *)
Definition fuse_all (all_results : list (string * list hit)) (k_total : Z)
  : outcome (list hit) :=
  match all_results with
  | [] => Returned []
  | [(_, only)] => Returned (slice_to k_total only)
  | _ =>
      let semantic_results := results_get "semantic" all_results in
      let lexical_results := results_get "lexical" all_results in
      let ephemeral_results := results_get "ephemeral" all_results in
      bind (if is_nil semantic_results && is_nil lexical_results
            then Returned []
            else reciprocal_rank_fusion semantic_results lexical_results rrf_k)
           (fun internal_fused =>
      let fused_results :=
        if is_nil ephemeral_results then internal_fused
        else fuse_internal_and_external internal_fused ephemeral_results in
      Returned (slice_to k_total fused_results))
  end.

Definition federated_search_body (query tenant_id : string) (k_total : Z)
           (personalization_alpha : option Q) (enable_personalization : bool)
           (external_docs : option (list external_doc))
           (use_internal_rag : bool) : outcome (list hit) :=
  if negb use_internal_rag && falsy external_docs then Returned []
  else
    bind (resolve_query_vector query tenant_id personalization_alpha
            enable_personalization use_internal_rag) (fun query_vector =>
    let internal :=
      match query_vector with
      | Some qv =>
          if use_internal_rag then
            let k_search := Z.min (k_total * 2) 50 in
            [("semantic", semantic_search qv tenant_id k_search);
             ("lexical", lexical_search query tenant_id k_search)]
          else []
      | None => []
      end in
    let ephemeral :=
      if falsy external_docs then []
      else [("ephemeral",
             process_external_docs (get external_docs []) query query_vector)] in
    fuse_all (internal ++ ephemeral)%list k_total).

(** The whole body sits in [try: ... except Exception: return []]. *)
Definition federated_search (query tenant_id : string) (k_total : Z)
           (personalization_alpha : option Q) (enable_personalization : bool)
           (external_docs : option (list external_doc))
           (use_internal_rag : bool) : outcome (list hit) :=
  try_except
    (federated_search_body query tenant_id k_total personalization_alpha
       enable_personalization external_docs use_internal_rag)
    (fun _ => Returned []).

End Bridge.

End RagBridge.

(** ** Vocabulary of the ranking properties *)

Module Ranking.
Import Py RagBridge.

(** [desc key a b]: [a] may stand before [b] in decreasing key order. *)
Definition desc {A} (key : A -> Q) (a b : A) : Prop := (key b <= key a)%Q.

(** The elements of key [v], in list order. *)
Definition key_class {A} (key : A -> Q) (v : Q) (l : list A) : list A :=
  List.filter (fun a => Qeq_bool (key a) v) l.

Definition mem (d : string) (ids : list string) : bool :=
  existsb (String.eqb d) ids.

(** The order in which document ids are first met. *)
Definition add_new (seen : list string) (d : string) : list string :=
  if mem d seen then seen else (seen ++ [d])%list.

Definition first_seen (ids : list string) : list string :=
  fold_left add_new ids [].

(** The insertion order of [all_docs]: the semantic list is read first. *)
Definition insertion_order (semantic_results lexical_results : list hit)
  : list string :=
  first_seen (map id semantic_results ++ map id lexical_results)%list.

(** The sum of [1 / (k + rank)] over the entries of one source that carry
    the id [d]. *)
Fixpoint sum_terms (k : nat) (rank_of : hit -> option nat)
         (results : list hit) (d : string) : Q :=
  match results with
  | [] => 0%Q
  | r :: rest =>
      ((if String.eqb (id r) d
        then 1 / nat_Q (k + get (rank_of r) 999%nat) else 0)
       + sum_terms k rank_of rest d)%Q
  end.

Definition rrf (k : nat) (semantic_results lexical_results : list hit)
           (d : string) : Q :=
  (sum_terms k semantic_rank semantic_results d
   + sum_terms k lexical_rank lexical_results d)%Q.

(** The [rrf_score] stored under the id [d] in [all_docs]. *)
Definition score_of (all_docs : list hit) (d : string) : Q :=
  match find (fun h => String.eqb (id h) d) all_docs with
  | Some h => rrf_key h
  | None => 0%Q
  end.

(** *** The tie-break rules as the specification words them *)

Definition in_list (results : list hit) (h : hit) : bool :=
  mem (id h) (map id results).

(** "ties are broken by (a) presence in vector before lexical-only, then
    (b) lower doc_id string order": may [a] stand directly before [b]? *)
Definition spec_rrf_before (semantic_results : list hit) (a b : hit) : bool :=
  negb (Qle_bool (rrf_key a) (rrf_key b))
  || (Qeq_bool (rrf_key a) (rrf_key b)
      && ((in_list semantic_results a && negb (in_list semantic_results b))
          || (Bool.eqb (in_list semantic_results a) (in_list semantic_results b)
              && (id a <=? id b)%string))).

Fixpoint adjacent_ok {A} (before : A -> A -> bool) (l : list A) : bool :=
  match l with
  | a :: (b :: _) as rest => before a b && adjacent_ok before rest
  | _ => true
  end.

Definition origin_priority (h : hit) : nat :=
  match source h with External => 0 | Semantic => 1 | Lexical => 2 end.

(** "ties broken by origin priority external > vector > lexical, then by
    id ascending" *)
Definition spec_fuse_before (a b : hit) : bool :=
  negb (Qle_bool (get_sort_key a) (get_sort_key b))
  || (Qeq_bool (get_sort_key a) (get_sort_key b)
      && ((origin_priority a <? origin_priority b)
          || ((origin_priority a =? origin_priority b)
              && (id a <=? id b)%string))).

(** The hit at 0-based position [i] carries [final_rank] [i + 1]. *)
Definition numbered (hits : list hit) : Prop :=
  forall i h, nth_error hits i = Some h -> final_rank h = Some (i + 1).

(** "final_rank values are a permutation of 1..|hits|" *)
Definition ranks_1_to_N (hits : list hit) : Prop :=
  Permutation (map final_rank hits) (map Some (seq 1 (List.length hits))).

(** "clamp(x, 0, 1)" *)
Definition clamp01 (x : Q) : Q := Qmax 0 (Qmin x 1).

(** Every entry of [all_docs] carries an [rrf_score]. *)
Definition scored (h : hit) : Prop := rrf_score h = Some (rrf_key h).

(** What the pipeline hands to the combine step: internal candidates carry
    a positive [rrf_score]; external candidates carry none. *)
Definition internal_candidate (h : hit) : Prop :=
  exists r, rrf_score h = Some r /\ (0 < r)%Q.

Definition external_candidate (h : hit) : Prop := rrf_score h = None.

(** The effective score of an external candidate. *)
Definition boosted (h : hit) : Q := (score_key h * (12 # 10))%Q.

End Ranking.

(** ** Stand-ins for the collaborators

    Small deterministic services over rational vectors, in the way the
    tests of the repository patch the embedding service and Qdrant. *)

Module Doubles.
Import Py Np CentroidCalculator RagBridge.

Definition qvec : Type := list Q.

Fixpoint dotq (u v : qvec) : outcome Q :=
  match u, v with
  | [], [] => Returned 0%Q
  | x :: u', y :: v' => bind (dotq u' v') (fun s => Returned (x * y + s)%Q)
  | _, _ => Raised ValueError
  end.

(** Every text embeds to [embedding] (or the service raises), Qdrant
    answers [rows] (or raises), personalization answers [personalized]. *)
Definition services (embedding : outcome qvec)
           (rows : outcome (list scored_point))
           (personalized : qvec -> outcome qvec) : Collaborators qvec :=
  {| embed_query := fun _ => embedding;
     random_unit_vector := fun _ => [1%Q];
     qdrant_search := fun _ _ _ => rows;
     personalize_query_vector := fun v _ _ _ => personalized v;
     np_dot := dotq |}.

(** The embedding service is down and the index is empty. *)
Definition embedder_down : Collaborators qvec :=
  services (Raised (ServiceError "embedding")) (Returned []) Returned.

(** Every text embeds to the unit vector [-1]. *)
Definition opposite_embedder : Collaborators qvec :=
  services (Returned [(-1)%Q]) (Returned []) Returned.

Definition doc (src : string) (txt : string) (prio : Q) : external_doc :=
  mk_external_doc (Some src) (Some txt) (Some prio).

Definition three_docs : list external_doc :=
  [ doc "d1" "first document" (9 # 10);
    doc "d2" "second document" (8 # 10);
    doc "d3" "third document" (7 # 10) ].

(** Two documents that each source ranks differently: "B" then "A" in the
    semantic list, "A" then "B" in the lexical list. *)
Definition tie_semantic : list hit :=
  [ mk_hit "B" (Some (9 # 10)) Semantic (Some 1) None None None None None []
           None None None None;
    mk_hit "A" (Some (8 # 10)) Semantic (Some 2) None None None None None []
           None None None None ].

Definition tie_lexical : list hit :=
  [ mk_hit "A" (Some (9 # 10)) Lexical None (Some 1) None None None None []
           None None None None;
    mk_hit "B" (Some (8 # 10)) Lexical None (Some 2) None None None None []
           None None None None ].

(** Centroid lookups and embedding sets. *)
Definition antipodal_store (tenant_id tag : string) : option vec :=
  Some [(-1)%R].

Definition cancelling_vectors (tenant_id tag : string) : list vec :=
  [[1%R]; [(-1)%R]].

Definition empty_redis : redis := mk_redis ∅ true.

Definition one_vector (tenant_id tag : string) : list vec := [[2%R]].

End Doubles.

(** ** [app/core/personalization.py]: the centroid lookup and its cache *)

Module CentroidLookup.
Import Py Np CentroidCalculator.

(** One entry of [self._centroid_cache]: the keys ['centroid'] and
    ['timestamp'] (seconds, as [datetime.now().timestamp()] gives them). *)
Record cache_entry : Type := mk_cache_entry {
  cached_centroid : vec;
  timestamp : Q
}.

Definition cache_ttl : Q := 300.

(** [f"{tenant_id}:{tag}"] *)
Definition cache_key (tenant_id tag : string) : string :=
  tenant_id ++ ":" ++ tag.

(** [redis_client.get(key)], for a key whose TTL has not run out. *)
Definition redis_get (r : redis) (key : string) : outcome (option redis_value) :=
  if reachable r then Returned (data r !! key)
  else Raised (ServiceError "redis").

Section Lookup.
(** [np.frombuffer(b, dtype=np.float32)] on the bytes of a metadata string
    (by its [dimension] and [norm] entries); the bytes written by
    [store_centroid] decode to the array they encode. *)
Variable frombuffer_text : nat -> R -> outcome vec.

(** The cached centroid, when the entry is younger than the TTL. *)
Definition fresh_entry (c : gmap string cache_entry) (now : Q) (key : string)
  : option vec :=
  match c !! key with
  | Some cached_data =>
      if Qlt_le_dec (now - timestamp cached_data) cache_ttl
      then Some (cached_centroid cached_data) else None
  | None => None
  end.

(** [get_centroid]: [now] is the clock at the freshness test, [now_stored]
    the clock when the entry is written.  Returns the result and the cache
    afterwards. *)
Definition get_centroid (c : gmap string cache_entry) (r : redis)
           (now now_stored : Q) (tenant_id tag : string)
  : option vec * gmap string cache_entry :=
  let cache_key := cache_key tenant_id tag in
  match fresh_entry c now cache_key with
  | Some centroid => (Some centroid, c)
  | None =>
      let redis_key := centroid_key tenant_id tag in
      match redis_get r redis_key with
      | Raised _ => (None, c)
      | Returned None => (None, c)
      | Returned (Some (CentroidBytes _ [])) => (None, c)
      | Returned (Some (CentroidBytes _ centroid)) =>
          (Some centroid, <[cache_key := mk_cache_entry centroid now_stored]> c)
      | Returned (Some (Metadata _ dimension norm)) =>
          match frombuffer_text dimension norm with
          | Returned centroid =>
              (Some centroid, <[cache_key := mk_cache_entry centroid now_stored]> c)
          | Raised _ => (None, c)
          end
      end
  end.

(** The centroid alone, as [apply_personalization] receives it from
    [get_centroid]. *)
Definition lookup (c : gmap string cache_entry) (r : redis) (now now_stored : Q)
  : string -> string -> option vec :=
  fun tenant_id tag => fst (get_centroid c r now now_stored tenant_id tag).

End Lookup.

End CentroidLookup.

(** ** [scripts/calculate_centroids.py]: the job over several tenants *)

Module CentroidJob.
Import Py Np CentroidCalculator.

Definition default_tenants : list string :=
  ["cliente_acme"; "cliente_beta"; "cliente_gamma"].

(** [all_results[tenant_id] = results] on the insertion-ordered [dict]. *)
Fixpoint dict_set {V} (key : string) (v : V) (d : list (string * V))
  : list (string * V) :=
  match d with
  | [] => [(key, v)]
  | (k, v0) :: rest =>
      if String.eqb k key then (k, v) :: rest else (k, v0) :: dict_set key v rest
  end.

Section Job.
Variable get_vectors_for_tag : string -> string -> list vec.

Fixpoint run_tenants (r : redis) (all_results : list (string * list (string * bool)))
         (tenant_ids : list string)
  : list (string * list (string * bool)) * redis :=
  match tenant_ids with
  | [] => (all_results, r)
  | tenant_id :: rest =>
      let '(results, r1) :=
        calculate_and_store_centroids get_vectors_for_tag r tenant_id in
      run_tenants r1 (dict_set tenant_id results all_results) rest
  end.

(** [calculate_and_store_centroids] raises nothing in this model, so the
    handler of the loop is never entered. *)
Definition calculate_all_tenants (r : redis) (tenant_ids : option (list string))
  : list (string * list (string * bool)) * redis :=
  let tenant_ids :=
    match tenant_ids with
    | None | Some [] => default_tenants
    | Some ids => ids
    end in
  run_tenants r [] tenant_ids.

End Job.

End CentroidJob.

(** ** [app/models/schema_api.py]: validation of external documents *)

Module SchemaApi.
Import Py.

(** An [ExternalDoc] as far as the validators read it. *)
Record ExternalDoc : Type := mk_ExternalDoc {
  doc_src_id : string;
  doc_text : string
}.

(** [len(s)] *)
Definition len (s : string) : Z := Z.of_nat (String.length s).

(** [not s.strip()]: the text is made of whitespace only. *)
Fixpoint blank (s : string) : bool :=
  match s with
  | EmptyString => true
  | String c s' => isspace c && blank s'
  end.

(** [" ".join(texts)] *)
Fixpoint join_space (texts : list string) : string :=
  match texts with
  | [] => ""
  | [t] => t
  | t :: rest => t ++ " " ++ join_space rest
  end.

(** [ExternalDocProcessor.estimate_tokens] *)
Definition estimate_tokens (text : string) : Z := (len text / 4)%Z.

Inductive validation_error : Type :=
| TooLong (doc_index : nat) (src : string)
| EmptyText (doc_index : nat) (src : string)
| TotalTooLarge.

Record ExternalDocValidationResponse : Type := mk_response {
  valid : bool;
  total_docs : nat;
  total_characters : Z;
  validation_errors : list validation_error;
  estimated_tokens : Z
}.

(** The loop of [validate_docs] from index [i] on: errors and characters
    are accumulated in document order. *)
Fixpoint validate_loop (i : nat) (docs : list ExternalDoc)
         (validation_errors : list validation_error) (total_characters : Z)
  : list validation_error * Z :=
  match docs with
  | [] => (validation_errors, total_characters)
  | doc :: rest =>
      let validation_errors :=
        if (50000 <? len (doc_text doc))%Z
        then (validation_errors ++ [TooLong i (doc_src_id doc)])%list
        else validation_errors in
      let validation_errors :=
        if blank (doc_text doc)
        then (validation_errors ++ [EmptyText i (doc_src_id doc)])%list
        else validation_errors in
      validate_loop (S i) rest validation_errors
                    (total_characters + len (doc_text doc))%Z
  end.

(** [ExternalDocProcessor.validate_docs] *)
Definition validate_docs (docs : list ExternalDoc) : ExternalDocValidationResponse :=
  let '(validation_errors, total_characters) := validate_loop 0 docs [] 0%Z in
  let validation_errors :=
    if (500000 <? total_characters)%Z
    then (validation_errors ++ [TotalTooLarge])%list
    else validation_errors in
  mk_response (match validation_errors with [] => true | _ => false end)
              (List.length docs) total_characters validation_errors
              (estimate_tokens (join_space (map doc_text docs))).

(** [GenerationRequest.validate_external_docs]: at most 50 documents, with
    distinct ids; [ValueError] otherwise. *)
Definition validate_external_docs (v : option (list ExternalDoc))
  : outcome (option (list ExternalDoc)) :=
  match v with
  | None => Returned None
  | Some docs =>
      if 50 <? List.length docs then Raised ValueError
      else
        let src_ids := map doc_src_id docs in
        if negb (List.length src_ids =? List.length (to_set src_ids))
        then Raised ValueError
        else Returned v
  end.

End SchemaApi.

(** ** IEEE 754 binary64, the Python [float]

    A finite [float] is a rational; an operation on floats returns the
    rounding of the exact result (to nearest, ties to even).  [round64] is
    that rounding on [Q], subnormal range included; results beyond the
    largest double (about 1.8e308) are not represented. *)

Module Binary64.
Local Open Scope Z_scope.

(** [floor (log2 (n / d))] for positive [n] and [d]. *)
Definition floor_log2 (n d : Z) : Z :=
  let e0 := Z.log2 n - Z.log2 d in
  if 0 <=? e0
  then if d * 2 ^ e0 <=? n then e0 else e0 - 1
  else if d <=? n * 2 ^ (- e0) then e0 else e0 - 1.

(** [n / d] rounded to the nearest integer, ties to even. *)
Definition round_half_even (n d : Z) : Z :=
  let q := n / d in
  let r := n mod d in
  match 2 * r ?= d with
  | Lt => q
  | Gt => q + 1
  | Eq => if Z.even q then q else q + 1
  end.

Definition round64 (x : Q) : Q :=
  let n := Z.abs (Qnum x) in
  let d := Zpos (Qden x) in
  if n =? 0 then 0%Q
  else
    let e := Z.max (floor_log2 n d - 52) (-1074) in
    let m := if 0 <=? e then round_half_even n (d * 2 ^ e)
             else round_half_even (n * 2 ^ (- e)) d in
    let v := if 0 <=? e then inject_Z (m * 2 ^ e)
             else Qred (m # Z.to_pos (2 ^ (- e))) in
    if Qnum x <? 0 then Qopp v else v.

End Binary64.

(** ** Exceptions outside class [Exception]

    [except Exception] catches the exceptions of class [Exception];
    [asyncio.CancelledError] (delivered at an [await]), [KeyboardInterrupt]
    and [SystemExit] derive from [BaseException] alone and pass it. *)

Module PyBase.
Import Py.

Inductive base_exn : Type :=
| CancelledError
| KeyboardInterrupt
| SystemExit.

Inductive signal : Type :=
| Exc (e : exn)
| Base (b : base_exn).

Inductive result (A : Type) : Type :=
| Ok (a : A)
| Throw (s : signal).
Arguments Ok {A} a.
Arguments Throw {A} s.

Definition bind_result {A B} (m : result A) (f : A -> result B) : result B :=
  match m with
  | Ok a => f a
  | Throw s => Throw s
  end.

(** [try: body / except Exception: handler] *)
Definition except_Exception {A} (body : result A) (handler : exn -> result A)
  : result A :=
  match body with
  | Ok a => Ok a
  | Throw (Exc e) => handler e
  | Throw (Base b) => Throw (Base b)
  end.

(** A call that raises exceptions of class [Exception] only. *)
Definition lift {A} (o : outcome A) : result A :=
  match o with
  | Returned a => Ok a
  | Raised e => Throw (Exc e)
  end.

Definition fmap {A B} (f : A -> B) (m : result A) : result B :=
  bind_result m (fun a => Ok (f a)).

End PyBase.

(** ** [app/core/rag_bridge.py] in floating point, with every handler

    The bridge once more, now with what the embedding of [RagBridge] leaves
    out: each float operation rounds its result ([rnd], which is [round64]
    for the Python [float] and the identity for exact arithmetic), a service
    may raise an exception outside class [Exception], an external document
    may carry [priority: None], and every returned hit carries the
    [search_metadata] of the request.  For [rnd] the identity, numeric
    priorities and services that raise within class [Exception], these
    definitions are the ones of [RagBridge] (module [ExactProps]). *)

Module FloatBridge.
Import Py PyBase RagBridge.

(** [doc.get("priority", 0.9)]: the key is absent, or present with [None]
    ([priority: Optional[float]] in [schema_api.ExternalDoc]), or present
    with a number. *)
Inductive json_number : Type :=
| Absent
| Null
| Number (q : Q).

Record raw_doc : Type := mk_raw_doc {
  raw_src_id : option string;
  raw_text : option string;
  raw_priority : json_number
}.

(** The dictionary attached to every returned hit (lines 449-465). *)
Record search_metadata : Type := mk_search_metadata {
  md_query : string;
  md_tenant_id : string;
  personalization_enabled : bool;
  md_personalization_alpha : Q;
  md_use_internal_rag : bool;
  external_docs_count : nat;
  internal_results_count : nat;
  external_results_count : nat;
  final_results_count : nat;
  execution_time_ms : Q
}.

(** A returned hit: the result dictionary and its ["search_metadata"]. *)
Record found : Type := mk_found {
  found_hit : hit;
  found_metadata : search_metadata
}.

(** The services and the numpy calls of the bridge. *)
Class Services (Vec : Type) : Type := {
  (** [embedding_service.embed_query(text)] *)
  embed_query : string -> result Vec;
  (** [np.random.rand(n)] as drawn at the [j]-th embedding of the run:
      every call draws anew, so each embedding has a draw of its own *)
  np_random_rand : nat -> nat -> Vec;
  (** [np.linalg.norm(v)] and [v / a] *)
  np_linalg_norm : Vec -> Q;
  np_true_divide : Vec -> Q -> Vec;
  (** [qdrant_client.search(...)] and the conversion of its rows *)
  qdrant_search : Vec -> string -> Z -> result (list scored_point);
  (** [personalize_query_vector(query_vector, tenant_id, query, alpha)] *)
  personalize_query_vector : Vec -> string -> string -> Q -> result Vec;
  (** [np.dot(u, v)] *)
  np_dot : Vec -> Vec -> outcome Q
}.

Section Rounded.
Variable rnd : Q -> Q.

(** *** [reciprocal_rank_fusion] *)

(** [all_docs[doc_id]["rrf_score"] += term] and the [append]. *)
Definition add_rrf (src : source_kind) (rank : nat) (term : Q) (h : hit) : hit :=
  mk_hit (id h) (score h) (source h) (semantic_rank h) (lexical_rank h)
         (external_rank h) (priority h) (text_overlap h)
         (Some (rnd (get (rrf_score h) 0 + term))%Q)
         (rank_sources h ++ [mk_rank_source src rank term])%list
         (final_external_rank h) (fusion_source h)
         (final_rank h) (fusion_score h).

(** [1.0 / (k + rank)]; the integer [k + rank] converts exactly. *)
Definition rrf_term (k rank : nat) : outcome Q :=
  if (k + rank =? 0)%nat then Raised ZeroDivisionError
  else Returned (rnd (1 / nat_Q (k + rank)))%Q.

Definition rrf_step (src : source_kind) (rank_of : hit -> option nat) (k : nat)
           (all_docs : list hit) (result : hit) : outcome (list hit) :=
  let doc_id := id result in
  let rank := get (rank_of result) 999%nat in
  let all_docs :=
    if has_key doc_id all_docs then all_docs
    else (all_docs ++ [init_rrf result])%list in
  bind (rrf_term k rank) (fun term =>
  Returned (update doc_id (add_rrf src rank term) all_docs)).

Fixpoint rrf_loop (src : source_kind) (rank_of : hit -> option nat) (k : nat)
         (all_docs : list hit) (results : list hit) : outcome (list hit) :=
  match results with
  | [] => Returned all_docs
  | result :: rest =>
      bind (rrf_step src rank_of k all_docs result) (fun all_docs' =>
      rrf_loop src rank_of k all_docs' rest)
  end.

Definition reciprocal_rank_fusion (semantic_results lexical_results : list hit)
           (k : nat) : outcome (list hit) :=
  bind (rrf_loop Semantic semantic_rank k [] semantic_results) (fun all_docs =>
  bind (rrf_loop Lexical lexical_rank k all_docs lexical_results) (fun all_docs =>
  let fused_results := sorted_desc rrf_key all_docs in
  Returned (enumerate (fun i result => set_final_rank (i + 1) result) fused_results))).

(** *** [fuse_internal_and_external] *)

Definition get_sort_key (result : hit) : Q :=
  let base_score := get (score result) 0%Q in
  let rrf_score := get (rrf_score result) 0%Q in
  let effective_score := if Qlt_le_dec 0 rrf_score then rrf_score else base_score in
  match fusion_source result with
  | Some FusionExternal => rnd (effective_score * rnd (12 # 10))%Q
  | _ => effective_score
  end.

Definition fuse_internal_and_external (internal_results external_results : list hit)
  : list hit :=
  let combined_results :=
    (map (set_fusion_source FusionInternal) internal_results
     ++ map (set_fusion_source FusionExternal) external_results)%list in
  let combined_results := sorted_desc get_sort_key combined_results in
  enumerate
    (fun i result =>
       set_fusion_score (get_sort_key result) (set_final_rank (i + 1) result))
    combined_results.

(** Lines 414-447: fusion of the collected sources. *)
Definition fuse_all (all_results : list (string * list hit)) : outcome (list hit) :=
  match all_results with
  | [] => Returned []
  | [(_, only)] => Returned only
  | _ =>
      let semantic_results := results_get "semantic" all_results in
      let lexical_results := results_get "lexical" all_results in
      let ephemeral_results := results_get "ephemeral" all_results in
      bind (if is_nil semantic_results && is_nil lexical_results
            then Returned []
            else reciprocal_rank_fusion semantic_results lexical_results rrf_k)
           (fun internal_fused =>
      Returned
        (if is_nil ephemeral_results then internal_fused
         else fuse_internal_and_external internal_fused ephemeral_results))
  end.

(** *** The sources *)

Definition lexical_hit (tenant_id : string) (i : nat) : hit :=
  mk_hit ("doc_" ++ tenant_id ++ "_" ++ str_of_nat i)
         (Some (Qmax (rnd (1 # 10)) (rnd (1 - rnd (nat_Q i * rnd (1 # 10)))))%Q)
         Lexical None (Some (i + 1)) None None None None [] None None None None.

Definition lexical_search (query tenant_id : string) (k : Z) : list hit :=
  map (lexical_hit tenant_id) (seq 0 (Z.to_nat (Z.min k 15))).

(** [personalization_alpha or self.personalization_alpha] *)
Definition alpha_or_default (personalization_alpha : option Q) : Q :=
  match personalization_alpha with
  | Some a => if Qeq_bool a 0 then rnd (25 # 100) else a
  | None => rnd (25 # 100)
  end.

Section Bridge.
Context {Vec : Type} `{Sv : Services Vec}.

(** [j] numbers the embeddings of one search: 0 for the query, [i + 1]
    for the external document at position [i]. *)
Definition get_query_embedding (j : nat) (query : string) : result Vec :=
  except_Exception
    (embed_query query)
    (fun _ =>
       let fallback := np_random_rand 768 j in
       Ok (np_true_divide fallback (np_linalg_norm fallback))).

Definition semantic_search (query_vector : Vec) (tenant_id : string) (k : Z)
  : result (list hit) :=
  except_Exception
    (bind_result (qdrant_search query_vector tenant_id k) (fun results =>
     Ok (enumerate semantic_hit results)))
    (fun _ => Ok []).

(** *** [process_external_docs] *)

(** Lines 224-237: the inner [try] around the similarity. *)
Definition with_similarity (query_vector : option Vec) (i : nat) (text : string)
           (final_score : Q) : result Q :=
  match query_vector with
  | Some qv =>
      if nonempty_str text then
        except_Exception
          (bind_result (get_query_embedding (S i) (take_str 1000 text))
                       (fun doc_embedding =>
           bind_result (lift (np_dot qv doc_embedding)) (fun similarity =>
           Ok (rnd (rnd (final_score * rnd (7 # 10)) + rnd (similarity * rnd (3 # 10))))%Q)))
          (fun _ => Ok final_score)
      else Ok final_score
  | None => Ok final_score
  end.

(** [len(query_words & doc_words) / len(query_words) if query_words else 0] *)
Definition overlap (query doc_text : string) : Q :=
  let query_words := to_set (split (lower query)) in
  let doc_words := to_set (split (lower doc_text)) in
  match query_words with
  | [] => 0%Q
  | _ => rnd (nat_Q (inter_size query_words doc_words)
              / nat_Q (List.length query_words))%Q
  end.

(** One iteration of the loop (lines 211-254). *)
Definition external_hit (query : string) (query_vector : option Vec)
           (i : nat) (doc : raw_doc) : result hit :=
  let src_id := get (raw_src_id doc) ("external_doc_" ++ str_of_nat i) in
  let text := get (raw_text doc) "" in
  bind_result
    match raw_priority doc with
    | Absent => Ok (rnd (9 # 10))
    | Number priority => Ok priority
    | Null => Throw (Exc TypeError)
    end (fun priority =>
  let base_score := priority in
  let position_penalty := rnd (nat_Q i * rnd (1 # 100))%Q in
  let final_score := Qmax (rnd (1 # 10)) (rnd (base_score - position_penalty))%Q in
  bind_result (with_similarity query_vector i text final_score) (fun final_score =>
  let text_overlap := overlap query text in
  let final_score :=
    rnd (rnd (final_score * rnd (8 # 10)) + rnd (text_overlap * rnd (2 # 10)))%Q in
  Ok (mk_hit src_id (Some final_score) External None None (Some (i + 1))
             (Some priority) (Some text_overlap) None [] None None None None))).

Fixpoint external_hits (query : string) (query_vector : option Vec)
         (i : nat) (docs : list raw_doc) : result (list hit) :=
  match docs with
  | [] => Ok []
  | doc :: rest =>
      bind_result (external_hit query query_vector i doc) (fun hit =>
      bind_result (external_hits query query_vector (S i) rest) (fun hits =>
      Ok (hit :: hits)))
  end.

Definition process_external_docs (external_docs : list raw_doc)
           (query : string) (query_vector : option Vec) : result (list hit) :=
  except_Exception
    match external_docs with
    | [] => Ok []
    | _ =>
        bind_result (external_hits query query_vector 0 external_docs)
                    (fun ephemeral_hits =>
        let ephemeral_hits := sorted_desc score_key ephemeral_hits in
        Ok (enumerate (fun i hit => set_final_external_rank (i + 1) hit)
                      ephemeral_hits))
    end
    (fun _ => Ok []).

(** *** [federated_search] *)

(** Lines 366-386. *)
Definition resolve_query_vector (query tenant_id : string)
           (personalization_alpha : option Q)
           (enable_personalization use_internal_rag : bool)
  : result (option Vec) :=
  if use_internal_rag then
    bind_result (get_query_embedding 0 query) (fun query_vector =>
    if enable_personalization then
      let alpha := alpha_or_default personalization_alpha in
      bind_result (personalize_query_vector query_vector tenant_id query alpha)
                  (fun personalized_vector =>
      bind_result (lift (np_dot query_vector personalized_vector)) (fun similarity =>
      Ok (Some personalized_vector)))
    else Ok (Some query_vector))
  else Ok None.

(** Lines 388-467: the search once the query vector is known;
    [execution_time_ms] is what the clock gives at line 460. *)
Definition search_from (query_vector : option Vec) (query tenant_id : string)
           (k_total : Z) (personalization_alpha : option Q)
           (enable_personalization : bool)
           (external_docs : option (list raw_doc)) (use_internal_rag : bool)
           (execution_time_ms : Q) : result (list found) :=
  bind_result
    match query_vector with
    | Some qv =>
        if use_internal_rag then
          let k_search := Z.min (k_total * 2) 50 in
          bind_result (semantic_search qv tenant_id k_search) (fun semantic_results =>
          let lexical_results := lexical_search query tenant_id k_search in
          Ok [("semantic", semantic_results); ("lexical", lexical_results)])
        else Ok []
    | None => Ok []
    end (fun internal =>
  bind_result
    (if falsy external_docs then Ok []
     else
       bind_result (process_external_docs (get external_docs []) query query_vector)
                   (fun ephemeral_hits => Ok [("ephemeral", ephemeral_hits)]))
    (fun ephemeral =>
  let all_results := (internal ++ ephemeral)%list in
  match all_results with
  | [] => Ok []
  | _ =>
      bind_result (lift (fuse_all all_results)) (fun fused_results =>
      let final_results := slice_to k_total fused_results in
      let search_metadata :=
        mk_search_metadata
          query tenant_id enable_personalization
          (alpha_or_default personalization_alpha)
          use_internal_rag
          (List.length (get external_docs []))
          (List.length (results_get "semantic" all_results)
           + List.length (results_get "lexical" all_results))
          (List.length (results_get "ephemeral" all_results))
          (List.length final_results)
          execution_time_ms in
      Ok (map (fun result => mk_found result search_metadata) final_results))
  end)).

Definition federated_search_body (query tenant_id : string) (k_total : Z)
           (personalization_alpha : option Q) (enable_personalization : bool)
           (external_docs : option (list raw_doc)) (use_internal_rag : bool)
           (execution_time_ms : Q) : result (list found) :=
  if negb use_internal_rag && falsy external_docs then Ok []
  else
    bind_result (resolve_query_vector query tenant_id personalization_alpha
                   enable_personalization use_internal_rag) (fun query_vector =>
    search_from query_vector query tenant_id k_total personalization_alpha
                enable_personalization external_docs use_internal_rag
                execution_time_ms).

(** The body sits in [try: ... except Exception: return []]. *)
Definition federated_search (query tenant_id : string) (k_total : Z)
           (personalization_alpha : option Q) (enable_personalization : bool)
           (external_docs : option (list raw_doc)) (use_internal_rag : bool)
           (execution_time_ms : Q) : result (list found) :=
  except_Exception
    (federated_search_body query tenant_id k_total personalization_alpha
       enable_personalization external_docs use_internal_rag execution_time_ms)
    (fun _ => Ok []).

End Bridge.
End Rounded.

End FloatBridge.

(** ** Vocabulary of the ranking properties in floating point *)

Module FloatRanking.
Import Py RagBridge Ranking.

Section Rounded.
Variable rnd : Q -> Q.

(** The score of the document [d] after one more listing [r] has been
    read: [score += 1.0 / (k + rank)] when [r] lists [d]. *)
Definition acc_step (k : nat) (rank_of : hit -> option nat) (d : string)
           (acc : Q) (r : hit) : Q :=
  if String.eqb (id r) d
  then rnd (acc + rnd (1 / nat_Q (k + get (rank_of r) 999%nat)))%Q
  else acc.

(** The score of [d] accumulated over one list, from [acc]. *)
Definition acc_terms (k : nat) (rank_of : hit -> option nat)
           (results : list hit) (d : string) (acc : Q) : Q :=
  fold_left (acc_step k rank_of d) results acc.

(** The score of [d] as the code accumulates it: from 0, over the semantic
    list and then over the lexical list, each addition rounded. *)
Definition fl_rrf (k : nat) (semantic_results lexical_results : list hit)
           (d : string) : Q :=
  acc_terms k lexical_rank lexical_results d
            (acc_terms k semantic_rank semantic_results d 0%Q).

(** The effective score of an external candidate: [score * 1.2]. *)
Definition boosted (h : hit) : Q := rnd (score_key h * rnd (12 # 10))%Q.

(** "ties are broken by (a) presence in vector before lexical-only, then
    (b) lower doc_id string order" and "ties broken by origin priority
    external > vector > lexical, then by id ascending": may [a] stand
    directly before [b]? *)
Definition spec_fuse_before (a b : hit) : bool :=
  negb (Qle_bool (FloatBridge.get_sort_key rnd a) (FloatBridge.get_sort_key rnd b))
  || (Qeq_bool (FloatBridge.get_sort_key rnd a) (FloatBridge.get_sort_key rnd b)
      && ((origin_priority a <? origin_priority b)
          || ((origin_priority a =? origin_priority b)
              && (id a <=? id b)%string))).

End Rounded.

(** The result dictionaries of an answer, without their
    ["search_metadata"]. *)
Definition hits_of (m : PyBase.result (list FloatBridge.found))
  : PyBase.result (list hit) :=
  PyBase.fmap (map FloatBridge.found_hit) m.

(** The call raises no exception outside class [Exception]. *)
Definition no_base {A} (m : PyBase.result A) : Prop :=
  forall b, m <> PyBase.Throw (PyBase.Base b).

(** No service is interrupted: each of them returns, or raises within
    class [Exception]. *)
Definition within_Exception {Vec} (Sv : FloatBridge.Services Vec) : Prop :=
  (forall text, no_base (FloatBridge.embed_query text))
  /\ (forall v tenant_id k, no_base (FloatBridge.qdrant_search v tenant_id k))
  /\ (forall v tenant_id query alpha,
        no_base (FloatBridge.personalize_query_vector v tenant_id query alpha)).

(** The priority of the document is a number, or is not given. *)
Definition numeric_priority (doc : FloatBridge.raw_doc) : Prop :=
  FloatBridge.raw_priority doc <> FloatBridge.Null.

(** *** The two embeddings of the bridge side by side *)

(** A document of [RagBridge] as the dictionary it stands for. *)
Definition raw_of (doc : external_doc) : FloatBridge.raw_doc :=
  FloatBridge.mk_raw_doc
    (src_id doc) (text doc)
    match doc_priority doc with
    | Some p => FloatBridge.Number p
    | None => FloatBridge.Absent
    end.

(** The services [Sv] are the collaborators [C]: each call answers the
    same and raises within class [Exception], and where an embedding fails
    the normalised draw is the substitute of [C]. *)
Definition same_services {Vec} (C : Collaborators Vec)
           (Sv : FloatBridge.Services Vec) : Prop :=
  (forall text,
      FloatBridge.embed_query text = PyBase.lift (embed_query text))
  /\ (forall v tenant_id k,
        FloatBridge.qdrant_search v tenant_id k
        = PyBase.lift (qdrant_search v tenant_id k))
  /\ (forall v tenant_id query alpha,
        FloatBridge.personalize_query_vector v tenant_id query alpha
        = PyBase.lift (personalize_query_vector v tenant_id query alpha))
  /\ (forall u v, FloatBridge.np_dot u v = np_dot u v)
  /\ (forall j text e,
        embed_query text = Raised e ->
        let fallback := FloatBridge.np_random_rand 768 j in
        FloatBridge.np_true_divide fallback (FloatBridge.np_linalg_norm fallback)
        = random_unit_vector text).

End FloatRanking.

(** ** Inputs and services for the floating-point runs *)

Module FloatDoubles.
Import Py PyBase RagBridge FloatBridge Binary64.

(** The documents "X" (vector rank 28, lexical rank 12) and "Y" (vector
    rank 39, lexical rank 6): 1/88 + 1/72 and 1/99 + 1/66 are both 5/198. *)
Definition near_tie_semantic : list hit :=
  [ mk_hit "X" (Some (6 # 10)) Semantic (Some 28) None None None None None []
           None None None None;
    mk_hit "Y" (Some (5 # 10)) Semantic (Some 39) None None None None None []
           None None None None ].

Definition near_tie_lexical : list hit :=
  [ mk_hit "Y" (Some (5 # 10)) Lexical None (Some 6) None None None None []
           None None None None;
    mk_hit "X" (Some (4 # 10)) Lexical None (Some 12) None None None None []
           None None None None ].

(** One document found by the lexical source alone, at rank 1. *)
Definition one_lexical : list hit :=
  [ mk_hit "doc" (Some 1%Q) Lexical None (Some 1) None None None None []
           None None None None ].

(** That document fused, as the combine step receives it; its rrf score is
    the double 1/61. *)
Definition fused_one_lexical : list hit :=
  match reciprocal_rank_fusion round64 [] one_lexical 60 with
  | Returned fused => fused
  | Raised _ => []
  end.

(** An external hit whose score, the double 0.013661202185792351, times 1.2
    is the double 1/61. *)
Definition boosted_to_1_61 : list hit :=
  [ mk_hit "ext" (Some (984393361173879 # 72057594037927936)) External
           None None (Some 1) (Some (9 # 10)) (Some 0%Q) None [] (Some 1)
           None None None ].

(** Two external hits of score 0.5, the later one with the lower id. *)
Definition equal_externals : list hit :=
  [ mk_hit "z" (Some (1 # 2)) External None None (Some 1) (Some (9 # 10))
           (Some 0%Q) None [] (Some 1) None None None;
    mk_hit "a" (Some (1 # 2)) External None None (Some 2) (Some (9 # 10))
           (Some 0%Q) None [] (Some 2) None None None ].

(** Services over rational vectors: [embedding] and [rows] are what the
    embedding service and Qdrant answer; personalization returns its
    argument; the [j]-th draw of [np.random.rand(n)] has every entry equal
    to 1/(j+2); the norm is the sum of the absolute values, which keeps
    these services within the rationals, kept in lowest terms. *)
Fixpoint dotq (u v : list Q) : outcome Q :=
  match u, v with
  | [], [] => Returned 0%Q
  | x :: u', y :: v' => bind (dotq u' v') (fun s => Returned (Qred (x * y + s)))
  | _, _ => Raised ValueError
  end.

Definition services (embedding : result (list Q))
           (rows : result (list scored_point)) : Services (list Q) :=
  {| embed_query := fun _ => embedding;
     np_random_rand := fun n j => repeat (1 # Pos.of_succ_nat (S j))%Q n;
     np_linalg_norm := fun v => fold_right (fun x acc => Qred (Qabs x + acc)) 0%Q v;
     np_true_divide := fun v a => map (fun x => Qred (x / a)) v;
     qdrant_search := fun _ _ _ => rows;
     personalize_query_vector := fun v _ _ _ => Ok v;
     np_dot := dotq |}.

(** The collaborators of [RagBridge] as services; the numpy calls of the
    fallback are given apart. *)
Definition as_services {Vec} (C : Collaborators Vec) (draw : nat -> nat -> Vec)
           (norm : Vec -> Q) (divide : Vec -> Q -> Vec) : Services Vec :=
  {| embed_query := fun text => lift (RagBridge.embed_query text);
     np_random_rand := draw;
     np_linalg_norm := norm;
     np_true_divide := divide;
     qdrant_search := fun v tenant_id k => lift (RagBridge.qdrant_search v tenant_id k);
     personalize_query_vector :=
       fun v tenant_id query alpha =>
         lift (RagBridge.personalize_query_vector v tenant_id query alpha);
     np_dot := RagBridge.np_dot |}.

(** The embedding service is down; the index holds two documents. *)
Definition embedder_down : Services (list Q) :=
  services (Throw (Exc (ServiceError "embedding")))
           (Ok [mk_scored_point "v1" (9 # 10); mk_scored_point "v2" (8 # 10)]).

(** The task is cancelled while the embedding is awaited. *)
Definition cancelled : Services (list Q) :=
  services (Throw (Base CancelledError)) (Ok []).

(** Every service answers. *)
Definition healthy : Services (list Q) :=
  services (Ok [1%Q]) (Ok [mk_scored_point "v1" (9 # 10)]).

Definition raw (src txt : string) (prio : json_number) : raw_doc :=
  mk_raw_doc (Some src) (Some txt) prio.

(** Priorities 0.12 and 0.13: 0.12 and 0.13 - 0.01 differ as doubles. *)
Definition close_docs : list raw_doc :=
  [ raw "first" "uma nota" (Number (round64 (12 # 100)));
    raw "later" "outra nota" (Number (round64 (13 # 100))) ].

(** A document as [prepare_for_rag] hands it on when the caller sent
    [priority: null]. *)
Definition null_priority_docs : list raw_doc :=
  [ raw "d1" "first document" (Number (round64 (9 # 10)));
    raw "d2" "second document" Null ].

End FloatDoubles.

(** ** Vocabulary of the properties of the fused lists *)

Module Records.
Import Py RagBridge.


(** The sum of the contributions listed in [rank_sources], in the order in
    which [rrf_score] accumulates them. *)
Definition contributions_sum (h : hit) : Q :=
  fold_left Qplus (map rrf_contribution (rank_sources h)) 0%Q.

(** The list a [rank_sources] entry of a given source comes from, and the
    rank field read for it. *)
Definition listed (src : source_kind) (sem lex : list hit) : list hit :=
  match src with Semantic => sem | Lexical => lex | External => [] end.

Definition rank_field (src : source_kind) : hit -> option nat :=
  match src with
  | Semantic => semantic_rank
  | Lexical => lexical_rank
  | External => external_rank
  end.

(** The entry [s] of the document [d] records one listing of [d]: its
    source, the rank it has there, and the term [1 / (k + rank)]. *)
Definition entry_ok (sem lex : list hit) (k : nat) (d : string)
           (s : rank_source) : Prop :=
  rrf_contribution s = (1 / nat_Q (k + rs_rank s))%Q
  /\ exists r, In r (listed (rs_source s) sem lex) /\ id r = d
               /\ get (rank_field (rs_source s) r) 999 = rs_rank s.

(** The state of a document between the creation of its entry and the
    first addition to it. *)
Definition partial (sem lex : list hit) (k : nat) (h : hit) : Prop :=
  rrf_score h = Some (contributions_sum h)
  /\ Forall (entry_ok sem lex k (id h)) (rank_sources h).

Definition recorded (sem lex : list hit) (k : nat) (h : hit) : Prop :=
  rrf_score h = Some (contributions_sum h)
  /\ rank_sources h <> []
  /\ Forall (entry_ok sem lex k (id h)) (rank_sources h).

End Records.

(** ** Vocabulary of the properties of the Redis keys *)

Module Keys.

(** The identifier holds no colon, the separator of the keys. *)
Fixpoint no_colon (s : string) : bool :=
  match s with
  | EmptyString => true
  | String c s' => negb (Ascii.eqb c ":") && no_colon s'
  end.

End Keys.

(* ===================================================================== *)
(** * Part II: properties *)
(* ===================================================================== *)

(** ** Stable sorting by decreasing key, and [enumerate] *)

Module SortFacts.
Import RagBridge Ranking.

Section Sort.
Context {A : Type} (key : A -> Q).

Lemma insert_desc_perm x l : Permutation (insert_desc key x l) (x :: l).
Proof.
  induction l as [|y l IH]; simpl; [reflexivity|].
  destruct (Qle_bool (key y) (key x)); [reflexivity|].
  rewrite IH. apply perm_swap.
Qed.

Lemma sorted_desc_perm l : Permutation (sorted_desc key l) l.
Proof.
  induction l as [|x l IH]; simpl; [reflexivity|].
  rewrite insert_desc_perm. now constructor.
Qed.

Lemma sorted_desc_length l : List.length (sorted_desc key l) = List.length l.
Proof. apply Permutation_length, sorted_desc_perm. Qed.

Lemma sorted_desc_In x l : In x (sorted_desc key l) <-> In x l.
Proof.
  split; apply Permutation_in;
    [apply sorted_desc_perm | symmetry; apply sorted_desc_perm].
Qed.

Lemma insert_desc_sorted x l :
  StronglySorted (desc key) l -> StronglySorted (desc key) (insert_desc key x l).
Proof.
  induction l as [|y l IH]; simpl; intros Hs.
  - constructor; constructor.
  - destruct (Qle_bool (key y) (key x)) eqn:Hle.
    + apply Qle_bool_iff in Hle.
      constructor; [exact Hs|].
      constructor; [exact Hle|].
      apply StronglySorted_inv in Hs. destruct Hs as [_ Hall].
      eapply List.Forall_impl; [|exact Hall].
      intros z Hz. unfold desc in *. now apply Qle_trans with (key y).
    + assert (Hlt : (key x < key y)%Q).
      { apply Qnot_le_lt. intros H. apply Qle_bool_iff in H. congruence. }
      apply StronglySorted_inv in Hs. destruct Hs as [Hs Hall].
      constructor; [now apply IH|].
      apply List.Forall_forall. intros z Hz.
      apply (Permutation_in _ (insert_desc_perm x l)) in Hz.
      destruct Hz as [<-|Hz].
      * unfold desc. now apply Qlt_le_weak.
      * rewrite List.Forall_forall in Hall. now apply Hall.
Qed.

(** The result is in decreasing key order. *)
Lemma sorted_desc_sorted l : StronglySorted (desc key) (sorted_desc key l).
Proof.
  induction l as [|x l IH]; simpl; [constructor|].
  now apply insert_desc_sorted.
Qed.

Lemma insert_desc_class v x l :
  key_class key v (insert_desc key x l) = key_class key v (x :: l).
Proof.
  unfold key_class.
  induction l as [|y l IH]; simpl; [reflexivity|].
  destruct (Qle_bool (key y) (key x)) eqn:Hle; [reflexivity|].
  simpl. rewrite IH. simpl.
  destruct (Qeq_bool (key x) v) eqn:Hx; [|reflexivity].
  destruct (Qeq_bool (key y) v) eqn:Hy; [|reflexivity].
  exfalso. apply Qeq_bool_iff in Hx, Hy.
  assert (H : Qle_bool (key y) (key x) = true).
  { apply Qle_bool_iff. rewrite Hx, Hy. apply Qle_refl. }
  congruence.
Qed.

(** Stability: elements of equal key keep their relative order. *)
Lemma sorted_desc_stable v l :
  key_class key v (sorted_desc key l) = key_class key v l.
Proof.
  induction l as [|x l IH]; simpl; [reflexivity|].
  rewrite insert_desc_class. unfold key_class in *. simpl. now rewrite IH.
Qed.

End Sort.

Section Enumerate.
Context {A B : Type} (f : nat -> A -> B).

Lemma enumerate_from_length i l :
  List.length (enumerate_from f i l) = List.length l.
Proof. revert i; induction l; intros; simpl; auto. Qed.

Lemma enumerate_from_nth i l n :
  nth_error (enumerate_from f i l) n = option_map (f (i + n)) (nth_error l n).
Proof.
  revert i n; induction l as [|x l IH]; intros i n; simpl.
  - now destruct n.
  - destruct n; simpl; [now rewrite Nat.add_0_r|].
    rewrite IH. now rewrite Nat.add_succ_comm.
Qed.

Lemma enumerate_from_map {C} (g : B -> C) (h : A -> C) i l :
  (forall j x, g (f j x) = h x) ->
  map g (enumerate_from f i l) = map h l.
Proof.
  intros Hg. revert i; induction l as [|x l IH]; intros i; simpl; [reflexivity|].
  now rewrite Hg, IH.
Qed.

Lemma enumerate_from_In i l y :
  In y (enumerate_from f i l) -> exists j x, In x l /\ y = f j x.
Proof.
  revert i; induction l as [|x l IH]; intros i; simpl; [tauto|].
  intros [<-|H]; [exists i, x; auto|].
  destruct (IH _ H) as (j & x' & Hin & ->). exists j, x'. auto.
Qed.

End Enumerate.

Lemma firstn_nth_error {A} (l : list A) k n x :
  nth_error (firstn k l) n = Some x -> nth_error l n = Some x /\ n < k.
Proof.
  revert k n; induction l as [|a l IH]; intros k n; destruct k, n; simpl;
    try discriminate.
  - intros H. split; [exact H|lia].
  - intros H. apply IH in H. destruct H. split; [assumption|lia].
Qed.

Lemma slice_to_prefix {A} (k : Z) (l : list A) :
  exists n, slice_to k l = firstn n l.
Proof. unfold slice_to. destruct (0 <=? k)%Z; eauto. Qed.

Lemma slice_to_length {A} (k : Z) (l : list A) :
  (0 <= k)%Z -> (Z.of_nat (List.length (slice_to k l)) <= k)%Z.
Proof.
  intros Hk. unfold slice_to.
  destruct (Z.leb_spec 0 k); [|lia].
  rewrite length_firstn. lia.
Qed.

Lemma nat_Q_nonneg n : (0 <= nat_Q n)%Q.
Proof.
  unfold nat_Q. change 0%Q with (inject_Z 0). rewrite <- Zle_Qle. lia.
Qed.

Lemma nat_Q_le n m : n <= m -> (nat_Q n <= nat_Q m)%Q.
Proof. intros H. unfold nat_Q. rewrite <- Zle_Qle. lia. Qed.

Lemma nat_Q_pos n : 0 < n -> (0 < nat_Q n)%Q.
Proof.
  intros H. unfold nat_Q. change 0%Q with (inject_Z 0). rewrite <- Zlt_Qlt. lia.
Qed.

End SortFacts.

(** ** Reciprocal rank fusion *)

Module RrfProps.
Import Py RagBridge Ranking SortFacts Doubles.

Lemma Qeq_bool_compat (a b v : Q) : (a == b)%Q -> Qeq_bool a v = Qeq_bool b v.
Proof.
  intros Hab.
  destruct (Qeq_bool a v) eqn:Ha, (Qeq_bool b v) eqn:Hb; try reflexivity.
  - apply Qeq_bool_iff in Ha.
    assert (H : Qeq_bool b v = true) by (apply Qeq_bool_iff; now rewrite <- Hab).
    congruence.
  - apply Qeq_bool_iff in Hb.
    assert (H : Qeq_bool a v = true) by (apply Qeq_bool_iff; now rewrite Hab).
    congruence.
Qed.

(** *** The [all_docs] dictionary *)

Lemma has_key_mem d docs : has_key d docs = mem d (map id docs).
Proof.
  unfold mem. induction docs as [|h docs IH]; simpl; [reflexivity|].
  rewrite IH. f_equal. apply String.eqb_sym.
Qed.

Lemma update_ids d f docs :
  (forall h, id (f h) = id h) -> map id (update d f docs) = map id docs.
Proof.
  intros Hf. induction docs as [|h docs IH]; simpl; [reflexivity|].
  destruct (String.eqb (id h) d); simpl; [now rewrite Hf|now rewrite IH].
Qed.

Lemma score_of_update src rank term d docs d' :
  has_key d docs = true ->
  (score_of (update d (add_rrf src rank term) docs) d'
   == score_of docs d' + (if String.eqb d d' then term else 0))%Q.
Proof.
  unfold score_of.
  induction docs as [|h docs IH]; simpl; [discriminate|].
  intros Hkey.
  destruct (String.eqb (id h) d) eqn:Hhd; simpl.
  - apply String.eqb_eq in Hhd. subst d.
    destruct (String.eqb (id h) d') eqn:Hhd'.
    + unfold rrf_key. simpl. reflexivity.
    + ring.
  - simpl in Hkey.
    destruct (String.eqb (id h) d') eqn:Hhd'.
    + apply String.eqb_eq in Hhd'. subst d'.
      assert (Hne : String.eqb d (id h) = false).
      { rewrite String.eqb_sym. exact Hhd. }
      rewrite Hne. ring.
    + now apply IH.
Qed.

Lemma score_of_app_new docs r d' :
  has_key (id r) docs = false ->
  (score_of (docs ++ [init_rrf r]) d' == score_of docs d')%Q.
Proof.
  unfold score_of.
  induction docs as [|h docs IH]; simpl; intros Hkey.
  - destruct (String.eqb (id r) d'); reflexivity.
  - apply orb_false_iff in Hkey. destruct Hkey as [_ Hkey].
    destruct (String.eqb (id h) d'); [reflexivity|now apply IH].
Qed.

Lemma has_key_app_new docs r : has_key (id r) (docs ++ [init_rrf r]) = true.
Proof.
  induction docs as [|h docs IH]; simpl.
  - now rewrite String.eqb_refl.
  - rewrite IH. apply orb_true_r.
Qed.

Lemma update_scored src rank term d docs :
  Forall scored docs -> Forall scored (update d (add_rrf src rank term) docs).
Proof.
  induction docs as [|h docs IH]; simpl; intros H; [constructor|].
  destruct (String.eqb (id h) d).
  - constructor; [reflexivity|exact (Forall_inv_tail H)].
  - constructor; [exact (Forall_inv H)|apply IH, (Forall_inv_tail H)].
Qed.

(** *** One source loop *)

Lemma rrf_step_spec src rank_of k docs r :
  0 < k ->
  exists docs',
    rrf_step src rank_of k docs r = Returned docs'
    /\ map id docs' = add_new (map id docs) (id r)
    /\ (forall d, (score_of docs' d
                   == score_of docs d
                      + (if String.eqb (id r) d
                         then 1 / nat_Q (k + get (rank_of r) 999%nat) else 0))%Q)
    /\ (Forall scored docs -> Forall scored docs').
Proof.
  intros Hk. unfold rrf_step, rrf_term.
  assert (Hnz : (k + get (rank_of r) 999 =? 0) = false) by (apply Nat.eqb_neq; lia).
  rewrite Hnz. simpl.
  eexists. split; [reflexivity|].
  unfold add_new. rewrite <- has_key_mem.
  destruct (has_key (id r) docs) eqn:Hkey.
  - split; [now apply update_ids|]. split.
    + intros d. now apply score_of_update.
    + apply update_scored.
  - split.
    + rewrite update_ids by reflexivity. now rewrite map_app.
    + split.
      * intros d. rewrite score_of_update by apply has_key_app_new.
        now rewrite score_of_app_new.
      * intros H. apply update_scored.
        apply Forall_app. split; [exact H|]. constructor; [reflexivity|constructor].
Qed.

Lemma rrf_loop_spec src rank_of k results :
  0 < k ->
  forall docs,
  exists docs',
    rrf_loop src rank_of k docs results = Returned docs'
    /\ map id docs' = fold_left add_new (map id results) (map id docs)
    /\ (forall d, (score_of docs' d
                   == score_of docs d + sum_terms k rank_of results d)%Q)
    /\ (Forall scored docs -> Forall scored docs').
Proof.
  intros Hk. induction results as [|r results IH]; intros docs; simpl.
  - exists docs. repeat split; auto. intros d. ring.
  - destruct (rrf_step_spec src rank_of k docs r Hk) as (docs1 & -> & Hids1 & Hsc1 & Hs1).
    simpl.
    destruct (IH docs1) as (docs2 & -> & Hids2 & Hsc2 & Hs2).
    exists docs2. split; [reflexivity|].
    split; [now rewrite Hids2, Hids1|].
    split; [|auto].
    intros d. rewrite Hsc2, Hsc1. ring.
Qed.

(** *** Insertion order *)

Lemma mem_In d ids : mem d ids = true <-> In d ids.
Proof.
  unfold mem. rewrite existsb_exists. split.
  - intros (x & Hin & Hx). apply String.eqb_eq in Hx. now subst.
  - intros H. exists d. split; [exact H|apply String.eqb_refl].
Qed.

Lemma add_new_NoDup seen d : List.NoDup seen -> List.NoDup (add_new seen d).
Proof.
  intros H. unfold add_new. destruct (mem d seen) eqn:Hm; [exact H|].
  apply List.NoDup_app; [exact H|repeat constructor; simpl; tauto|].
  intros x Hx [<-|[]]. apply mem_In in Hx. congruence.
Qed.

Lemma fold_add_new_NoDup ids : forall seen,
  List.NoDup seen -> List.NoDup (fold_left add_new ids seen).
Proof.
  induction ids as [|d ids IH]; simpl; intros seen H; [exact H|].
  apply IH, add_new_NoDup, H.
Qed.

Lemma first_seen_NoDup ids : List.NoDup (first_seen ids).
Proof. apply fold_add_new_NoDup. constructor. Qed.

(** Ids that were seen keep their place; later ids go behind them. *)
Lemma fold_add_new_prefix ids : forall seen,
  exists later,
    fold_left add_new ids seen = (seen ++ later)%list
    /\ (forall d, In d later -> In d ids /\ ~ In d seen).
Proof.
  induction ids as [|x ids IH]; simpl; intros seen.
  - exists []. split; [now rewrite app_nil_r|]. intros d [].
  - destruct (IH (add_new seen x)) as (later & Heq & Hlater).
    unfold add_new in *. destruct (mem x seen) eqn:Hm.
    + exists later. split; [exact Heq|].
      intros d Hd. destruct (Hlater d Hd). auto.
    + exists (x :: later). split; [now rewrite Heq, <- app_assoc|].
      intros d [<-|Hd].
      * split; [now left|]. intros Hin. apply mem_In in Hin. congruence.
      * destruct (Hlater d Hd) as [H1 H2]. split; [now right|].
        intros Hin. apply H2. apply in_or_app. now left.
Qed.

Lemma score_of_In docs h :
  List.NoDup (map id docs) -> In h docs -> score_of docs (id h) = rrf_key h.
Proof.
  unfold score_of.
  induction docs as [|a docs IH]; simpl; intros Hnd Hin; [tauto|].
  inversion Hnd as [|? ? Hnotin Hnd']; subst.
  destruct Hin as [->|Hin].
  - now rewrite String.eqb_refl.
  - destruct (String.eqb (id a) (id h)) eqn:Heq.
    + apply String.eqb_eq in Heq. exfalso. apply Hnotin. rewrite Heq.
      now apply in_map.
    + now apply IH.
Qed.

(** *** Numbering the sorted list *)

Lemma enumerate_sorted {A} (key : A -> Q) (f : nat -> A -> A) l :
  (forall j x, key (f j x) = key x) ->
  StronglySorted (desc key) l ->
  forall i, StronglySorted (desc key) (enumerate_from f i l).
Proof.
  intros Hkey. induction 1 as [|x l Hs IH Hall]; intros i; simpl; constructor.
  - apply IH.
  - apply List.Forall_forall. intros y Hy.
    apply enumerate_from_In in Hy. destruct Hy as (j & x' & Hin & ->).
    rewrite List.Forall_forall in Hall. unfold desc in *.
    rewrite !Hkey. now apply Hall.
Qed.

Lemma enumerate_class {A B} (key : A -> Q) (f : nat -> A -> A) (g : A -> B) v l :
  (forall j x, key (f j x) = key x) ->
  (forall j x, g (f j x) = g x) ->
  forall i,
    map g (key_class key v (enumerate_from f i l)) = map g (key_class key v l).
Proof.
  intros Hkey Hg. unfold key_class.
  induction l as [|x l IH]; intros i; simpl; [reflexivity|].
  rewrite Hkey. destruct (Qeq_bool (key x) v); simpl; [rewrite Hg|]; now rewrite IH.
Qed.

Lemma map_filter_ids (docs : list hit) (p : hit -> bool) (q : string -> bool) :
  (forall h, In h docs -> p h = q (id h)) ->
  map id (List.filter p docs) = List.filter q (map id docs).
Proof.
  induction docs as [|h docs IH]; simpl; intros H; [reflexivity|].
  rewrite <- (H h) by now left.
  destruct (p h); simpl; rewrite IH; auto.
Qed.

(** The semantic documents come first in the insertion order, followed by
    the documents that only the lexical list has. *)
Lemma insertion_order_vector_first sem lex :
  exists lexical_only,
    insertion_order sem lex = (first_seen (map id sem) ++ lexical_only)%list
    /\ (forall d, In d lexical_only ->
                  In d (map id lex) /\ ~ In d (map id sem)).
Proof.
  unfold insertion_order, first_seen. rewrite fold_left_app.
  destruct (fold_add_new_prefix (map id lex) (fold_left add_new (map id sem) []))
    as (later & Heq & Hlater).
  exists later. split; [exact Heq|].
  intros d Hd. destruct (Hlater d Hd) as [H1 H2]. split; [exact H1|].
  intros Hin. apply H2.
  clear - Hin. revert Hin. generalize (@nil string).
  induction (map id sem) as [|x ids IH]; simpl; intros seen; [tauto|].
  intros [->|Hin]; [|now apply IH].
  destruct (fold_add_new_prefix ids (add_new seen d)) as (l & -> & _).
  apply in_or_app. left. unfold add_new.
  destruct (mem d seen) eqn:Hm; [now apply mem_In|].
  apply in_or_app. right. now left.
Qed.

(** The fusion returns the documents of [all_docs], sorted and numbered. *)
Lemma reciprocal_rank_fusion_shape (sem lex : list hit) (k : nat) :
  0 < k ->
  exists docs,
    reciprocal_rank_fusion sem lex k
    = Returned (enumerate (fun i result => set_final_rank (i + 1) result)
                          (sorted_desc rrf_key docs))
    /\ map id docs = insertion_order sem lex
    /\ (forall h, In h docs -> (rrf_key h == rrf k sem lex (id h))%Q)
    /\ Forall scored docs.
Proof.
  intros Hk. unfold reciprocal_rank_fusion.
  destruct (rrf_loop_spec Semantic semantic_rank k sem Hk [])
    as (docs1 & -> & Hids1 & Hsc1 & Hs1).
  simpl.
  destruct (rrf_loop_spec Lexical lexical_rank k lex Hk docs1)
    as (docs2 & -> & Hids2 & Hsc2 & Hs2).
  simpl.
  assert (Hids : map id docs2 = insertion_order sem lex).
  { unfold insertion_order, first_seen. now rewrite fold_left_app, Hids2, Hids1. }
  exists docs2. split; [reflexivity|]. split; [exact Hids|]. split.
  - intros h Hin.
    assert (Hnd : List.NoDup (map id docs2)) by (rewrite Hids; apply first_seen_NoDup).
    rewrite <- (score_of_In docs2 h Hnd Hin).
    rewrite Hsc2, Hsc1. unfold rrf, score_of. simpl. ring.
  - apply Hs2, Hs1. constructor.
Qed.

(** Numbered lists: the hit at 0-based position [i] has [final_rank] [i + 1]. *)
Lemma numbered_enumerate (f : nat -> hit -> hit) l :
  (forall j x, final_rank (f j x) = Some (j + 1)) ->
  numbered (enumerate f l).
Proof.
  intros Hf i h Hnth. unfold enumerate in Hnth.
  rewrite enumerate_from_nth in Hnth. simpl in Hnth.
  destruct (nth_error l i); [|discriminate].
  injection Hnth as <-. apply Hf.
Qed.

Lemma numbered_slice_to k l : numbered l -> numbered (slice_to k l).
Proof.
  intros Hl i h Hnth. destruct (slice_to_prefix k l) as (n & Heq).
  rewrite Heq in Hnth. apply firstn_nth_error in Hnth. now apply Hl.
Qed.

Lemma numbered_from_ranks l s :
  (forall i h, nth_error l i = Some h -> final_rank h = Some (s + i)) ->
  map final_rank l = map Some (seq s (List.length l)).
Proof.
  revert s; induction l as [|a l IH]; intros s H; simpl; [reflexivity|].
  rewrite (H 0 a eq_refl), Nat.add_0_r. f_equal.
  apply IH. intros i h Hnth. rewrite (H (S i) h Hnth). f_equal. lia.
Qed.

Lemma numbered_ranks_1_to_N l : numbered l -> ranks_1_to_N l.
Proof.
  intros H. unfold ranks_1_to_N. rewrite (numbered_from_ranks l 1); [reflexivity|].
  intros i h Hnth. rewrite (H i h Hnth). f_equal. lia.
Qed.

Lemma rrf_term_pos k rank : 0 < k -> (0 < 1 / nat_Q (k + rank))%Q.
Proof.
  intros Hk. apply Qlt_shift_div_l; [apply nat_Q_pos; lia|].
  rewrite Qmult_0_l. reflexivity.
Qed.

Lemma sum_terms_nonneg k rank_of results d :
  0 < k -> (0 <= sum_terms k rank_of results d)%Q.
Proof.
  intros Hk. induction results as [|r results IH]; simpl; [apply Qle_refl|].
  pose proof (rrf_term_pos k (get (rank_of r) 999%nat) Hk) as Hpos.
  destruct (String.eqb (id r) d); Lqa.lra.
Qed.

Lemma sum_terms_pos k rank_of results d :
  0 < k -> In d (map id results) -> (0 < sum_terms k rank_of results d)%Q.
Proof.
  intros Hk. induction results as [|r results IH]; simpl; [tauto|].
  pose proof (rrf_term_pos k (get (rank_of r) 999%nat) Hk) as Hpos.
  pose proof (sum_terms_nonneg k rank_of results d Hk) as Hrest.
  intros [Hd|Hin].
  - rewrite Hd, String.eqb_refl. Lqa.lra.
  - specialize (IH Hin). destruct (String.eqb (id r) d); Lqa.lra.
Qed.

Lemma first_seen_In d ids : In d (first_seen ids) -> In d ids.
Proof.
  unfold first_seen. intros H.
  destruct (fold_add_new_prefix ids []) as (later & Heq & Hlater).
  rewrite Heq in H. simpl in H. now apply Hlater.
Qed.

(** Every fused document is an internal candidate of the combine step. *)
Lemma reciprocal_rank_fusion_candidates sem lex k fused :
  0 < k ->
  reciprocal_rank_fusion sem lex k = Returned fused ->
  Forall internal_candidate fused /\ numbered fused.
Proof.
  intros Hk Hret.
  destruct (reciprocal_rank_fusion_shape sem lex k Hk) as (docs & Heq & Hids & Hsc & Hs).
  rewrite Heq in Hret. injection Hret as <-.
  split; [|now apply numbered_enumerate].
  apply List.Forall_forall. intros h Hin. unfold enumerate in Hin.
  apply enumerate_from_In in Hin. destruct Hin as (j & x & Hx & ->).
  apply sorted_desc_In in Hx.
  exists (rrf_key x). split.
  - rewrite List.Forall_forall in Hs. exact (Hs x Hx).
  - rewrite (Hsc x Hx).
    assert (Hin : In (id x) (map id sem ++ map id lex)).
    { apply first_seen_In. fold (insertion_order sem lex). rewrite <- Hids.
      now apply in_map. }
    unfold rrf.
    pose proof (sum_terms_nonneg k semantic_rank sem (id x) Hk).
    pose proof (sum_terms_nonneg k lexical_rank lex (id x) Hk).
    apply in_app_or in Hin. destruct Hin as [Hin|Hin].
    + pose proof (sum_terms_pos k semantic_rank sem (id x) Hk Hin). Lqa.lra.
    + pose proof (sum_terms_pos k lexical_rank lex (id x) Hk Hin). Lqa.lra.
Qed.

End RrfProps.

(** ** Combination of internal and external results *)

Module FuseProps.
Import Py RagBridge Ranking SortFacts RrfProps Doubles.

Lemma sort_key_internal h :
  internal_candidate h ->
  get_sort_key (set_fusion_source FusionInternal h) = rrf_key h.
Proof.
  intros (r & Hr & Hpos). unfold get_sort_key, rrf_key. simpl. rewrite Hr. simpl.
  destruct (Qlt_le_dec 0 r) as [_|Hle]; [reflexivity|].
  exfalso. apply (Qlt_not_le _ _ Hpos Hle).
Qed.

Lemma sort_key_external h :
  external_candidate h ->
  get_sort_key (set_fusion_source FusionExternal h) = boosted h.
Proof.
  unfold external_candidate, get_sort_key, boosted, score_key. simpl.
  intros ->. simpl.
  destruct (Qlt_le_dec 0 0) as [Hlt|_]; [|reflexivity].
  exfalso. exact (Qlt_irrefl 0 Hlt).
Qed.

Lemma class_of_marked (mark : hit -> hit) (key : hit -> Q) v l :
  (forall h, id (mark h) = id h) ->
  (forall h, In h l -> get_sort_key (mark h) = key h) ->
  map id (key_class get_sort_key v (map mark l)) = map id (key_class key v l).
Proof.
  intros Hid. unfold key_class.
  induction l as [|h l IH]; simpl; intros Hkey; [reflexivity|].
  rewrite (Hkey h) by now left.
  destruct (Qeq_bool (key h) v); simpl; [rewrite Hid|]; rewrite IH; auto.
Qed.

Lemma fuse_numbered internal external :
  numbered (fuse_internal_and_external internal external).
Proof. unfold fuse_internal_and_external. now apply numbered_enumerate. Qed.

End FuseProps.

(** ** Scoring of external documents *)

Module ExternalProps.
Import Py RagBridge Ranking SortFacts Doubles.

Lemma inter_size_le a b : inter_size a b <= List.length a.
Proof. unfold inter_size. apply List.filter_length_le. Qed.

(** The overlap is a fraction of the query words. *)
Lemma overlap_range query doc_text : (0 <= overlap query doc_text <= 1)%Q.
Proof.
  unfold overlap.
  destruct (to_set (split (lower query))) as [|w ws] eqn:Hq.
  - split; [apply Qle_refl|discriminate].
  - set (n := List.length (w :: ws)).
    set (m := inter_size (w :: ws) (to_set (split (lower doc_text)))).
    assert (Hn : (0 < nat_Q n)%Q) by (apply nat_Q_pos; unfold n; simpl; lia).
    assert (Hm : (nat_Q m <= nat_Q n)%Q) by (apply nat_Q_le, inter_size_le).
    split.
    + apply Qle_shift_div_l; [exact Hn|]. rewrite Qmult_0_l. apply nat_Q_nonneg.
    + apply Qle_shift_div_r; [exact Hn|]. now rewrite Qmult_1_l.
Qed.

Example external_only_order :
  map id (process_external_docs (C := embedder_down) three_docs "x" None)
  = ["d1"; "d2"; "d3"].
Proof. vm_compute. reflexivity. Qed.

(** C4, as stated, clamps the score to [0, 1].  A document of priority 0
    whose embedding is opposite to the query vector scores
    0.8 * (0.7 * 0.1 + 0.3 * (-1)) = -0.184, which the code records as
    it is. *)
Lemma external_score_not_clamped :
  let h := external_hit (C := opposite_embedder) "x" (Some [1%Q]) 0
                        (doc "d" "abc" 0) in
  (score_key h == - (184 # 1000))%Q
  /\ (score_key h < 0)%Q
  /\ ~ (score_key h == clamp01 (score_key h))%Q.
Proof.
  vm_compute. split; [reflexivity|]. split; [reflexivity|]. discriminate.
Qed.

(** C4 (amended): for every external document at 0-based position i, with
    m = max(0.1, priority - 0.01 * i), the scorer computes
    s1 = 0.7 * m + 0.3 * sim when a query vector is given, the text is not
    empty and the dot product sim with the embedding of the first 1000
    characters is obtained, and s1 = m otherwise; the overlap
    o = |Q & D| / |Q| over the lowercased whitespace-separated word sets,
    0 when Q is empty, always lies in [0, 1]; the recorded score is
    0.8 * s1 + 0.2 * o with no clamping.  It lies in [0, 1] when
    priority <= 1 and every similarity used lies in [-7/30, 1]. *)
Theorem external_score_formula {Vec} `{C : Collaborators Vec}
        (query : string) (query_vector : option Vec) (i : nat)
        (d : external_doc) :
  let txt := get (text d) "" in
  let prio := get (doc_priority d) (9 # 10) in
  let m := Qmax (1 # 10) (prio - nat_Q i * (1 # 100)) in
  let o := overlap query txt in
  let h := external_hit query query_vector i d in
  (exists s1,
      score h = Some (s1 * (8 # 10) + o * (2 # 10))%Q
      /\ (s1 = m
          \/ exists qv sim,
               query_vector = Some qv /\ txt <> ""
               /\ np_dot qv (get_query_embedding (take_str 1000 txt)) = Returned sim
               /\ s1 = (m * (7 # 10) + sim * (3 # 10))%Q)
      /\ (forall qv sim,
            query_vector = Some qv -> txt <> "" ->
            np_dot qv (get_query_embedding (take_str 1000 txt)) = Returned sim ->
            s1 = (m * (7 # 10) + sim * (3 # 10))%Q)
      /\ (query_vector = None -> s1 = m))
  /\ text_overlap h = Some o
  /\ (0 <= o <= 1)%Q
  /\ (split (lower query) = [] -> o = 0%Q)
  /\ ((prio <= 1)%Q ->
      (forall qv sim,
          query_vector = Some qv ->
          np_dot qv (get_query_embedding (take_str 1000 txt)) = Returned sim ->
          (- (7 # 30) <= sim <= 1)%Q) ->
      (0 <= score_key h <= 1)%Q).
Proof.
  intros txt prio m o h.
  assert (Ho : (0 <= o <= 1)%Q) by apply overlap_range.
  assert (Hm : ((1 # 10) <= m)%Q) by apply Q.le_max_l.
  assert (Hm1 : (prio <= 1)%Q -> (m <= 1)%Q).
  { intros Hp. apply Q.max_lub; [discriminate|].
    pose proof (nat_Q_nonneg i). Lqa.lra. }
  assert (Hscore : score h = Some (priority_score query_vector i d * (8 # 10)
                                  + o * (2 # 10))%Q) by reflexivity.
  assert (Hkey : score_key h = (priority_score query_vector i d * (8 # 10)
                                + o * (2 # 10))%Q) by reflexivity.
  split; [|split; [reflexivity|split; [exact Ho|split]]].
  - exists (priority_score query_vector i d). split; [exact Hscore|].
    unfold priority_score. fold txt prio m.
    destruct query_vector as [qv|].
    + destruct txt as [|c rest] eqn:Htxt; simpl nonempty_str; cbv iota.
      * split; [now left|]. split; [|discriminate].
        intros qv' sim _ Hne. now elim Hne.
      * destruct (np_dot qv (get_query_embedding (take_str 1000 (String c rest))))
          as [sim|e] eqn:Hdot.
        -- split; [right; exists qv, sim; repeat split; auto; discriminate|].
           split; [|discriminate].
           intros qv' sim' Hqv _ Hdot'. injection Hqv as <-.
           rewrite Hdot in Hdot'. now injection Hdot' as <-.
        -- split; [now left|]. split; [|discriminate].
           intros qv' sim' Hqv _ Hdot'. injection Hqv as <-.
           rewrite Hdot in Hdot'. discriminate.
    + split; [now left|]. split; [discriminate|reflexivity].
  - intros Hq. unfold o, overlap. now rewrite Hq.
  - intros Hp Hsim. specialize (Hm1 Hp). rewrite Hkey.
    unfold priority_score. fold txt prio m.
    destruct query_vector as [qv|]; [|Lqa.lra].
    destruct (nonempty_str txt); [|Lqa.lra].
    destruct (np_dot qv (get_query_embedding (take_str 1000 txt)))
      as [sim|e] eqn:Hdot; [|Lqa.lra].
    specialize (Hsim qv sim eq_refl Hdot). Lqa.lra.
Qed.

Lemma external_score_formula_witness :
  let h := external_hit (C := opposite_embedder) "x y" (Some [(-1)%Q]) 1
                        (doc "d" "x abc" (1 # 2)) in
  text_overlap h = Some (1 # 2)
  /\ (0 <= score_key h <= 1)%Q.
Proof.
  destruct (external_score_formula (C := opposite_embedder)
              "x y" (Some [(-1)%Q]) 1 (doc "d" "x abc" (1 # 2)))
    as (_ & Ho & _ & _ & Hrange).
  split; [exact Ho|].
  apply Hrange.
  - vm_compute. discriminate.
  - intros qv sim Hqv Hdot. injection Hqv as <-.
    vm_compute in Hdot. injection Hdot as <-.
    split; vm_compute; discriminate.
Defined.

End ExternalProps.

(** ** The federated search entry point *)

Module SearchProps.
Import Py RagBridge Ranking SortFacts RrfProps FuseProps Doubles.

Lemma In_firstn {A} (l : list A) n x : In x (firstn n l) -> In x l.
Proof.
  revert n; induction l as [|a l IH]; intros [|n]; simpl; try tauto.
  intros [->|H]; [now left|right; eauto].
Qed.

Lemma In_slice_to {A} (k : Z) (l : list A) x : In x (slice_to k l) -> In x l.
Proof.
  destruct (slice_to_prefix k l) as (n & ->). apply In_firstn.
Qed.

Section WithCollaborators.
Context {Vec : Type} `{C : Collaborators Vec}.

Lemma process_external_docs_length docs query qv :
  List.length (process_external_docs docs query qv) = List.length docs.
Proof.
  unfold process_external_docs. destruct docs as [|d docs]; [reflexivity|].
  unfold enumerate.
  now rewrite enumerate_from_length, sorted_desc_length, enumerate_from_length.
Qed.

Lemma process_external_docs_no_final_rank docs query qv :
  Forall (fun h => final_rank h = None) (process_external_docs docs query qv).
Proof.
  apply List.Forall_forall. intros h Hin.
  unfold process_external_docs in Hin. destruct docs as [|d docs]; [destruct Hin|].
  unfold enumerate in Hin.
  apply enumerate_from_In in Hin. destruct Hin as (j & x & Hx & ->).
  apply sorted_desc_In in Hx.
  apply enumerate_from_In in Hx. destruct Hx as (j' & d' & _ & ->).
  reflexivity.
Qed.

(** The external-only path of [federated_search]. *)
Lemma federated_search_external_only query tenant_id k_total alpha enable docs :
  docs <> [] ->
  federated_search query tenant_id k_total alpha enable (Some docs) false
  = Returned (slice_to k_total (process_external_docs docs query None)).
Proof.
  intros Hne. destruct docs as [|d docs]; [congruence|]. reflexivity.
Qed.

(** C1 (the code diverges): the final_rank values of the returned hits are
    to be a permutation of 1..N for every combination of sources.  On a
    request served by the external documents alone the code returns the
    scored documents as they are: every hit carries [final_external_rank]
    and none carries [final_rank], so the ranks of a non-empty response
    are not 1..N.  (When the internal sources are used they are; see
    [internal_search_ranks_1_to_N].) *)
Theorem external_only_hits_lack_final_rank
        query tenant_id k_total alpha enable docs :
  docs <> [] ->
  (1 <= k_total)%Z ->
  exists hits,
    federated_search query tenant_id k_total alpha enable (Some docs) false
    = Returned hits
    /\ hits <> []
    /\ Forall (fun h => final_rank h = None) hits
    /\ Forall (fun h => final_external_rank h <> None) hits
    /\ ~ ranks_1_to_N hits.
Proof.
  intros Hne Hk.
  rewrite (federated_search_external_only _ _ _ _ _ _ Hne).
  set (scored := process_external_docs docs query None).
  assert (Hnone : Forall (fun h => final_rank h = None) (slice_to k_total scored)).
  { apply List.Forall_forall. intros h Hin. apply In_slice_to in Hin.
    pose proof (process_external_docs_no_final_rank docs query None) as H.
    rewrite List.Forall_forall in H. now apply H. }
  assert (Hnonempty : slice_to k_total scored <> []).
  { assert (Hlen : List.length scored = List.length docs)
      by apply process_external_docs_length.
    unfold slice_to. destruct (Z.leb_spec 0 k_total); [|lia].
    destruct scored as [|h rest]; [destruct docs; [congruence|discriminate]|].
    destruct (Z.to_nat k_total) eqn:Hn; [lia|]. discriminate. }
  eexists. split; [reflexivity|].
  split; [exact Hnonempty|]. split; [exact Hnone|]. split.
  - apply List.Forall_forall. intros h Hin. apply In_slice_to in Hin.
    unfold scored, process_external_docs in Hin.
    destruct docs as [|d docs']; [congruence|].
    unfold enumerate in Hin.
    apply enumerate_from_In in Hin. destruct Hin as (j & x & _ & ->).
    discriminate.
  - unfold ranks_1_to_N. intros Hperm.
    destruct (slice_to k_total scored) as [|h rest]; [congruence|].
    pose proof (Forall_inv Hnone) as Hh. simpl in Hh.
    assert (Hin : In None (map Some (seq 1 (List.length (h :: rest))))).
    { eapply Permutation_in; [exact Hperm|]. simpl. left. exact Hh. }
    apply in_map_iff in Hin. destruct Hin as (n & Hn & _). discriminate.
Qed.

(** C6 (amended): for every request in which use_internal is false and
    the external document list is absent or empty, the federated search
    logs a warning and returns the empty result list; it returns no
    error. *)
Theorem no_source_returns_empty
        query tenant_id k_total alpha enable external_docs :
  falsy external_docs = true ->
  federated_search query tenant_id k_total alpha enable external_docs false
  = Returned [].
Proof.
  intros Hf. unfold federated_search, federated_search_body.
  rewrite Hf. reflexivity.
Qed.

(** The scored external documents are external candidates of the combine
    step. *)
Lemma process_external_docs_candidates docs query qv :
  Forall external_candidate (process_external_docs docs query qv).
Proof.
  apply List.Forall_forall. intros h Hin.
  unfold process_external_docs in Hin. destruct docs as [|d docs]; [destruct Hin|].
  unfold enumerate in Hin.
  apply enumerate_from_In in Hin. destruct Hin as (j & x & Hx & ->).
  apply sorted_desc_In in Hx.
  apply enumerate_from_In in Hx. destruct Hx as (j' & d' & _ & ->).
  reflexivity.
Qed.

Lemma resolve_query_vector_internal query tenant_id alpha enable o :
  resolve_query_vector query tenant_id alpha enable true = Returned o ->
  exists qv, o = Some qv.
Proof.
  unfold resolve_query_vector. destruct enable.
  - destruct (personalize_query_vector _ _ _ _) as [pv|]; simpl; [|discriminate].
    destruct (np_dot _ pv); simpl; [|discriminate].
    intros H. injection H as <-. eauto.
  - intros H. injection H as <-. eauto.
Qed.

(** With the internal sources in use and external documents given,
    [federated_search] returns the first [k_total] hits of the combine step
    applied to the fused internal list and the scored external documents. *)
Lemma federated_search_combines query tenant_id k_total alpha enable docs qv :
  docs <> [] ->
  resolve_query_vector query tenant_id alpha enable true = Returned (Some qv) ->
  let k_search := Z.min (k_total * 2) 50 in
  let sem := semantic_search qv tenant_id k_search in
  let lex := lexical_search query tenant_id k_search in
  let ext := process_external_docs docs query (Some qv) in
  exists internal_fused,
    (if is_nil sem && is_nil lex then internal_fused = []
     else reciprocal_rank_fusion sem lex rrf_k = Returned internal_fused)
    /\ federated_search query tenant_id k_total alpha enable (Some docs) true
       = Returned (slice_to k_total (fuse_internal_and_external internal_fused ext))
    /\ Forall internal_candidate internal_fused
    /\ Forall external_candidate ext.
Proof.
  intros Hne Hres k_search sem lex ext.
  assert (Hext : is_nil ext = false).
  { pose proof (process_external_docs_length docs query (Some qv)) as Hlen.
    fold ext in Hlen. destruct ext; [destruct docs; [congruence|discriminate]|reflexivity]. }
  assert (Hbody : federated_search_body query tenant_id k_total alpha enable
                    (Some docs) true
                  = fuse_all [("semantic", sem); ("lexical", lex); ("ephemeral", ext)]
                             k_total).
  { unfold federated_search_body. rewrite Hres.
    destruct docs as [|d docs']; [congruence|]. reflexivity. }
  unfold federated_search. rewrite Hbody. unfold fuse_all.
  change (results_get "semantic" [("semantic", sem); ("lexical", lex); ("ephemeral", ext)])
    with sem.
  change (results_get "lexical" [("semantic", sem); ("lexical", lex); ("ephemeral", ext)])
    with lex.
  change (results_get "ephemeral" [("semantic", sem); ("lexical", lex); ("ephemeral", ext)])
    with ext.
  rewrite Hext.
  destruct (is_nil sem && is_nil lex).
  - exists []. simpl. split; [reflexivity|]. split; [reflexivity|].
    split; [constructor|apply process_external_docs_candidates].
  - assert (Hk : 0 < rrf_k) by (unfold rrf_k; lia).
    destruct (reciprocal_rank_fusion_shape sem lex rrf_k Hk) as (docs0 & Hshape & _).
    rewrite Hshape. simpl. eexists. split; [reflexivity|]. split; [reflexivity|].
    split; [|apply process_external_docs_candidates].
    now apply (reciprocal_rank_fusion_candidates sem lex rrf_k).
Qed.

(** With at least two sources in [all_results], the hits are numbered. *)
Lemma fuse_all_numbered sem lex ephemeral k_total hits :
  fuse_all ([("semantic", sem); ("lexical", lex)] ++ ephemeral) k_total
  = Returned hits ->
  numbered hits.
Proof.
  unfold fuse_all. cbn [app].
  set (all_results := ("semantic", sem) :: ("lexical", lex) :: ephemeral).
  set (semantic_results := results_get "semantic" all_results).
  set (lexical_results := results_get "lexical" all_results).
  set (ephemeral_results := results_get "ephemeral" all_results).
  assert (Hinternal : forall fused,
             (if is_nil semantic_results && is_nil lexical_results
              then Returned []
              else reciprocal_rank_fusion semantic_results lexical_results rrf_k)
             = Returned fused -> numbered fused).
  { intros fused. destruct (is_nil semantic_results && is_nil lexical_results).
    - intros H. injection H as <-. intros i h Hnth. destruct i; discriminate.
    - intros H.
      apply (reciprocal_rank_fusion_candidates semantic_results lexical_results rrf_k);
        [unfold rrf_k; lia|exact H]. }
  destruct (if is_nil semantic_results && is_nil lexical_results
            then Returned []
            else reciprocal_rank_fusion semantic_results lexical_results rrf_k)
    as [fused|e] eqn:Hfused; simpl; [|discriminate].
  intros H. injection H as <-.
  apply numbered_slice_to.
  destruct (is_nil ephemeral_results); [now apply Hinternal|apply fuse_numbered].
Qed.

(** Every path of [federated_search] that fuses two or more sources, which
    is the case whenever the internal sources are used, returns hits whose
    final_rank values are 1..N. *)
Lemma internal_search_ranks_1_to_N
      query tenant_id k_total alpha enable external_docs :
  exists hits,
    federated_search query tenant_id k_total alpha enable external_docs true
    = Returned hits
    /\ numbered hits /\ ranks_1_to_N hits.
Proof.
  assert (Hnil : numbered []) by (intros i h Hnth; destruct i; discriminate).
  unfold federated_search, try_except.
  destruct (federated_search_body query tenant_id k_total alpha enable
              external_docs true) as [hits|e] eqn:Hbody.
  - exists hits. split; [reflexivity|].
    assert (Hn : numbered hits); [|split; [exact Hn|now apply numbered_ranks_1_to_N]].
    unfold federated_search_body in Hbody. simpl negb in Hbody. simpl andb in Hbody.
    cbv iota in Hbody.
    destruct (resolve_query_vector query tenant_id alpha enable true)
      as [o|e] eqn:Hres; simpl in Hbody; [|discriminate].
    destruct (resolve_query_vector_internal _ _ _ _ _ Hres) as (qv & ->).
    now apply fuse_all_numbered in Hbody.
  - exists []. split; [reflexivity|].
    split; [exact Hnil|now apply numbered_ranks_1_to_N].
Qed.

End WithCollaborators.

Lemma external_only_hits_lack_final_rank_witness :
  three_docs <> [] /\ (1 <= 3)%Z
  /\ exists hits,
       federated_search (C := embedder_down) "x" "T1" 3 None true
                        (Some three_docs) false = Returned hits
       /\ hits <> []
       /\ Forall (fun h => final_rank h = None) hits
       /\ Forall (fun h => final_external_rank h <> None) hits
       /\ ~ ranks_1_to_N hits.
Proof.
  split; [discriminate|]. split; [lia|].
  apply (external_only_hits_lack_final_rank (C := embedder_down)
           "x" "T1" 3 None true three_docs); [discriminate|lia].
Defined.

(** C6, as stated, has the engine return the InvalidArgument error.  The
    code returns the empty list. *)
Lemma no_source_is_not_an_error :
  federated_search (C := embedder_down) "x" "T1" 5 None true (Some []) false
  = Returned []
  /\ federated_search (C := embedder_down) "x" "T1" 5 None true None false
     = Returned []
  /\ forall e,
       federated_search (C := embedder_down) "x" "T1" 5 None true (Some []) false
       <> Raised e.
Proof. repeat split; try reflexivity. discriminate. Qed.

Lemma no_source_returns_empty_witness :
  falsy (@None (list external_doc)) = true
  /\ federated_search (C := embedder_down) "x" "T1" 5 None true None false
     = Returned [].
Proof.
  split; [reflexivity|].
  apply (no_source_returns_empty (C := embedder_down)). reflexivity.
Defined.

End SearchProps.

(** ** Normalisation of vectors *)

Module NpFacts.
Import Py Np.
Local Open Scope R_scope.

Lemma sum_sq_nonneg v : 0 <= sum_sq v.
Proof.
  unfold sum_sq. induction v as [|x v IH]; simpl; [lra|].
  pose proof (Rle_0_sqr x) as H. unfold Rsqr in H. lra.
Qed.

Lemma sum_sq_div v a : a <> 0 -> sum_sq (div v a) = sum_sq v / (a * a).
Proof.
  intros Ha. unfold div, sum_sq. induction v as [|x v IH]; simpl.
  - field. exact Ha.
  - rewrite IH. field. exact Ha.
Qed.

Lemma norm_sqr v : norm v * norm v = sum_sq v.
Proof. unfold norm. apply sqrt_sqrt, sum_sq_nonneg. Qed.

(** Dividing a vector by its positive norm gives a unit vector. *)
Lemma norm_div_norm v : 0 < norm v -> norm (div v (norm v)) = 1.
Proof.
  intros Hpos. unfold norm at 1.
  rewrite sum_sq_div by lra. rewrite norm_sqr.
  assert (Hs : sum_sq v <> 0).
  { rewrite <- norm_sqr. apply Rmult_integral_contrapositive_currified; lra. }
  replace (sum_sq v / sum_sq v) with 1 by (field; exact Hs).
  apply sqrt_1.
Qed.

Lemma div_1 v : div v 1 = v.
Proof.
  unfold div. induction v as [|x v IH]; simpl; [reflexivity|].
  rewrite IH. f_equal. field.
Qed.

Lemma scale_length a v : List.length (scale a v) = List.length v.
Proof. unfold scale. apply length_map. Qed.


End NpFacts.

(** ** Personalization of the query vector *)

Module PersonalizerProps.
Import Py Np NpFacts Personalizer Doubles.
Local Open Scope R_scope.

(** What [apply_personalization] returns, by cases on the lookup. *)
Lemma apply_personalization_cases get_centroid q tenant_id query tag alpha :
  apply_personalization get_centroid q tenant_id query tag alpha
  = Returned
      match get_centroid tenant_id (resolve_tag query tag) with
      | None => q
      | Some c =>
          if (List.length q =? List.length c)%nat
          then if Rlt_dec 0 (norm (adjusted q alpha c))
               then div (adjusted q alpha c) (norm (adjusted q alpha c))
               else adjusted q alpha c
          else q
      end.
Proof.
  unfold apply_personalization, apply_personalization_body.
  destruct (get_centroid tenant_id (resolve_tag query tag)) as [c|]; [|reflexivity].
  unfold add, dot. rewrite scale_length.
  destruct (List.length q =? List.length c)%nat; [reflexivity|].
  destruct (List.length c =? 1)%nat; [reflexivity|].
  destruct (List.length q =? 1)%nat; reflexivity.
Qed.





End PersonalizerProps.

(** ** Centroid computation and storage *)

Module CentroidProps.
Import Py Np NpFacts CentroidCalculator Doubles.
Local Open Scope R_scope.

Lemma keys_differ tenant_id tag : metadata_key tenant_id tag <> centroid_key tenant_id tag.
Proof. unfold metadata_key, centroid_key. simpl. discriminate. Qed.

(** What [store_centroid] leaves under the centroid key. *)
Lemma store_centroid_reachable r tenant_id tag centroid :
  reachable r = true ->
  fst (store_centroid r tenant_id tag centroid) = true
  /\ data (snd (store_centroid r tenant_id tag centroid)) !! centroid_key tenant_id tag
     = Some (CentroidBytes ttl_7_days centroid).
Proof.
  intros Hup. unfold store_centroid, setex. rewrite Hup. simpl.
  split; [reflexivity|].
  rewrite lookup_insert_ne by apply keys_differ.
  apply lookup_insert_eq.
Qed.

Lemma store_centroid_unreachable r tenant_id tag centroid :
  reachable r = false ->
  store_centroid r tenant_id tag centroid = (false, r).
Proof. intros Hdown. unfold store_centroid, setex. now rewrite Hdown. Qed.

Lemma calculate_centroid_mean vectors mu :
  vectors <> [] -> mean vectors = Returned mu ->
  calculate_centroid vectors
  = Some (if Rlt_dec 0 (norm mu) then div mu (norm mu) else mu).
Proof.
  intros Hne Hmean. unfold calculate_centroid.
  destruct vectors; [congruence|]. now rewrite Hmean.
Qed.

(** *** One pair *)

Lemma process_tag_stores
      (get_vectors_for_tag : string -> string -> list vec)
      (tenant_id tag : string) (r : redis) :
  let vectors := get_vectors_for_tag tenant_id tag in
  let outcome := process_tag get_vectors_for_tag tenant_id r tag in
  (forall mu,
      reachable r = true -> mean vectors = Returned mu ->
      fst outcome = true
      /\ data (snd outcome) !! centroid_key tenant_id tag
         = Some (CentroidBytes ttl_7_days
                   (if Rlt_dec 0 (norm mu) then div mu (norm mu) else mu)))
  /\ (vectors = [] \/ (exists e, mean vectors = Raised e) \/ reachable r = false ->
      outcome = (false, r)).
Proof.
  intros vectors outcome. unfold outcome, process_tag. fold vectors. split.
  - intros mu Hup Hmean.
    assert (Hne : vectors <> []) by (intros E; rewrite E in Hmean; discriminate).
    rewrite (calculate_centroid_mean vectors mu Hne Hmean).
    destruct vectors; [congruence|].
    now apply store_centroid_reachable.
  - intros [->|[(e & Hmean)|Hdown]]; [reflexivity| |].
    + unfold calculate_centroid. destruct vectors; [reflexivity|]. now rewrite Hmean.
    + destruct vectors; [reflexivity|].
      destruct (calculate_centroid _); [|reflexivity].
      now apply store_centroid_unreachable.
Qed.

(** *** The run over the tags of a tenant *)

Lemma append_cancel_l (s a b : string) : (s ++ a)%string = (s ++ b)%string -> a = b.
Proof.
  induction s as [|c s IH]; simpl; intros H; [exact H|].
  injection H as H. now apply IH.
Qed.

Lemma centroid_key_inj tenant_id tag tag' :
  centroid_key tenant_id tag = centroid_key tenant_id tag' -> tag = tag'.
Proof.
  unfold centroid_key. intros H.
  apply append_cancel_l in H. apply append_cancel_l in H.
  now apply append_cancel_l in H.
Qed.

Lemma metadata_key_other tenant_id tag tag' :
  centroid_key tenant_id tag <> metadata_key tenant_id tag'.
Proof. unfold metadata_key, centroid_key. simpl. discriminate. Qed.

(** A pair writes under its own two keys only, and leaves the server as
    reachable as it was. *)
Lemma store_centroid_frame r tenant_id tag centroid key :
  key <> centroid_key tenant_id tag -> key <> metadata_key tenant_id tag ->
  data (snd (store_centroid r tenant_id tag centroid)) !! key = data r !! key
  /\ reachable (snd (store_centroid r tenant_id tag centroid)) = reachable r.
Proof.
  intros Hc Hm. unfold store_centroid, setex.
  destruct (reachable r) eqn:Hup; simpl; [|auto].
  split; [|reflexivity].
  rewrite lookup_insert_ne by congruence.
  now rewrite lookup_insert_ne by congruence.
Qed.

Section Run.
Variable get_vectors_for_tag : string -> string -> list vec.
Variable tenant_id : string.

Lemma process_tag_frame r tag key :
  key <> centroid_key tenant_id tag -> key <> metadata_key tenant_id tag ->
  data (snd (process_tag get_vectors_for_tag tenant_id r tag)) !! key = data r !! key
  /\ reachable (snd (process_tag get_vectors_for_tag tenant_id r tag)) = reachable r.
Proof.
  intros Hc Hm. unfold process_tag.
  destruct (get_vectors_for_tag tenant_id tag); [auto|].
  destruct (calculate_centroid _); [|auto].
  now apply store_centroid_frame.
Qed.

Lemma process_tag_reachable r tag :
  reachable (snd (process_tag get_vectors_for_tag tenant_id r tag)) = reachable r.
Proof.
  unfold process_tag.
  destruct (get_vectors_for_tag tenant_id tag); [reflexivity|].
  destruct (calculate_centroid _); [|reflexivity].
  unfold store_centroid, setex. destruct (reachable r) eqn:Hup; simpl; auto.
Qed.

(** What a pair leaves under its centroid key depends on the store only
    through its reachability and the previous content of that key. *)
Lemma process_tag_indep r r' tag :
  reachable r' = reachable r ->
  data r' !! centroid_key tenant_id tag = data r !! centroid_key tenant_id tag ->
  fst (process_tag get_vectors_for_tag tenant_id r' tag)
  = fst (process_tag get_vectors_for_tag tenant_id r tag)
  /\ data (snd (process_tag get_vectors_for_tag tenant_id r' tag))
       !! centroid_key tenant_id tag
     = data (snd (process_tag get_vectors_for_tag tenant_id r tag))
         !! centroid_key tenant_id tag.
Proof.
  intros Hup Hdata. unfold process_tag.
  destruct (get_vectors_for_tag tenant_id tag); [auto|].
  destruct (calculate_centroid _) as [c|]; [|auto].
  unfold store_centroid, setex. rewrite Hup.
  destruct (reachable r); simpl; [|auto].
  split; [reflexivity|].
  rewrite !(lookup_insert_ne _ (metadata_key tenant_id tag)) by apply keys_differ.
  now rewrite !lookup_insert_eq.
Qed.

Lemma process_tags_frame tags : forall r tag,
  ~ In tag tags ->
  data (snd (process_tags get_vectors_for_tag tenant_id r tags))
    !! centroid_key tenant_id tag
  = data r !! centroid_key tenant_id tag.
Proof.
  induction tags as [|tag0 tags IH]; intros r tag Hnotin; simpl; [reflexivity|].
  destruct (process_tag get_vectors_for_tag tenant_id r tag0) as [ok r1] eqn:H0.
  destruct (process_tags get_vectors_for_tag tenant_id r1 tags) as [results r2] eqn:Hrest.
  simpl.
  assert (Hr2 : r2 = snd (process_tags get_vectors_for_tag tenant_id r1 tags))
    by now rewrite Hrest.
  assert (Hr1 : r1 = snd (process_tag get_vectors_for_tag tenant_id r tag0))
    by now rewrite H0.
  rewrite Hr2, IH by (intros H; apply Hnotin; now right).
  rewrite Hr1.
  apply process_tag_frame.
  - intros H. apply centroid_key_inj in H. apply Hnotin. now left.
  - apply metadata_key_other.
Qed.

(** In a run over distinct tags, every pair ends as if it had been
    processed alone on the initial store. *)
Lemma process_tags_tag tags :
  List.NoDup tags ->
  forall r tag, In tag tags ->
    In (tag, fst (process_tag get_vectors_for_tag tenant_id r tag))
       (fst (process_tags get_vectors_for_tag tenant_id r tags))
    /\ data (snd (process_tags get_vectors_for_tag tenant_id r tags))
         !! centroid_key tenant_id tag
       = data (snd (process_tag get_vectors_for_tag tenant_id r tag))
           !! centroid_key tenant_id tag.
Proof.
  induction 1 as [|tag0 tags Hnotin Hnd IH]; intros r tag Hin; [destruct Hin|].
  simpl.
  destruct (process_tag get_vectors_for_tag tenant_id r tag0) as [ok r1] eqn:H0.
  destruct (process_tags get_vectors_for_tag tenant_id r1 tags) as [results r2] eqn:Hrest.
  simpl.
  assert (Hr2 : r2 = snd (process_tags get_vectors_for_tag tenant_id r1 tags))
    by now rewrite Hrest.
  assert (Hres : results = fst (process_tags get_vectors_for_tag tenant_id r1 tags))
    by now rewrite Hrest.
  assert (Hr1 : r1 = snd (process_tag get_vectors_for_tag tenant_id r tag0))
    by now rewrite H0.
  destruct Hin as [->|Hin].
  - rewrite H0. simpl. split; [now left|].
    rewrite Hr2. now apply process_tags_frame.
  - assert (Hne : tag <> tag0) by (intros ->; contradiction).
    destruct (IH r1 tag Hin) as [Hok Hdata].
    assert (Hup : reachable r1 = reachable r).
    { rewrite Hr1. apply process_tag_reachable. }
    assert (Hkey : data r1 !! centroid_key tenant_id tag
                   = data r !! centroid_key tenant_id tag).
    { rewrite Hr1. apply process_tag_frame.
      - intros H. now apply centroid_key_inj in H.
      - apply metadata_key_other. }
    destruct (process_tag_indep r r1 tag Hup Hkey) as [Hfst Hsnd].
    split.
    + right. rewrite Hres, <- Hfst. exact Hok.
    + rewrite Hr2, Hdata. exact Hsnd.
Qed.

End Run.

Lemma get_tenant_tags_NoDup tenant_id : List.NoDup (get_tenant_tags tenant_id).
Proof.
  unfold get_tenant_tags.
  repeat (constructor; [simpl; intros H;
                        repeat (destruct H as [H|H]; [discriminate|]); exact H|]).
  constructor.
Qed.

Lemma norm_cancelling : norm [(1 + -1) / INR 2] = 0.
Proof.
  unfold norm, sum_sq. simpl.
  replace ((1 + -1) / (1 + 1) * ((1 + -1) / (1 + 1)) + 0) with 0 by field.
  apply sqrt_0.
Qed.

(** C8, as stated, has a pair whose mean is below epsilon abort with no
    write.  The mean of [1] and [-1] is the zero vector; the code skips
    the division, reports the pair as updated and stores the zero vector
    under the centroid key. *)
Lemma zero_mean_is_stored :
  let run := calculate_and_store_centroids cancelling_vectors empty_redis "T1" in
  exists c,
    In ("direito_civil", true) (fst run)
    /\ data (snd run) !! centroid_key "T1" "direito_civil"
       = Some (CentroidBytes ttl_7_days c)
    /\ norm c = 0
    /\ norm c <> 1.
Proof.
  intros run. set (mu := [(1 + -1) / INR 2]).
  assert (Hmean : mean (cancelling_vectors "T1" "direito_civil") = Returned mu)
    by reflexivity.
  destruct (process_tag_stores cancelling_vectors "T1" "direito_civil" empty_redis)
    as [Hstore _].
  destruct (Hstore mu eq_refl Hmean) as [Hok Hdata].
  destruct (process_tags_tag cancelling_vectors "T1" (get_tenant_tags "T1")
              (get_tenant_tags_NoDup "T1") empty_redis "direito_civil")
    as [Hin Hrun]; [simpl; tauto|].
  exists mu. unfold run, calculate_and_store_centroids.
  rewrite Hok in Hin. split; [exact Hin|].
  rewrite Hrun, Hdata.
  destruct (Rlt_dec 0 (norm mu)) as [Hlt|_].
  - unfold mu in Hlt. rewrite norm_cancelling in Hlt. lra.
  - split; [reflexivity|]. unfold mu. rewrite norm_cancelling. split; [reflexivity|lra].
Qed.

(** C8 (amended): for every centroid-build run over a tenant and every tag
    of the run, when the embeddings of the pair have a mean of non-zero
    norm, the vector persisted under the centroid key at the end of the run
    is the L2-normalised mean and is unit-norm (float32 conversion aside).
    There is no epsilon and no Degenerate abort: when the mean is the zero
    vector the pair is reported as updated and the zero vector is persisted.
    When the pair has no embeddings, when the mean cannot be computed, or
    when Redis is unreachable, the pair is reported as failed and the run
    leaves the centroid key as it was. *)
Theorem stored_centroid_is_normalised_mean
        (get_vectors_for_tag : string -> string -> list vec)
        (tenant_id tag : string) (r : redis) :
  In tag (get_tenant_tags tenant_id) ->
  let vectors := get_vectors_for_tag tenant_id tag in
  let run := calculate_and_store_centroids get_vectors_for_tag r tenant_id in
  (forall mu,
      reachable r = true -> mean vectors = Returned mu -> 0 < norm mu ->
      In (tag, true) (fst run)
      /\ data (snd run) !! centroid_key tenant_id tag
         = Some (CentroidBytes ttl_7_days (div mu (norm mu)))
      /\ norm (div mu (norm mu)) = 1)
  /\ (forall mu,
        reachable r = true -> mean vectors = Returned mu -> norm mu = 0 ->
        In (tag, true) (fst run)
        /\ data (snd run) !! centroid_key tenant_id tag
           = Some (CentroidBytes ttl_7_days mu))
  /\ (vectors = [] \/ (exists e, mean vectors = Raised e) \/ reachable r = false ->
      In (tag, false) (fst run)
      /\ data (snd run) !! centroid_key tenant_id tag
         = data r !! centroid_key tenant_id tag).
Proof.
  intros Htag vectors run.
  destruct (process_tags_tag get_vectors_for_tag tenant_id (get_tenant_tags tenant_id)
              (get_tenant_tags_NoDup tenant_id) r tag Htag) as [Hin Hrun].
  fold (calculate_and_store_centroids get_vectors_for_tag r tenant_id) in Hin, Hrun.
  fold run in Hin, Hrun.
  destruct (process_tag_stores get_vectors_for_tag tenant_id tag r) as [Hstore Hskip].
  fold vectors in Hstore, Hskip.
  split; [|split].
  - intros mu Hup Hmean Hpos.
    destruct (Hstore mu Hup Hmean) as [Hok Hdata].
    destruct (Rlt_dec 0 (norm mu)) as [_|Hn]; [|contradiction].
    rewrite Hok in Hin. rewrite Hrun, Hdata.
    split; [exact Hin|]. split; [reflexivity|]. now apply norm_div_norm.
  - intros mu Hup Hmean Hzero.
    destruct (Hstore mu Hup Hmean) as [Hok Hdata].
    destruct (Rlt_dec 0 (norm mu)) as [Hlt|_]; [rewrite Hzero in Hlt; lra|].
    rewrite Hok in Hin. rewrite Hrun, Hdata. split; [exact Hin|reflexivity].
  - intros Hcase. specialize (Hskip Hcase).
    rewrite Hskip in Hin, Hrun. simpl in Hin, Hrun. split; assumption.
Qed.

Lemma stored_centroid_is_normalised_mean_witness :
  let run := calculate_and_store_centroids one_vector empty_redis "T1" in
  In "direito_civil" (get_tenant_tags "T1")
  /\ In ("direito_civil", true) (fst run)
  /\ data (snd run) !! centroid_key "T1" "direito_civil"
     = Some (CentroidBytes ttl_7_days (div [2 / INR 1] (norm [2 / INR 1])))
  /\ norm (div [2 / INR 1] (norm [2 / INR 1])) = 1.
Proof.
  intros run.
  assert (Htag : In "direito_civil" (get_tenant_tags "T1")) by (simpl; tauto).
  split; [exact Htag|].
  destruct (stored_centroid_is_normalised_mean one_vector "T1" "direito_civil"
              empty_redis Htag) as (Hpos & _).
  apply (Hpos [2 / INR 1]).
  - reflexivity.
  - reflexivity.
  - unfold norm, sum_sq. simpl.
    replace (2 / 1 * (2 / 1) + 0) with (2 * 2) by field.
    rewrite sqrt_square; lra.
Defined.

End CentroidProps.

Module TagInferencerProps.
Import Py TagInferencer.

Example infer_tag_aluguel :
  infer_query_tag "Contrato de aluguel de casa" = "contratos_imobiliarios".
Proof. vm_compute. reflexivity. Qed.

Example infer_tag_imposto :
  infer_query_tag (latin1 "Imposto de renda pessoa física") = "litigios_tributarios".
Proof. vm_compute. reflexivity. Qed.

Example infer_tag_generic :
  infer_query_tag (latin1 "Consulta genérica") = "direito_civil".
Proof. vm_compute. reflexivity. Qed.

Example infer_tag_upper :
  infer_query_tag (latin1 "RESCISÃO e FÉRIAS") = "direito_trabalhista".
Proof. vm_compute. reflexivity. Qed.

(** *** [max(d, key=d.get)] returns the first key of maximal value *)

Lemma max_by_value_first (rest : list (string * nat)) :
  forall best,
  exists l1 l2,
    (best :: rest = l1 ++ max_by_value best rest :: l2)%list
    /\ Forall (fun p => snd p < snd (max_by_value best rest)) l1
    /\ Forall (fun p => snd p <= snd (max_by_value best rest)) l2.
Proof.
  induction rest as [|p rest IH]; intros best; simpl.
  - exists [], []. repeat split; constructor.
  - destruct (snd best <? snd p) eqn:Hlt.
    + apply Nat.ltb_lt in Hlt.
      destruct (IH p) as (l1 & l2 & Heq & H1 & H2).
      exists (best :: l1), l2. split; [simpl; now rewrite Heq|].
      split; [|exact H2].
      constructor; [|exact H1].
      assert (Hp : snd p <= snd (max_by_value p rest)).
      { destruct l1 as [|x l1]; simpl in Heq.
        - injection Heq as Hx _. rewrite <- Hx. lia.
        - injection Heq as Hx _. subst x.
          apply Forall_inv in H1. lia. }
      lia.
    + apply Nat.ltb_ge in Hlt.
      destruct (IH best) as (l1 & l2 & Heq & H1 & H2).
      destruct l1 as [|x l1]; simpl in Heq.
      * injection Heq as Hx Hrest.
        exists [], (p :: l2). split; [simpl; now rewrite <- Hx, <- Hrest|].
        split; [constructor|].
        constructor; [rewrite <- Hx; lia|exact H2].
      * injection Heq as Hx Hrest. subst x.
        exists (best :: p :: l1), l2.
        split; [simpl; do 2 f_equal; exact Hrest|].
        split; [|exact H2].
        pose proof (Forall_inv H1) as Hb. cbv beta in Hb.
        constructor; [exact Hb|].
        constructor; [lia|exact (Forall_inv_tail H1)].
Qed.

(** A split of a filtered list comes from a split of the list. *)
Lemma filter_split {A} (f : A -> bool) (l : list A) :
  forall l1 x l2,
    List.filter f l = (l1 ++ x :: l2)%list ->
    exists k1 k2,
      l = (k1 ++ x :: k2)%list
      /\ List.filter f k1 = l1 /\ List.filter f k2 = l2 /\ f x = true.
Proof.
  induction l as [|a l IH]; intros l1 x l2 H; simpl in H.
  - destruct l1; discriminate.
  - destruct (f a) eqn:Hfa.
    + destruct l1 as [|y l1]; simpl in H.
      * injection H as Ha Hl. subst a.
        exists [], l. simpl. auto.
      * injection H as Ha Hl. subst y.
        destruct (IH _ _ _ Hl) as (k1 & k2 & Hk & Hf1 & Hf2 & Hx).
        exists (a :: k1), k2. simpl. rewrite Hfa, Hf1, Hk. auto.
    + destruct (IH _ _ _ H) as (k1 & k2 & Hk & Hf1 & Hf2 & Hx).
      exists (a :: k1), k2. simpl. rewrite Hfa, Hk. auto.
Qed.

Lemma filter_nil_all {A} (f : A -> bool) (l : list A) :
  List.filter f l = [] -> Forall (fun x => f x = false) l.
Proof.
  induction l as [|a l IH]; simpl; intros H; [constructor|].
  destruct (f a) eqn:Hfa; [discriminate|].
  constructor; auto.
Qed.

(** The tag returned for a table, a fallback and a query, in terms of the
    number of keywords of each tag found in the lowercased query. *)
Lemma infer_with_first_max table fallback query :
  let count := fun row : string * list string =>
                 keyword_score (lower query) (snd row) in
  (Forall (fun row => count row = 0) table ->
   infer_with table fallback query = fallback)
  /\ (Exists (fun row => 0 < count row) table ->
      exists before row after,
        table = (before ++ row :: after)%list
        /\ infer_with table fallback query = fst row
        /\ 0 < count row
        /\ Forall (fun r => count r < count row) before
        /\ Forall (fun r => count r <= count row) after).
Proof.
  intros count. unfold infer_with, tag_scores_of.
  set (scored := map (fun p => (fst p, keyword_score (lower query) (snd p))) table).
  split.
  - intros Hzero.
    assert (Hnil : List.filter (fun p : string * nat => 0 <? snd p) scored = []).
    { subst scored. induction table as [|row table IH]; [reflexivity|].
      simpl. pose proof (Forall_inv Hzero) as H0. unfold count in H0.
      rewrite H0. simpl. apply IH. exact (Forall_inv_tail Hzero). }
    now rewrite Hnil.
  - intros Hex.
    destruct (List.filter (fun p : string * nat => 0 <? snd p) scored)
      as [|p rest] eqn:Hf.
    + exfalso. apply filter_nil_all in Hf.
      apply List.Exists_exists in Hex. destruct Hex as (row & Hin & Hpos).
      rewrite List.Forall_forall in Hf.
      specialize (Hf (fst row, keyword_score (lower query) (snd row))).
      assert (Hin' : In (fst row, keyword_score (lower query) (snd row)) scored).
      { subst scored. apply in_map_iff. exists row. auto. }
      apply Hf in Hin'. simpl in Hin'. apply Nat.ltb_ge in Hin'.
      unfold count in Hpos. lia.
    + destruct (max_by_value_first rest p) as (l1 & l2 & Heq & H1 & H2).
      set (best := max_by_value p rest) in *.
      rewrite Heq in Hf.
      destruct (filter_split _ _ _ _ _ Hf) as (k1 & k2 & Hk & Hf1 & Hf2 & Hb).
      apply Nat.ltb_lt in Hb.
      subst scored.
      apply map_eq_app in Hk. destruct Hk as (before & tl & Htab & Hbefore & Htl).
      apply map_eq_cons in Htl. destruct Htl as (row & after & Htl & Hrow & Hafter).
      exists before, row, after.
      assert (Hcount : count row = snd best) by (unfold count; now rewrite <- Hrow).
      split; [now rewrite Htab, Htl|].
      split; [now rewrite <- Hrow|].
      split; [lia|].
      assert (Hlift : forall (rows : list (string * list string)) kept bound,
                 List.filter (fun p : string * nat => 0 <? snd p)
                   (map (fun p => (fst p, keyword_score (lower query) (snd p))) rows)
                 = kept ->
                 0 < bound ->
                 Forall (fun p : string * nat => snd p < bound \/ snd p <= bound) kept ->
                 forall r, In r rows ->
                   (Forall (fun p : string * nat => snd p < bound) kept -> count r < bound)
                   /\ count r <= bound).
      { intros rows kept bound Hkept Hpos Hall r Hr.
        assert (Hin : In (fst r, count r)
                   (map (fun p => (fst p, keyword_score (lower query) (snd p))) rows)).
        { apply in_map_iff. exists r. auto. }
        destruct (Nat.eq_dec (count r) 0) as [Hz|Hnz]; [split; intros; lia|].
        assert (Hin2 : In (fst r, count r) kept).
        { rewrite <- Hkept. apply filter_In. split; [exact Hin|].
          simpl. apply Nat.ltb_lt. lia. }
        rewrite List.Forall_forall in Hall. specialize (Hall _ Hin2). simpl in Hall.
        split; [|lia].
        intros Hs. rewrite List.Forall_forall in Hs. exact (Hs _ Hin2). }
      rewrite <- Hbefore in Hf1. rewrite <- Hafter in Hf2.
      split.
      * apply List.Forall_forall. intros r Hr. rewrite Hcount.
        assert (Hall : Forall (fun p : string * nat =>
                                 snd p < snd best \/ snd p <= snd best) l1).
        { eapply List.Forall_impl; [|exact H1]. intros; simpl in *; lia. }
        destruct (Hlift before l1 (snd best) Hf1 Hb Hall r Hr) as [Hs _].
        exact (Hs H1).
      * apply List.Forall_forall. intros r Hr. rewrite Hcount.
        assert (Hall : Forall (fun p : string * nat =>
                                 snd p < snd best \/ snd p <= snd best) l2).
        { eapply List.Forall_impl; [|exact H2]. intros; simpl in *; lia. }
        destruct (Hlift after l2 (snd best) Hf2 Hb Hall r Hr) as [_ Hw].
        exact Hw.
Qed.

(** C9, as stated, measures a tag by the occurrences of its keywords among
    the tokens of the query.  The code tests each keyword for being a
    substring of the whole lowercased query: on "casamento" the keyword
    "casa" is found by the code, and by no tokenization. *)
Lemma infer_query_tag_not_token_based :
  infer_query_tag "casamento" = "contratos_imobiliarios"
  /\ spec_infer_tag "casamento" = "direito_civil"
  /\ infer_query_tag "casamento" <> spec_infer_tag "casamento".
Proof. vm_compute. repeat split; try reflexivity. discriminate. Qed.

(** C9 (amended): for every query, tag inference lowercases the query and
    gives each tag the number of its keywords that occur as substrings of
    the lowercased query.  When some count is positive it returns the tag
    with the highest count, the first such tag in the declared order of
    the table; when all counts are zero it returns the fallback tag
    "direito_civil".  Being a function of the query alone, it returns the
    same tag on every run. *)
Theorem infer_query_tag_first_max (query : string) :
  let count := fun row : string * list string =>
                 keyword_score (lower query) (snd row) in
  (Forall (fun row => count row = 0) tag_keywords ->
   infer_query_tag query = "direito_civil")
  /\ (Exists (fun row => 0 < count row) tag_keywords ->
      exists before row after,
        tag_keywords = (before ++ row :: after)%list
        /\ infer_query_tag query = fst row
        /\ 0 < count row
        /\ Forall (fun r => count r < count row) before
        /\ Forall (fun r => count r <= count row) after)
  /\ (forall query', query' = query ->
        infer_query_tag query' = infer_query_tag query).
Proof.
  intros count.
  destruct (infer_with_first_max tag_keywords fallback_tag query) as [H0 H1].
  split; [exact H0|]. split; [exact H1|].
  intros query' ->. reflexivity.
Qed.

Lemma infer_query_tag_first_max_witness :
  infer_query_tag (latin1 "Consulta genérica") = "direito_civil"
  /\ exists before row after,
       tag_keywords = (before ++ row :: after)%list
       /\ infer_query_tag "Contrato de aluguel de casa" = fst row
       /\ 0 < keyword_score (lower "Contrato de aluguel de casa") (snd row)
       /\ Forall (fun r => keyword_score (lower "Contrato de aluguel de casa") (snd r)
                           < keyword_score (lower "Contrato de aluguel de casa") (snd row))
                 before
       /\ Forall (fun r => keyword_score (lower "Contrato de aluguel de casa") (snd r)
                           <= keyword_score (lower "Contrato de aluguel de casa") (snd row))
                 after.
Proof.
  split.
  - apply (infer_query_tag_first_max (latin1 "Consulta genérica")).
    unfold tag_keywords. repeat constructor.
  - apply (infer_query_tag_first_max "Contrato de aluguel de casa").
    unfold tag_keywords. apply Exists_cons_hd. vm_compute. lia.
Defined.

End TagInferencerProps.

(** ** The internal sources *)

Module SourceProps.
Import Py RagBridge Ranking SortFacts RrfProps.

Lemma str_of_nat_inj n m : str_of_nat n = str_of_nat m -> n = m.
Proof.
  unfold str_of_nat. intros H.
  assert (Hu : Nat.to_uint n = Nat.to_uint m).
  { apply (f_equal NilEmpty.uint_of_string) in H.
    rewrite !NilEmpty.usu in H. now injection H. }
  apply (f_equal Nat.of_uint) in Hu.
  now rewrite !DecimalNat.Unsigned.of_to in Hu.
Qed.

Lemma string_app_inj_l (s a b : string) : (s ++ a)%string = (s ++ b)%string -> a = b.
Proof.
  induction s as [|c s IH]; simpl; intros H; [exact H|].
  injection H as H. now apply IH.
Qed.

Lemma NoDup_map_inj {A B} (f : A -> B) (l : list A) :
  (forall x y, f x = f y -> x = y) -> List.NoDup l -> List.NoDup (map f l).
Proof.
  intros Hinj. induction 1 as [|x l Hnotin Hnd IH]; simpl; constructor; [|exact IH].
  intros Hin. apply in_map_iff in Hin. destruct Hin as (y & Hy & Hin).
  apply Hinj in Hy. subst y. contradiction.
Qed.

Lemma lexical_id_inj tenant_id i j :
  id (lexical_hit tenant_id i) = id (lexical_hit tenant_id j) -> i = j.
Proof.
  simpl. intros H.
  do 3 apply string_app_inj_l in H.
  now apply str_of_nat_inj.
Qed.

Lemma lexical_score_le tenant_id i j :
  i <= j ->
  (score_key (lexical_hit tenant_id j) <= score_key (lexical_hit tenant_id i))%Q.
Proof.
  intros Hij. unfold score_key. simpl.
  pose proof (nat_Q_le i j Hij) as Hq.
  apply Q.max_le_compat_l. Lqa.lra.
Qed.

Lemma lexical_seq_sorted tenant_id n : forall s,
  StronglySorted (desc score_key) (map (lexical_hit tenant_id) (seq s n)).
Proof.
  induction n as [|n IH]; intros s; simpl; constructor; [apply IH|].
  apply List.Forall_forall. intros h Hin.
  apply in_map_iff in Hin. destruct Hin as (j & <- & Hj).
  apply in_seq in Hj. unfold desc. apply lexical_score_le. lia.
Qed.

(** X1: the simulated lexical source returns [min(max(k, 0), 15)] hits
    whatever the query; the hit at position i is document
    [doc_<tenant>_<i>] with lexical_rank i + 1; ids are distinct, and scores
    decrease from 1.0 and stay within [0.1, 1]. *)
Theorem lexical_search_shape (query tenant_id : string) (k : Z) :
  let hits := lexical_search query tenant_id k in
  List.length hits = Z.to_nat (Z.min k 15)
  /\ (forall i h, nth_error hits i = Some h ->
        lexical_rank h = Some (i + 1)
        /\ id h = ("doc_" ++ tenant_id ++ "_" ++ str_of_nat i)%string)
  /\ List.NoDup (map id hits)
  /\ StronglySorted (desc score_key) hits
  /\ Forall (fun h => ((1 # 10) <= score_key h <= 1)%Q) hits
  /\ (forall query', lexical_search query' tenant_id k = hits).
Proof.
  intros hits. unfold hits, lexical_search.
  set (n := Z.to_nat (Z.min k 15)).
  split; [now rewrite length_map, length_seq|].
  split.
  { intros i h Hnth. rewrite List.nth_error_map, List.nth_error_seq in Hnth.
    destruct (i <? n); [|discriminate].
    injection Hnth as <-. split; reflexivity. }
  split.
  { rewrite map_map. apply NoDup_map_inj; [|apply seq_NoDup].
    intros i j H. now apply (lexical_id_inj tenant_id). }
  split; [apply lexical_seq_sorted|].
  split; [|reflexivity].
  apply List.Forall_forall. intros h Hin.
  apply in_map_iff in Hin. destruct Hin as (j & <- & _).
  unfold score_key. simpl. split; [apply Q.le_max_l|].
  apply Q.max_lub; [discriminate|].
  pose proof (nat_Q_nonneg j). Lqa.lra.
Qed.

Section Scorer.
Context {Vec : Type} `{C : Collaborators Vec}.

Lemma process_external_docs_unfold docs query qv :
  process_external_docs docs query qv
  = enumerate (fun i hit => set_final_external_rank (i + 1) hit)
              (sorted_desc score_key (enumerate (external_hit query qv) docs)).
Proof. destruct docs; reflexivity. Qed.

End Scorer.

End SourceProps.

(** ** Sorting lists that are already in order *)

Module SortedInputs.
Import Py RagBridge Ranking SortFacts.

Section Sorted.
Context {A : Type} (key : A -> Q).

Lemma insert_desc_head x l :
  Forall (fun y => (key y <= key x)%Q) l -> insert_desc key x l = x :: l.
Proof.
  destruct l as [|y l]; simpl; [reflexivity|].
  intros H. apply Forall_inv in H.
  apply Qle_bool_iff in H. now rewrite H.
Qed.

(** Sorting a list that is in decreasing key order returns it unchanged. *)
Lemma sorted_desc_id l : StronglySorted (desc key) l -> sorted_desc key l = l.
Proof.
  induction 1 as [|x l Hs IH Hall]; simpl; [reflexivity|].
  rewrite IH. now apply insert_desc_head.
Qed.

Lemma insert_desc_skip x high l :
  Forall (fun y => (key x < key y)%Q) high ->
  insert_desc key x (high ++ l) = (high ++ insert_desc key x l)%list.
Proof.
  induction high as [|y high IH]; simpl; intros H; [reflexivity|].
  assert (Hy : Qle_bool (key y) (key x) = false).
  { destruct (Qle_bool (key y) (key x)) eqn:E; [|reflexivity].
    apply Qle_bool_iff in E. apply Forall_inv in H. exfalso.
    exact (Qlt_not_le _ _ H E). }
  rewrite Hy. f_equal. apply IH. exact (Forall_inv_tail H).
Qed.

(** Two sorted runs, the second of strictly higher keys than the first:
    sorting their concatenation puts the second run in front. *)
Lemma sorted_desc_separated low high :
  StronglySorted (desc key) low ->
  StronglySorted (desc key) high ->
  (forall x y, In x low -> In y high -> (key x < key y)%Q) ->
  sorted_desc key (low ++ high) = (high ++ low)%list.
Proof.
  intros Hlow Hhigh Hsep.
  induction Hlow as [|x low Hs IH Hall]; simpl.
  - rewrite app_nil_r. now apply sorted_desc_id.
  - change (fold_right (insert_desc key) [] (low ++ high))
      with (sorted_desc key (low ++ high)).
    rewrite IH by (intros a b Ha Hb; apply Hsep; [now right|exact Hb]).
    rewrite insert_desc_skip.
    + f_equal. now apply insert_desc_head.
    + apply List.Forall_forall. intros y Hy. apply Hsep; [now left|exact Hy].
Qed.

End Sorted.

(** Sortedness seen through a map that preserves the keys. *)
Lemma sorted_map {A B} (keyA : A -> Q) (keyB : B -> Q) (f : A -> B) l :
  (forall x, In x l -> keyB (f x) = keyA x) ->
  StronglySorted (desc keyA) l -> StronglySorted (desc keyB) (map f l).
Proof.
  intros Hkey Hs. induction Hs as [|x l Hs IH Hall]; simpl; constructor.
  - apply IH. intros y Hy. apply Hkey. now right.
  - apply List.Forall_forall. intros y Hy.
    apply in_map_iff in Hy. destruct Hy as (z & <- & Hz).
    rewrite List.Forall_forall in Hall. unfold desc in *.
    rewrite (Hkey x) by now left. rewrite (Hkey z) by now right.
    now apply Hall.
Qed.

End SortedInputs.

(** ** The priority blend: external documents against fused ones *)

Module BlendProps.
Import Py RagBridge Ranking SortFacts RrfProps FuseProps SourceProps SortedInputs Doubles.

Lemma sum_terms_absent k rank_of results d :
  ~ In d (map id results) -> (sum_terms k rank_of results d == 0)%Q.
Proof.
  intros Hnotin.
  induction results as [|r results IH]; simpl; [reflexivity|].
  simpl in Hnotin.
  destruct (String.eqb (id r) d) eqn:E.
  - apply String.eqb_eq in E. exfalso. apply Hnotin. now left.
  - rewrite IH by tauto. reflexivity.
Qed.

Lemma rrf_term_le k rank : 1 <= rank -> (1 / nat_Q (k + rank) <= 1 / nat_Q (k + 1))%Q.
Proof.
  intros Hr.
  assert (H1 : (0 < nat_Q (k + 1))%Q) by (apply nat_Q_pos; lia).
  assert (H2 : (0 < nat_Q (k + rank))%Q) by (apply nat_Q_pos; lia).
  assert (Hle : (nat_Q (k + 1) <= nat_Q (k + rank))%Q) by (apply nat_Q_le; lia).
  apply Qle_shift_div_r; [exact H2|].
  assert (E : (1 / nat_Q (k + 1) * nat_Q (k + rank)
               == nat_Q (k + rank) / nat_Q (k + 1))%Q).
  { field. intros E. rewrite E in H1. discriminate. }
  rewrite E.
  apply Qle_shift_div_l; [exact H1|]. now rewrite Qmult_1_l.
Qed.

(** A source that lists each document once, at a rank of 1 or more,
    contributes at most [1 / (k + 1)] to a document. *)
Lemma sum_terms_le k rank_of results d :
  List.NoDup (map id results) ->
  Forall (fun h => 1 <= get (rank_of h) 999) results ->
  (sum_terms k rank_of results d <= 1 / nat_Q (k + 1))%Q.
Proof.
  intros Hnd Hranks.
  assert (Hpos : (0 <= 1 / nat_Q (k + 1))%Q).
  { apply Qle_shift_div_l; [apply nat_Q_pos; lia|]. rewrite Qmult_0_l. discriminate. }
  induction results as [|r results IH]; simpl; [exact Hpos|].
  inversion Hnd as [|? ? Hnotin Hnd']; subst.
  pose proof (Forall_inv Hranks) as Hr. cbv beta in Hr.
  specialize (IH Hnd' (Forall_inv_tail Hranks)).
  destruct (String.eqb (id r) d) eqn:E.
  - apply String.eqb_eq in E. subst d.
    rewrite (sum_terms_absent k rank_of results (id r) Hnotin), Qplus_0_r.
    now apply rrf_term_le.
  - rewrite Qplus_0_l. exact IH.
Qed.

Lemma overlap_range_nonneg query doc_text : (0 <= overlap query doc_text)%Q.
Proof. apply ExternalProps.overlap_range. Qed.

Section Blend.
Context {Vec : Type} `{C : Collaborators Vec}.

(** With non-negative similarities every external hit scores 0.056 or
    more, whatever its priority. *)
Lemma external_hit_score_floor query qv i d :
  (forall v txt s, qv = Some v ->
                   np_dot v (get_query_embedding txt) = Returned s -> (0 <= s)%Q) ->
  ((56 # 1000) <= score_key (external_hit query qv i d))%Q.
Proof.
  intros Hsim. unfold score_key, external_hit. simpl.
  pose proof (overlap_range_nonneg query (get (text d) "")) as Ho.
  set (m := Qmax (1 # 10) (get (doc_priority d) (9 # 10) - nat_Q i * (1 # 100))).
  assert (Hm : ((1 # 10) <= m)%Q) by apply Q.le_max_l.
  assert (Hp : ((7 # 100) <= priority_score qv i d)%Q).
  { unfold priority_score. fold m.
    destruct qv as [v|]; [|Lqa.lra].
    destruct (nonempty_str _); [|Lqa.lra].
    destruct (np_dot v _) as [s|e] eqn:Hdot; [|Lqa.lra].
    specialize (Hsim v _ s eq_refl Hdot). Lqa.lra. }
  Lqa.lra.
Qed.

Lemma process_external_docs_floor docs query qv :
  (forall v txt s, qv = Some v ->
                   np_dot v (get_query_embedding txt) = Returned s -> (0 <= s)%Q) ->
  Forall (fun h => ((56 # 1000) <= score_key h)%Q) (process_external_docs docs query qv).
Proof.
  intros Hsim. rewrite process_external_docs_unfold.
  apply List.Forall_forall. intros h Hin. unfold enumerate in Hin.
  apply enumerate_from_In in Hin. destruct Hin as (j & x & Hx & ->).
  apply sorted_desc_In in Hx.
  apply enumerate_from_In in Hx. destruct Hx as (j' & d & _ & ->).
  now apply external_hit_score_floor.
Qed.

Lemma process_external_docs_sorted docs query qv :
  StronglySorted (desc score_key) (process_external_docs docs query qv).
Proof.
  rewrite process_external_docs_unfold. unfold enumerate.
  apply enumerate_sorted; [reflexivity|apply sorted_desc_sorted].
Qed.

End Blend.

(** What the fusion hands on: internal candidates in decreasing rrf order,
    each scored by the sum of its terms. *)
Lemma fused_facts sem lex k fused :
  0 < k ->
  reciprocal_rank_fusion sem lex k = Returned fused ->
  Forall internal_candidate fused
  /\ StronglySorted (desc rrf_key) fused
  /\ (forall h, In h fused -> (rrf_key h == rrf k sem lex (id h))%Q).
Proof.
  intros Hk Hret.
  split; [now apply (reciprocal_rank_fusion_candidates sem lex k)|].
  destruct (reciprocal_rank_fusion_shape sem lex k Hk) as (docs & Heq & _ & Hsc & _).
  rewrite Heq in Hret. injection Hret as <-. unfold enumerate. split.
  - apply enumerate_sorted; [reflexivity|apply sorted_desc_sorted].
  - intros h Hin. apply enumerate_from_In in Hin. destruct Hin as (j & x & Hx & ->).
    apply sorted_desc_In in Hx.
    change (rrf_key x == rrf k sem lex (id x))%Q. now apply Hsc.
Qed.

Lemma StronglySorted_impl {A} (R1 R2 : A -> A -> Prop) l :
  (forall a b, R1 a b -> R2 a b) -> StronglySorted R1 l -> StronglySorted R2 l.
Proof.
  intros Himp. induction 1 as [|x l Hs IH Hall]; constructor; [exact IH|].
  eapply List.Forall_impl; [|exact Hall]. intros b. apply Himp.
Qed.

(** The order in which the combine step leaves two sorted runs of
    candidates when every external one outscores every internal one. *)
Lemma fuse_separated internal external :
  Forall internal_candidate internal ->
  Forall external_candidate external ->
  StronglySorted (desc rrf_key) internal ->
  StronglySorted (desc score_key) external ->
  (forall i e, In i internal -> In e external -> (rrf_key i < boosted e)%Q) ->
  map (fun h => (id h, fusion_source h)) (fuse_internal_and_external internal external)
  = (map (fun h => (id h, Some FusionExternal)) external
     ++ map (fun h => (id h, Some FusionInternal)) internal)%list.
Proof.
  intros Hint Hext Hsi Hse Hsep. unfold fuse_internal_and_external, enumerate.
  rewrite (enumerate_from_map _ (fun h => (id h, fusion_source h))
                              (fun h => (id h, fusion_source h))) by reflexivity.
  rewrite List.Forall_forall in Hint, Hext.
  rewrite sorted_desc_separated.
  - rewrite map_app, !map_map. reflexivity.
  - apply (sorted_map rrf_key get_sort_key); [|exact Hsi].
    intros x Hx. apply sort_key_internal. now apply Hint.
  - apply (sorted_map boosted get_sort_key).
    + intros x Hx. apply sort_key_external. now apply Hext.
    + apply (StronglySorted_impl (desc score_key)); [|exact Hse].
      unfold desc, boosted. intros a b Hab. Lqa.lra.
  - intros x y Hx Hy.
    apply in_map_iff in Hx. destruct Hx as (i & <- & Hi).
    apply in_map_iff in Hy. destruct Hy as (e & <- & He).
    rewrite sort_key_internal by now apply Hint.
    rewrite sort_key_external by now apply Hext.
    now apply Hsep.
Qed.


Section BlendTheorem.
Context {Vec : Type} `{C : Collaborators Vec}.

(** X3: when every similarity the scorer obtains is non-negative, and each
    internal source lists a document at most once at a rank of 1 or more,
    the combine step puts every external document before every internal
    one: the external documents in their scored order, then the fused
    internal documents in rrf order.  (An external hit then scores at least
    0.056, boosted to 0.0672; a fused hit scores at most 2/61.) *)
Theorem external_documents_rank_first
        (sem lex : list hit) (docs : list external_doc)
        (query : string) (qv : option Vec) :
  List.NoDup (map id sem) ->
  List.NoDup (map id lex) ->
  Forall (fun h => 1 <= get (semantic_rank h) 999) sem ->
  Forall (fun h => 1 <= get (lexical_rank h) 999) lex ->
  (forall v txt s, qv = Some v ->
                   np_dot v (get_query_embedding txt) = Returned s -> (0 <= s)%Q) ->
  let ext := process_external_docs docs query qv in
  exists fused,
    reciprocal_rank_fusion sem lex rrf_k = Returned fused
    /\ map (fun h => (id h, fusion_source h)) (fuse_internal_and_external fused ext)
       = (map (fun h => (id h, Some FusionExternal)) ext
          ++ map (fun h => (id h, Some FusionInternal)) fused)%list.
Proof.
  intros Hnds Hndl Hrs Hrl Hsim ext.
  assert (Hk : 0 < rrf_k) by (unfold rrf_k; lia).
  destruct (reciprocal_rank_fusion sem lex rrf_k) as [fused|e] eqn:Hret.
  2:{ destruct (reciprocal_rank_fusion_shape sem lex rrf_k Hk) as (d & Hd & _).
      rewrite Hd in Hret. discriminate. }
  exists fused. split; [reflexivity|].
  destruct (fused_facts sem lex rrf_k fused Hk Hret) as (Hcand & Hsorted & Hscore).
  apply fuse_separated.
  - exact Hcand.
  - apply SearchProps.process_external_docs_candidates.
  - exact Hsorted.
  - apply process_external_docs_sorted.
  - intros i e Hi He.
    pose proof (process_external_docs_floor docs query qv Hsim) as Hfloor.
    rewrite List.Forall_forall in Hfloor. specialize (Hfloor e He).
    rewrite (Hscore i Hi). unfold rrf, boosted.
    pose proof (sum_terms_le rrf_k semantic_rank sem (id i) Hnds Hrs) as H1.
    pose proof (sum_terms_le rrf_k lexical_rank lex (id i) Hndl Hrl) as H2.
    assert (H61 : (1 / nat_Q (rrf_k + 1) == 1 # 61)%Q) by reflexivity.
    rewrite H61 in H1, H2. Lqa.lra.
Qed.

End BlendTheorem.

Lemma external_documents_rank_first_witness :
  exists fused,
    reciprocal_rank_fusion tie_semantic tie_lexical rrf_k = Returned fused
    /\ map (fun h => (id h, fusion_source h))
           (fuse_internal_and_external fused
              (process_external_docs (C := embedder_down) three_docs "x" (Some [1%Q])))
       = (map (fun h => (id h, Some FusionExternal))
              (process_external_docs (C := embedder_down) three_docs "x" (Some [1%Q]))
          ++ map (fun h => (id h, Some FusionInternal)) fused)%list.
Proof.
  apply (external_documents_rank_first (C := embedder_down)
           tie_semantic tie_lexical three_docs "x" (Some [1%Q])).
  - repeat constructor; simpl; intuition discriminate.
  - repeat constructor; simpl; intuition discriminate.
  - repeat constructor.
  - repeat constructor.
  - intros v txt s Hv Hdot. injection Hv as <-.
    vm_compute in Hdot. injection Hdot as <-. discriminate.
Defined.

End BlendProps.

(** ** Size of the response and the alpha argument *)

Module SearchSizeProps.
Import Py RagBridge Ranking SortFacts RrfProps FuseProps SearchProps SourceProps Doubles.





Section Size.
Context {Vec : Type} `{C : Collaborators Vec}.



End Size.


End SearchSizeProps.

(** ** The fused list when only one internal source answers *)

Module SingleSourceProps.
Import Py RagBridge Ranking Records SortFacts RrfProps FuseProps SearchProps SourceProps
       SortedInputs BlendProps SearchSizeProps Doubles.

Lemma mem_app_new d seen : mem d (seen ++ [d]) = true.
Proof. apply mem_In, in_or_app. right. now left. Qed.






Lemma enumerate_from_ids (f : nat -> hit -> hit) l :
  (forall j x, id (f j x) = id x) ->
  forall i, map id (enumerate_from f i l) = map id l.
Proof.
  intros Hf. induction l as [|x l IH]; intros i; simpl; [reflexivity|].
  now rewrite Hf, IH.
Qed.



Lemma slice_to_map {A B} (f : A -> B) k l : map f (slice_to k l) = slice_to k (map f l).
Proof.
  unfold slice_to. rewrite length_map.
  destruct (0 <=? k)%Z; now rewrite firstn_map.
Qed.

Section Fallback.
Context {Vec : Type} `{C : Collaborators Vec}.




End Fallback.



End SingleSourceProps.

(** ** Personalization with a stored centroid *)

Module PersonalizerNormProps.
Import Py Np NpFacts Personalizer Doubles.
Local Open Scope R_scope.

Lemma sum_sq_adjusted q : forall c a s,
  dot q c = Returned s ->
  sum_sq (adjusted q a c) = sum_sq q + 2 * a * s + a * a * sum_sq c.
Proof.
  unfold dot, adjusted, scale, sum_sq.
  induction q as [|x q IH]; intros [|y c] a s; simpl; try discriminate.
  - intros H. injection H as <-. ring.
  - destruct (List.length q =? List.length c)%nat eqn:Hlen; [|discriminate].
    intros H. injection H as <-.
    assert (Hrec : (if (List.length q =? List.length c)%nat
                    then Returned (fold_right Rplus 0 (zip_with Rmult q c))
                    else Raised ValueError)
                   = Returned (fold_right Rplus 0 (zip_with Rmult q c)))
      by now rewrite Hlen.
    rewrite (IH c a _ Hrec). ring.
Qed.

Lemma adjusted_length q : forall c a,
  List.length q = List.length c -> List.length (adjusted q a c) = List.length q.
Proof.
  unfold adjusted, scale.
  induction q as [|x q IH]; intros [|y c] a; simpl; try discriminate; [reflexivity|].
  intros H. injection H as H. now rewrite IH.
Qed.

Lemma div_length v a : List.length (div v a) = List.length v.
Proof. unfold div. apply length_map. Qed.

(** The adjusted vector is not zero when the centroid is no longer than
    the unit query and alpha lies strictly between -1 and 1. *)
Lemma adjusted_norm_pos q c alpha :
  List.length q = List.length c ->
  norm q = 1 -> norm c <= 1 -> -1 < alpha < 1 ->
  0 < norm (adjusted q alpha c).
Proof.
  intros Hlen Hq Hc Ha.
  assert (Hdot : exists s, dot q c = Returned s).
  { unfold dot. rewrite Hlen, Nat.eqb_refl. eauto. }
  destruct Hdot as (s & Hs).
  assert (Hsq : sum_sq q = 1) by (rewrite <- norm_sqr, Hq; ring).
  assert (Hc0 : 0 <= norm c) by apply sqrt_pos.
  assert (HC : 0 <= sum_sq c <= 1).
  { split; [apply sum_sq_nonneg|]. rewrite <- norm_sqr. nra. }
  pose proof (sum_sq_nonneg (adjusted q 1 c)) as Hp.
  pose proof (sum_sq_nonneg (adjusted q (-1) c)) as Hm.
  rewrite (sum_sq_adjusted q c 1 s Hs), Hsq in Hp.
  rewrite (sum_sq_adjusted q c (-1) s Hs), Hsq in Hm.
  unfold norm. apply sqrt_lt_R0.
  rewrite (sum_sq_adjusted q c alpha s Hs), Hsq.
  set (C := sum_sq c) in *.
  destruct (Rle_dec 0 alpha) as [Hpos|Hneg].
  - assert (H1 : 0 < (1 - alpha) * (1 - alpha * C)) by (apply Rmult_lt_0_compat; nra).
    nra.
  - assert (H1 : 0 < (1 + alpha) * (1 + alpha * C)) by (apply Rmult_lt_0_compat; nra).
    nra.
Qed.

(** X8: for a unit-norm query, a stored centroid of norm at most 1 (the
    build stores unit-norm centroids, or the zero vector) and an alpha
    strictly between -1 and 1, which includes the default 0.25,
    personalization returns a unit-norm vector of the dimension of the
    query: the adjusted vector cannot vanish, so the division by its norm
    is always carried out. *)
Theorem apply_personalization_unit_below_one
        (get_centroid : string -> string -> option vec)
        (q : vec) (tenant_id : string) (query tag : option string) (alpha : R) :
  norm q = 1 ->
  (forall c, get_centroid tenant_id (resolve_tag query tag) = Some c -> norm c <= 1) ->
  -1 < alpha < 1 ->
  exists v,
    apply_personalization get_centroid q tenant_id query tag alpha = Returned v
    /\ norm v = 1
    /\ List.length v = List.length q.
Proof.
  intros Hq Hc Ha. rewrite PersonalizerProps.apply_personalization_cases.
  eexists. split; [reflexivity|].
  destruct (get_centroid tenant_id (resolve_tag query tag)) as [c|]; [|auto].
  specialize (Hc c eq_refl).
  destruct (Nat.eqb_spec (List.length q) (List.length c)) as [Hlen|Hlen]; [|auto].
  pose proof (adjusted_norm_pos q c alpha Hlen Hq Hc Ha) as Hpos.
  destruct (Rlt_dec 0 (norm (adjusted q alpha c))) as [_|Hn]; [|contradiction].
  split; [now apply norm_div_norm|].
  rewrite div_length. now apply adjusted_length.
Qed.

Lemma apply_personalization_unit_below_one_witness :
  norm [1] = 1
  /\ -1 < / 4 < 1
  /\ exists v,
       apply_personalization antipodal_store [1] "T1" None (Some "t") (/ 4) = Returned v
       /\ norm v = 1
       /\ List.length v = List.length [1].
Proof.
  assert (H1 : norm [1] = 1).
  { unfold norm, sum_sq. simpl. replace (1 * 1 + 0) with 1 by ring. apply sqrt_1. }
  assert (Ha : -1 < / 4 < 1) by lra.
  split; [exact H1|]. split; [exact Ha|].
  apply (apply_personalization_unit_below_one antipodal_store [1] "T1" None (Some "t")
           (/ 4) H1); [|exact Ha].
  intros c Hc. injection Hc as <-.
  unfold norm, sum_sq. simpl. replace (-1 * -1 + 0) with 1 by ring.
  rewrite sqrt_1. lra.
Defined.

End PersonalizerNormProps.

(** ** What the fusion records about each document *)

Module RecordProps.
Import Py RagBridge Ranking Records SortFacts RrfProps Doubles.

Lemma update_Forall (P : hit -> Prop) d f docs :
  (forall h, P h -> id h = d -> P (f h)) ->
  Forall P docs -> Forall P (update d f docs).
Proof.
  intros Hf. induction 1 as [|h docs Hh Hrest IH]; simpl; [constructor|].
  destruct (String.eqb (id h) d) eqn:E.
  - apply String.eqb_eq in E. constructor; [now apply Hf|exact Hrest].
  - constructor; assumption.
Qed.

Lemma update_app_new d f docs x :
  has_key d docs = false -> id x = d ->
  update d f (docs ++ [x]) = (docs ++ [f x])%list.
Proof.
  intros Hkey Hx. induction docs as [|h docs IH]; simpl.
  - rewrite Hx, String.eqb_refl. reflexivity.
  - simpl in Hkey. apply orb_false_iff in Hkey. destruct Hkey as (Hh & Hrest).
    rewrite Hh. f_equal. now apply IH.
Qed.

Lemma contributions_sum_add src rank term h :
  contributions_sum (add_rrf src rank term h) = (contributions_sum h + term)%Q.
Proof.
  unfold contributions_sum. simpl. now rewrite map_app, fold_left_app.
Qed.

Section Recorded.
Variables (sem lex : list hit) (k : nat).
Hypothesis Hk : 0 < k.

Lemma add_rrf_recorded src r h :
  In r (listed src sem lex) -> id h = id r -> partial sem lex k h ->
  recorded sem lex k
    (add_rrf src (get (rank_field src r) 999)
             (1 / nat_Q (k + get (rank_field src r) 999%nat))%Q h).
Proof.
  intros Hin Hid (Hscore & Hentries). unfold recorded.
  rewrite contributions_sum_add. split; [|split].
  - simpl. rewrite Hscore. reflexivity.
  - simpl. destruct (rank_sources h); discriminate.
  - simpl. apply Forall_app. split; [exact Hentries|].
    constructor; [|constructor].
    split; [reflexivity|]. exists r. simpl. auto.
Qed.

Lemma recorded_partial h : recorded sem lex k h -> partial sem lex k h.
Proof. intros (H1 & _ & H3). now split. Qed.

Lemma rrf_step_recorded src docs r :
  In r (listed src sem lex) ->
  Forall (recorded sem lex k) docs ->
  exists docs',
    rrf_step src (rank_field src) k docs r = Returned docs'
    /\ Forall (recorded sem lex k) docs'.
Proof.
  intros Hin Hdocs. unfold rrf_step, rrf_term.
  destruct (Nat.eqb_spec (k + get (rank_field src r) 999) 0) as [E|_]; [lia|].
  simpl. eexists. split; [reflexivity|].
  destruct (has_key (id r) docs) eqn:Hkey.
  - apply update_Forall; [|exact Hdocs].
    intros h Hh Hid. apply add_rrf_recorded; [exact Hin|exact Hid|].
    now apply recorded_partial.
  - rewrite update_app_new; [|exact Hkey|reflexivity].
    apply Forall_app. split; [exact Hdocs|].
    constructor; [|constructor].
    apply add_rrf_recorded; [exact Hin|reflexivity|].
    split; [reflexivity|constructor].
Qed.

Lemma rrf_loop_recorded src results : forall docs,
  incl results (listed src sem lex) ->
  Forall (recorded sem lex k) docs ->
  exists docs',
    rrf_loop src (rank_field src) k docs results = Returned docs'
    /\ Forall (recorded sem lex k) docs'.
Proof.
  induction results as [|r results IH]; intros docs Hincl Hdocs; simpl; [eauto|].
  destruct (rrf_step_recorded src docs r) as (docs1 & H1 & Hrec1);
    [apply Hincl; now left|exact Hdocs|].
  rewrite H1. simpl. apply IH; [|exact Hrec1].
  intros x Hx. apply Hincl. now right.
Qed.

(** X9: what the fusion records.  Every fused document carries at least
    one [rank_sources] entry; each entry names a listing of the document
    (its source, and the rank it has there, 999 when the listing has none)
    with the contribution [1 / (k + rank)]; and [rrf_score] is the sum of
    the recorded contributions. *)
Theorem rrf_score_is_sum_of_recorded_terms :
  exists fused,
    reciprocal_rank_fusion sem lex k = Returned fused
    /\ Forall (recorded sem lex k) fused.
Proof.
  unfold reciprocal_rank_fusion.
  destruct (rrf_loop_recorded Semantic sem [] (incl_refl _) (List.Forall_nil _))
    as (docs1 & H1 & Hrec1).
  change (rank_field Semantic) with semantic_rank in H1. rewrite H1. simpl.
  destruct (rrf_loop_recorded Lexical lex docs1 (incl_refl _) Hrec1)
    as (docs2 & H2 & Hrec2).
  change (rank_field Lexical) with lexical_rank in H2. rewrite H2. simpl.
  eexists. split; [reflexivity|].
  apply List.Forall_forall. intros h Hin. unfold enumerate in Hin.
  apply enumerate_from_In in Hin. destruct Hin as (j & x & Hx & ->).
  apply sorted_desc_In in Hx.
  rewrite List.Forall_forall in Hrec2. exact (Hrec2 x Hx).
Qed.

End Recorded.

Lemma rrf_score_is_sum_of_recorded_terms_witness :
  0 < 60
  /\ exists fused,
       reciprocal_rank_fusion tie_semantic tie_lexical 60 = Returned fused
       /\ Forall (recorded tie_semantic tie_lexical 60) fused.
Proof.
  assert (Hk : 0 < 60) by lia.
  split; [exact Hk|].
  apply (rrf_score_is_sum_of_recorded_terms tie_semantic tie_lexical 60 Hk).
Defined.

End RecordProps.

(** ** The centroid lookup and its cache *)

Module CentroidLookupProps.
Import Py Np NpFacts CentroidCalculator CentroidLookup CentroidProps Doubles.

Section Cache.
Variable frombuffer_text : nat -> R -> outcome vec.

Lemma get_centroid_fresh c r now now_stored tenant_id tag e :
  c !! cache_key tenant_id tag = Some e ->
  (now - timestamp e < cache_ttl)%Q ->
  get_centroid frombuffer_text c r now now_stored tenant_id tag
  = (Some (cached_centroid e), c).
Proof.
  intros He Hfresh. unfold get_centroid, fresh_entry. rewrite He.
  destruct (Qlt_le_dec (now - timestamp e) cache_ttl) as [_|Hle]; [reflexivity|].
  exfalso. exact (Qlt_not_le _ _ Hfresh Hle).
Qed.

(** X10: the local cache of centroids.  A lookup that finds no centroid
    (no entry, an empty value, Redis unreachable, undecodable bytes)
    returns [None] and leaves the cache as it was; a lookup never touches
    the entry of another tenant and tag; after a lookup that returns a
    centroid the cache holds it under the key of the pair; and an entry
    younger than 300 seconds is returned as it is, whatever Redis holds by
    then and whether or not it can be reached. *)
Theorem get_centroid_cache
        (c : gmap string cache_entry) (r : redis) (now now_stored : Q)
        (tenant_id tag : string) :
  let result := get_centroid frombuffer_text c r now now_stored tenant_id tag in
  let key := cache_key tenant_id tag in
  (fst result = None -> snd result = c)
  /\ (forall k, k <> key -> snd result !! k = c !! k)
  /\ (forall v, fst result = Some v ->
        exists e, snd result !! key = Some e /\ cached_centroid e = v
                  /\ (fresh_entry c now key = None -> timestamp e = now_stored))
  /\ (forall e r2 later later_stored,
        snd result !! key = Some e ->
        (later - timestamp e < 300)%Q ->
        get_centroid frombuffer_text (snd result) r2 later later_stored tenant_id tag
        = (Some (cached_centroid e), snd result)).
Proof.
  intros result key.
  assert (Hlater : forall e r2 later later_stored,
             snd result !! key = Some e ->
             (later - timestamp e < 300)%Q ->
             get_centroid frombuffer_text (snd result) r2 later later_stored tenant_id tag
             = (Some (cached_centroid e), snd result)).
  { intros e r2 later later_stored He Hfresh. now apply get_centroid_fresh. }
  assert (Hwrite : forall v,
             (forall k, k <> key ->
                (<[key := mk_cache_entry v now_stored]> c) !! k = c !! k)
             /\ exists e, (<[key := mk_cache_entry v now_stored]> c) !! key = Some e
                          /\ cached_centroid e = v /\ timestamp e = now_stored).
  { intros v. split.
    - intros k Hk. now apply lookup_insert_ne.
    - eexists. split; [apply lookup_insert_eq|]. split; reflexivity. }
  revert Hlater. unfold result, get_centroid. fold key.
  destruct (fresh_entry c now key) as [v|] eqn:Hfresh.
  - simpl. intros Hlater. split; [discriminate|]. split; [reflexivity|].
    split; [|exact Hlater].
    intros v' Hv. injection Hv as <-.
    unfold fresh_entry in Hfresh. destruct (c !! key) as [e|]; [|discriminate].
    destruct (Qlt_le_dec _ _); [|discriminate]. injection Hfresh as <-.
    exists e. split; [reflexivity|]. split; [reflexivity|discriminate].
  - destruct (redis_get r (centroid_key tenant_id tag)) as [[[ttl [|x v]|ttl dim nrm]|]|e];
      simpl; intros Hlater.
    + split; [reflexivity|]. split; [reflexivity|]. split; [discriminate|exact Hlater].
    + destruct (Hwrite (x :: v)) as (Hframe & e & He & Hc & Ht).
      split; [discriminate|]. split; [exact Hframe|]. split; [|exact Hlater].
      intros v' Hv. injection Hv as <-. exists e. auto.
    + destruct (frombuffer_text dim nrm) as [v|e]; simpl in *.
      * destruct (Hwrite v) as (Hframe & e & He & Hc & Ht).
        split; [discriminate|]. split; [exact Hframe|]. split; [|exact Hlater].
        intros v' Hv. injection Hv as <-. exists e. auto.
      * split; [reflexivity|]. split; [reflexivity|]. split; [discriminate|exact Hlater].
    + split; [reflexivity|]. split; [reflexivity|]. split; [discriminate|exact Hlater].
    + split; [reflexivity|]. split; [reflexivity|]. split; [discriminate|exact Hlater].
Qed.

Section Build.
Variable get_vectors_for_tag : string -> string -> list vec.

Lemma process_tags_reachable tenant_id tags : forall r,
  reachable (snd (process_tags get_vectors_for_tag tenant_id r tags)) = reachable r.
Proof.
  induction tags as [|tag tags IH]; intros r; simpl; [reflexivity|].
  destruct (process_tag get_vectors_for_tag tenant_id r tag) as [ok r1] eqn:H1.
  destruct (process_tags get_vectors_for_tag tenant_id r1 tags) as [results r2] eqn:H2.
  simpl. change r2 with (snd (results, r2)). rewrite <- H2, IH.
  change r1 with (snd (ok, r1)). rewrite <- H1.
  apply process_tag_reachable.
Qed.

Lemma norm_nil : norm [] = 0%R.
Proof. unfold norm, sum_sq. simpl. apply sqrt_0. Qed.

(** A lookup that finds a non-empty array in Redis. *)
Lemma get_centroid_redis_hit c r now now_stored tenant_id tag ttl centroid :
  fresh_entry c now (cache_key tenant_id tag) = None ->
  reachable r = true ->
  data r !! centroid_key tenant_id tag = Some (CentroidBytes ttl centroid) ->
  centroid <> [] ->
  get_centroid frombuffer_text c r now now_stored tenant_id tag
  = (Some centroid,
     <[cache_key tenant_id tag := mk_cache_entry centroid now_stored]> c).
Proof.
  intros Hstale Hup Hdata Hne. unfold get_centroid. rewrite Hstale.
  unfold redis_get. rewrite Hup, Hdata.
  destruct centroid; [congruence|reflexivity].
Qed.

(** What a build on a reachable store leaves under the centroid key of a
    tag whose embeddings have a mean of non-zero norm. *)
Lemma built_store_holds (r : redis) (tenant_id tag : string) (mu : vec) :
  In tag (get_tenant_tags tenant_id) ->
  reachable r = true ->
  mean (get_vectors_for_tag tenant_id tag) = Returned mu ->
  (0 < norm mu)%R ->
  let built := snd (calculate_and_store_centroids get_vectors_for_tag r tenant_id) in
  reachable built = true
  /\ data built !! centroid_key tenant_id tag
     = Some (CentroidBytes ttl_7_days (div mu (norm mu)))
  /\ div mu (norm mu) <> [].
Proof.
  intros Htag Hup Hmean Hpos built.
  destruct (process_tags_tag get_vectors_for_tag tenant_id (get_tenant_tags tenant_id)
              (get_tenant_tags_NoDup tenant_id) r tag Htag) as [_ Hrun].
  destruct (process_tag_stores get_vectors_for_tag tenant_id tag r) as [Hstore _].
  destruct (Hstore mu Hup Hmean) as [_ Hdata].
  destruct (Rlt_dec 0 (norm mu)) as [_|Hn]; [|contradiction].
  rewrite Hdata in Hrun.
  split; [|split].
  - unfold built, calculate_and_store_centroids. now rewrite process_tags_reachable.
  - exact Hrun.
  - destruct mu; [|discriminate].
    rewrite norm_nil in Hpos. exfalso. exact (Rlt_irrefl _ Hpos).
Qed.

(** X11: a lookup after a build finds what the build stored.  For a tag of
    the tenant whose embeddings have a mean of non-zero norm, a lookup on
    the store that the run leaves, with no fresh cache entry for the pair,
    returns the L2-normalised mean, a unit vector, and caches it at the
    time of the lookup. *)
Theorem lookup_finds_built_centroid
        (c : gmap string cache_entry) (r : redis) (now now_stored : Q)
        (tenant_id tag : string) (mu : vec) :
  In tag (get_tenant_tags tenant_id) ->
  reachable r = true ->
  mean (get_vectors_for_tag tenant_id tag) = Returned mu ->
  (0 < norm mu)%R ->
  fresh_entry c now (cache_key tenant_id tag) = None ->
  let built := snd (calculate_and_store_centroids get_vectors_for_tag r tenant_id) in
  let centroid := div mu (norm mu) in
  get_centroid frombuffer_text c built now now_stored tenant_id tag
  = (Some centroid,
     <[cache_key tenant_id tag := mk_cache_entry centroid now_stored]> c)
  /\ norm centroid = 1%R.
Proof.
  intros Htag Hup Hmean Hpos Hstale built centroid.
  destruct (built_store_holds r tenant_id tag mu Htag Hup Hmean Hpos)
    as (Hbuilt & Hdata & Hne).
  split; [|now apply norm_div_norm].
  now apply (get_centroid_redis_hit c built now now_stored tenant_id tag ttl_7_days).
Qed.

End Build.
End Cache.

Lemma lookup_finds_built_centroid_witness :
  let centroid := div [(2 / INR 1)%R] (norm [(2 / INR 1)%R]) in
  get_centroid (fun _ _ => Raised ValueError) ∅
               (snd (calculate_and_store_centroids one_vector empty_redis "T1"))
               0 1 "T1" "direito_civil"
  = (Some centroid,
     <[cache_key "T1" "direito_civil" := mk_cache_entry centroid 1]> ∅)
  /\ norm centroid = 1%R.
Proof.
  apply (lookup_finds_built_centroid (fun _ _ => Raised ValueError) one_vector
           ∅ empty_redis 0 1 "T1" "direito_civil" [(2 / INR 1)%R]).
  - simpl. tauto.
  - reflexivity.
  - reflexivity.
  - unfold norm, sum_sq. simpl.
    replace (2 / 1 * (2 / 1) + 0)%R with (2 * 2)%R by field.
    rewrite sqrt_square; lra.
  - reflexivity.
Defined.

End CentroidLookupProps.

(** ** Keys, tenants and the footprint of a build *)

Module KeyProps.
Import Py Np CentroidCalculator CentroidLookup CentroidJob Keys CentroidProps
       CentroidLookupProps Doubles.

Lemma colon_split (t1 t2 g1 g2 : string) :
  no_colon t1 = true -> no_colon t2 = true ->
  (t1 ++ ":" ++ g1)%string = (t2 ++ ":" ++ g2)%string ->
  t1 = t2 /\ g1 = g2.
Proof.
  revert t2. induction t1 as [|c t1 IH]; intros [|c2 t2] H1 H2 H; simpl in *.
  - injection H as H. auto.
  - injection H as Hc _. subst c2. discriminate.
  - injection H as Hc _. subst c. discriminate.
  - injection H as Hc H. subst c2.
    apply andb_true_iff in H1, H2.
    destruct (IH t2 (proj2 H1) (proj2 H2) H) as (-> & ->). auto.
Qed.

Lemma centroid_key_split t1 t2 g1 g2 :
  no_colon t1 = true -> no_colon t2 = true ->
  centroid_key t1 g1 = centroid_key t2 g2 -> t1 = t2 /\ g1 = g2.
Proof.
  intros H1 H2 H. unfold centroid_key in H.
  apply append_cancel_l in H. now apply colon_split.
Qed.

Lemma metadata_key_split t1 t2 g1 g2 :
  no_colon t1 = true -> no_colon t2 = true ->
  metadata_key t1 g1 = metadata_key t2 g2 -> t1 = t2 /\ g1 = g2.
Proof.
  intros H1 H2 H. unfold metadata_key in H.
  apply append_cancel_l in H. now apply colon_split.
Qed.

Lemma append_cons (x : ascii) (a b : string) :
  (String x a ++ b)%string = String x (a ++ b)%string.
Proof. reflexivity. Qed.

Lemma string_app_assoc (a b c : string) : ((a ++ b) ++ c)%string = (a ++ b ++ c)%string.
Proof.
  induction a as [|x a IH]; [reflexivity|].
  now rewrite !append_cons, IH.
Qed.

(** X12: the keys separate tenants whose identifiers hold no colon: two
    pairs share a centroid key, a metadata key or a cache key only when
    tenant and tag are the same, and no centroid key is a metadata key.
    With a colon in an identifier they need not: the pair (t, s:g) and the
    pair (t:s, g) share all three keys. *)
Theorem keys_separate_tenants (t1 t2 g1 g2 : string) :
  no_colon t1 = true -> no_colon t2 = true ->
  (centroid_key t1 g1 = centroid_key t2 g2
   \/ metadata_key t1 g1 = metadata_key t2 g2
   \/ cache_key t1 g1 = cache_key t2 g2 -> t1 = t2 /\ g1 = g2)
  /\ centroid_key t1 g1 <> metadata_key t2 g2
  /\ (forall t s g,
        centroid_key t (s ++ ":" ++ g) = centroid_key (t ++ ":" ++ s) g
        /\ metadata_key t (s ++ ":" ++ g) = metadata_key (t ++ ":" ++ s) g
        /\ cache_key t (s ++ ":" ++ g) = cache_key (t ++ ":" ++ s) g).
Proof.
  intros H1 H2. split; [|split].
  - intros [H|[H|H]].
    + now apply centroid_key_split.
    + now apply metadata_key_split.
    + now apply colon_split.
  - unfold centroid_key, metadata_key. simpl. discriminate.
  - intros t s g. unfold centroid_key, metadata_key, cache_key.
    rewrite !string_app_assoc. simpl. auto.
Qed.

Section Footprint.
Variable get_vectors_for_tag : string -> string -> list vec.

Lemma process_tags_footprint tenant_id tags : forall r key,
  (forall tag, In tag tags ->
               key <> centroid_key tenant_id tag /\ key <> metadata_key tenant_id tag) ->
  data (snd (process_tags get_vectors_for_tag tenant_id r tags)) !! key = data r !! key.
Proof.
  induction tags as [|tag tags IH]; intros r key Hkey; simpl; [reflexivity|].
  destruct (process_tag get_vectors_for_tag tenant_id r tag) as [ok r1] eqn:H1.
  destruct (process_tags get_vectors_for_tag tenant_id r1 tags) as [results r2] eqn:H2.
  simpl. change r2 with (snd (results, r2)). rewrite <- H2.
  rewrite IH by (intros g Hg; apply Hkey; now right).
  change r1 with (snd (ok, r1)). rewrite <- H1.
  destruct (Hkey tag (or_introl eq_refl)) as (Hc & Hm).
  now apply process_tag_frame.
Qed.

Lemma process_tags_results tenant_id tags : forall r,
  map fst (fst (process_tags get_vectors_for_tag tenant_id r tags)) = tags.
Proof.
  induction tags as [|tag tags IH]; intros r; simpl; [reflexivity|].
  destruct (process_tag get_vectors_for_tag tenant_id r tag) as [ok r1] eqn:H1.
  destruct (process_tags get_vectors_for_tag tenant_id r1 tags) as [results r2] eqn:H2.
  simpl. f_equal. change results with (fst (results, r2)). rewrite <- H2. apply IH.
Qed.

Lemma process_tag_down tenant_id r tag :
  reachable r = false ->
  process_tag get_vectors_for_tag tenant_id r tag = (false, r).
Proof.
  intros Hdown. unfold process_tag.
  destruct (get_vectors_for_tag tenant_id tag); [reflexivity|].
  destruct (calculate_centroid _); [|reflexivity].
  now apply store_centroid_unreachable.
Qed.

Lemma process_tags_down tenant_id r tags :
  reachable r = false ->
  process_tags get_vectors_for_tag tenant_id r tags
  = (map (fun tag => (tag, false)) tags, r).
Proof.
  intros Hdown. induction tags as [|tag tags IH]; simpl; [reflexivity|].
  rewrite (process_tag_down tenant_id r tag Hdown), IH. reflexivity.
Qed.

(** X13: the footprint of a build.  A run for a tenant reports its six
    tags, in order; it changes no key of the store other than the centroid
    and metadata keys of the tenant's tags, removes nothing and leaves the
    keys of every other colon-free tenant as they were; and when Redis
    cannot be reached every tag is reported as failed and the store is
    unchanged. *)
Theorem build_run_footprint (r : redis) (tenant_id : string) :
  let run := calculate_and_store_centroids get_vectors_for_tag r tenant_id in
  map fst (fst run) = get_tenant_tags tenant_id
  /\ reachable (snd run) = reachable r
  /\ (forall key,
        (forall tag, In tag (get_tenant_tags tenant_id) ->
                     key <> centroid_key tenant_id tag
                     /\ key <> metadata_key tenant_id tag) ->
        data (snd run) !! key = data r !! key)
  /\ (forall key, is_Some (data r !! key) -> is_Some (data (snd run) !! key))
  /\ (forall other tag,
        no_colon tenant_id = true -> no_colon other = true -> other <> tenant_id ->
        data (snd run) !! centroid_key other tag = data r !! centroid_key other tag
        /\ data (snd run) !! metadata_key other tag = data r !! metadata_key other tag)
  /\ (reachable r = false ->
      run = (map (fun tag => (tag, false)) (get_tenant_tags tenant_id), r)).
Proof.
  intros run. unfold run, calculate_and_store_centroids.
  set (tags := get_tenant_tags tenant_id).
  split; [apply process_tags_results|].
  split; [apply process_tags_reachable|].
  split; [intros key Hkey; now apply process_tags_footprint|].
  split.
  { intros key. generalize r. clear run. induction tags as [|tag tags IH]; intros r0 Hsome;
      simpl; [exact Hsome|].
    destruct (process_tag get_vectors_for_tag tenant_id r0 tag) as [ok r1] eqn:H1.
    destruct (process_tags get_vectors_for_tag tenant_id r1 tags) as [results r2] eqn:H2.
    simpl. change r2 with (snd (results, r2)). rewrite <- H2. apply IH.
    change r1 with (snd (ok, r1)). rewrite <- H1.
    unfold process_tag.
    destruct (get_vectors_for_tag tenant_id tag); [exact Hsome|].
    destruct (calculate_centroid _); [|exact Hsome].
    unfold store_centroid, setex. destruct (reachable r0); simpl; [|exact Hsome].
    destruct (decide (key = metadata_key tenant_id tag)) as [->|Hm];
      [rewrite lookup_insert_eq; eauto|rewrite lookup_insert_ne by congruence].
    destruct (decide (key = centroid_key tenant_id tag)) as [->|Hc];
      [rewrite lookup_insert_eq; eauto|now rewrite lookup_insert_ne by congruence]. }
  split.
  { intros other tag Ht Ho Hne. split; apply process_tags_footprint; intros g _; split.
    - intros H. apply centroid_key_split in H; [|exact Ho|exact Ht]. now destruct H.
    - unfold centroid_key, metadata_key. simpl. discriminate.
    - unfold centroid_key, metadata_key. simpl. discriminate.
    - intros H. apply metadata_key_split in H; [|exact Ho|exact Ht]. now destruct H. }
  intros Hdown. now apply process_tags_down.
Qed.

(** The whole job on a store that cannot be reached. *)
Lemma run_tenants_down r tenant_ids : forall all_results,
  reachable r = false ->
  snd (run_tenants get_vectors_for_tag r all_results tenant_ids) = r
  /\ (Forall (fun p => Forall (fun q => snd q = false) (snd p)) all_results ->
      Forall (fun p => Forall (fun q => snd q = false) (snd p))
             (fst (run_tenants get_vectors_for_tag r all_results tenant_ids))).
Proof.
  intros all_results Hdown. revert all_results.
  induction tenant_ids as [|t ids IH]; intros all_results; simpl; [auto|].
  unfold calculate_and_store_centroids.
  rewrite (process_tags_down t r (get_tenant_tags t) Hdown).
  destruct (IH (dict_set t (map (fun tag => (tag, false)) (get_tenant_tags t)) all_results))
    as (Hr & Hall).
  split; [exact Hr|]. intros Hprev. apply Hall.
  clear - Hprev. induction all_results as [|[k v] rest IHr]; simpl.
  - constructor; [|constructor]. simpl. repeat constructor.
  - destruct (String.eqb k t).
    + constructor; [simpl; repeat constructor|exact (Forall_inv_tail Hprev)].
    + constructor; [exact (Forall_inv Hprev)|apply IHr; exact (Forall_inv_tail Hprev)].
Qed.

Lemma dict_set_keys {V} (key : string) (v : V) d :
  map fst (dict_set key v d)
  = if existsb (String.eqb key) (map fst d) then map fst d
    else (map fst d ++ [key])%list.
Proof.
  induction d as [|[k v0] rest IH]; simpl; [reflexivity|].
  rewrite (String.eqb_sym key k).
  destruct (String.eqb k key); simpl; [reflexivity|].
  rewrite IH. now destruct (existsb _ _).
Qed.

Lemma run_tenants_keys tenant_ids : forall r all_results,
  map fst (fst (run_tenants get_vectors_for_tag r all_results tenant_ids))
  = fold_left Ranking.add_new tenant_ids (map fst all_results).
Proof.
  induction tenant_ids as [|t ids IH]; intros r all_results; simpl; [reflexivity|].
  destruct (calculate_and_store_centroids get_vectors_for_tag r t) as [results r1].
  rewrite IH, dict_set_keys. reflexivity.
Qed.

(** X14: the job over several tenants.  Without tenants (none given, or an
    empty list) it runs over the three default tenants.  The report lists
    every tenant once, in the order of first mention; and on a store that
    cannot be reached the job leaves the store as it was and reports every
    tag of every tenant as failed. *)
Theorem calculate_all_tenants_report (r : redis) (tenant_ids : list string) :
  calculate_all_tenants get_vectors_for_tag r None
  = calculate_all_tenants get_vectors_for_tag r (Some default_tenants)
  /\ calculate_all_tenants get_vectors_for_tag r (Some [])
     = calculate_all_tenants get_vectors_for_tag r (Some default_tenants)
  /\ (tenant_ids <> [] ->
      map fst (fst (calculate_all_tenants get_vectors_for_tag r (Some tenant_ids)))
      = Ranking.first_seen tenant_ids)
  /\ (reachable r = false ->
      snd (calculate_all_tenants get_vectors_for_tag r (Some tenant_ids)) = r
      /\ Forall (fun p => Forall (fun q => snd q = false) (snd p))
                (fst (calculate_all_tenants get_vectors_for_tag r (Some tenant_ids)))).
Proof.
  split; [reflexivity|]. split; [reflexivity|]. split.
  - intros Hne. unfold calculate_all_tenants.
    destruct tenant_ids as [|t ids]; [congruence|].
    apply run_tenants_keys.
  - intros Hdown. unfold calculate_all_tenants.
    match goal with
    | |- context [run_tenants _ _ _ ?l] =>
        destruct (run_tenants_down r l [] Hdown) as (Hr & Hall)
    end.
    split; [exact Hr|]. apply Hall. constructor.
Qed.

End Footprint.

Lemma keys_separate_tenants_witness :
  (centroid_key "acme" "direito_civil" = centroid_key "acme" "direito_civil"
   \/ metadata_key "acme" "direito_civil" = metadata_key "acme" "direito_civil"
   \/ cache_key "acme" "direito_civil" = cache_key "acme" "direito_civil" ->
   "acme" = "acme" /\ "direito_civil" = "direito_civil")
  /\ centroid_key "acme" "direito_civil" <> metadata_key "acme" "direito_civil".
Proof.
  destruct (keys_separate_tenants "acme" "acme" "direito_civil" "direito_civil"
              eq_refl eq_refl) as (H1 & H2 & _).
  split; [exact H1|exact H2].
Defined.

End KeyProps.

(** ** The inferred tag and the tags of the build *)

Module TagProps.
Import Py TagInferencer Personalizer CentroidCalculator TagInferencerProps.

Lemma lower_char_idem c : lower_char (lower_char c) = lower_char c.
Proof. destruct c as [[] [] [] [] [] [] [] []]; reflexivity. Qed.

Lemma lower_idem s : lower (lower s) = lower s.
Proof.
  induction s as [|c s IH]; simpl; [reflexivity|].
  now rewrite lower_char_idem, IH.
Qed.

Lemma max_by_value_In rest : forall best, In (max_by_value best rest) (best :: rest).
Proof.
  intros best. destruct (max_by_value_first rest best) as (l1 & l2 & Heq & _).
  rewrite Heq. apply in_or_app. right. now left.
Qed.

Lemma infer_with_In table fallback query :
  In (infer_with table fallback query) (fallback :: map fst table).
Proof.
  unfold infer_with.
  destruct (tag_scores_of table (lower query)) as [|p rest] eqn:Hs; [now left|].
  right.
  assert (Hin : In (max_by_value p rest) (tag_scores_of table (lower query))).
  { rewrite Hs. apply max_by_value_In. }
  unfold tag_scores_of in Hin. apply filter_In in Hin. destruct Hin as (Hin & _).
  apply in_map_iff in Hin. destruct Hin as (row & Hrow & Hin).
  rewrite <- Hrow. simpl. now apply in_map.
Qed.

Lemma infer_query_tag_In query tenant_id :
  In (infer_query_tag query) (get_tenant_tags tenant_id).
Proof.
  pose proof (infer_with_In tag_keywords fallback_tag query) as H.
  destruct H as [H|H]; [|exact H].
  unfold infer_query_tag. rewrite <- H. simpl. tauto.
Qed.

Lemma resolve_tag_In query tenant_id :
  In (resolve_tag query None) (get_tenant_tags tenant_id).
Proof.
  unfold resolve_tag.
  destruct query as [[|c q]|]; [simpl; tauto|apply infer_query_tag_In|simpl; tauto].
Qed.

(** X15: the tag inferred for a query is always one of the six tags for
    which the build computes centroids, so is the tag that personalization
    resolves when the caller gives none (or an empty one); a tag given by
    the caller is used as it is.  The inference does not depend on the case
    of the query. *)
Theorem inferred_tag_is_a_tenant_tag (query : string) (tenant_id : string) :
  In (infer_query_tag query) (get_tenant_tags tenant_id)
  /\ infer_query_tag (lower query) = infer_query_tag query
  /\ (forall q, In (resolve_tag q None) (get_tenant_tags tenant_id)
                /\ resolve_tag q (Some "") = resolve_tag q None)
  /\ (forall q c tag, resolve_tag q (Some (String c tag)) = String c tag).
Proof.
  split; [apply infer_query_tag_In|]. split.
  - unfold infer_query_tag, infer_with. now rewrite lower_idem.
  - split; [|reflexivity].
    intros q. split; [apply resolve_tag_In|reflexivity].
Qed.

End TagProps.

(** ** Validation of external documents *)

Module SchemaProps.
Import Py SchemaApi.
Local Open Scope Z_scope.

Lemma length_append (a b : string) :
  String.length (a ++ b) = (String.length a + String.length b)%nat.
Proof.
  induction a as [|c a IH]; [reflexivity|].
  change (String.length (String c (a ++ b)) = S (String.length a + String.length b)).
  simpl. now rewrite IH.
Qed.

Lemma len_join_space texts :
  len (join_space texts)
  = fold_right (fun t acc => len t + acc) 0 texts
    + Z.of_nat (Nat.pred (List.length texts)).
Proof.
  unfold len. induction texts as [|t texts IH]; [reflexivity|].
  destruct texts as [|t' texts].
  - simpl. lia.
  - change (join_space (t :: t' :: texts)) with (t ++ " " ++ join_space (t' :: texts))%string.
    rewrite !length_append.
    change (fold_right (fun t0 acc => Z.of_nat (String.length t0) + acc) 0 (t :: t' :: texts))
      with (Z.of_nat (String.length t)
            + fold_right (fun t0 acc => Z.of_nat (String.length t0) + acc) 0 (t' :: texts)).
    rewrite !Nat2Z.inj_add, IH. simpl List.length. simpl String.length. lia.
Qed.

Lemma validate_loop_spec docs : forall i errors total,
  snd (validate_loop i docs errors total)
  = total + fold_right (fun t acc => len t + acc) 0 (map doc_text docs)
  /\ (fst (validate_loop i docs errors total) = []
      <-> errors = []
          /\ Forall (fun d => len (doc_text d) <= 50000 /\ blank (doc_text d) = false) docs)
  /\ (List.length errors <= List.length (fst (validate_loop i docs errors total))
      <= List.length errors + 2 * List.length docs)%nat.
Proof.
  induction docs as [|d docs IH]; intros i errors total; simpl.
  - split; [lia|]. split; [|lia]. split; [auto|tauto].
  - match goal with
    | |- context [validate_loop (S i) docs ?e ?t] =>
        destruct (IH (S i) e t) as (Htot & Hnil & Hlen)
    end.
    split; [rewrite Htot; lia|]. split.
    + rewrite Hnil. split.
      * intros (He & Hall).
        destruct (Z.ltb_spec 50000 (len (doc_text d))) as [Hlong|Hshort];
          destruct (blank (doc_text d)) eqn:Hb;
          try (destruct errors; discriminate He).
        split; [exact He|]. constructor; [split; [lia|exact Hb]|exact Hall].
      * intros (-> & Hall). inversion Hall as [|? ? (Hshort & Hb) Hrest]; subst.
        rewrite Hb. destruct (Z.ltb_spec 50000 (len (doc_text d))); [lia|auto].
    + destruct (50000 <? len (doc_text d)); destruct (blank (doc_text d));
        rewrite ?length_app in Hlen; simpl in Hlen; lia.
Qed.

(** X16: what [validate_docs] reports.  The list is valid exactly when
    every text has at most 50000 characters and is not blank and the texts
    have at most 500000 characters in total; the number of documents is not
    limited.  The report carries the number of documents, the total of the
    lengths, between zero and 2N + 1 errors, and as estimated tokens a
    quarter (rounded down) of the total plus the N - 1 joining spaces. *)
Theorem validate_docs_report (docs : list ExternalDoc) :
  let report := validate_docs docs in
  let total := fold_right (fun t acc => len t + acc) 0 (map doc_text docs) in
  total_characters report = total
  /\ total_docs report = List.length docs
  /\ (valid report = true
      <-> Forall (fun d => len (doc_text d) <= 50000 /\ blank (doc_text d) = false) docs
          /\ total <= 500000)
  /\ (valid report = true <-> validation_errors report = [])
  /\ (List.length (validation_errors report) <= 2 * List.length docs + 1)%nat
  /\ estimated_tokens report = (total + Z.of_nat (Nat.pred (List.length docs))) / 4.
Proof.
  intros report total. unfold report, validate_docs.
  destruct (validate_loop_spec docs 0%nat [] 0) as (Htot & Hnil & Hlen).
  destruct (validate_loop 0 docs [] 0) as [errors chars] eqn:Hloop.
  simpl in Htot, Hnil, Hlen. simpl.
  assert (Hchars : chars = total) by (rewrite Htot; reflexivity).
  split; [exact Hchars|]. split; [reflexivity|].
  assert (Herr : (if 500000 <? chars then (errors ++ [TotalTooLarge])%list else errors) = []
                 <-> errors = [] /\ chars <= 500000).
  { destruct (Z.ltb_spec 500000 chars).
    - split; [intros H0; destruct errors; discriminate|lia].
    - split; [auto|tauto]. }
  assert (Hvalid : forall l : list validation_error,
             match l with [] => true | _ => false end = true <-> l = []).
  { intros [|x l]; split; auto; discriminate. }
  split.
  { rewrite Hvalid, Herr, Hnil, Hchars. tauto. }
  split; [apply Hvalid|].
  split.
  { destruct (500000 <? chars); rewrite ?length_app; simpl; lia. }
  unfold estimate_tokens. rewrite len_join_space, length_map. reflexivity.
Qed.

Lemma nodup_length_le (l : list string) :
  (List.length (nodup string_dec l) <= List.length l)%nat.
Proof.
  induction l as [|a l IH]; simpl; [lia|].
  destruct (in_dec string_dec a l); simpl; lia.
Qed.

Lemma nodup_same_length (l : list string) :
  List.length (to_set l) = List.length l <-> List.NoDup l.
Proof.
  unfold to_set. split.
  - induction l as [|a l IH]; simpl; [constructor|].
    pose proof (nodup_length_le l) as Hle.
    destruct (in_dec string_dec a l) as [Hin|Hnotin]; simpl; intros H; [lia|].
    constructor; [exact Hnotin|]. apply IH. lia.
  - intros H. now rewrite nodup_fixed_point.
Qed.

(** X17: the request validator of the external documents accepts a list
    exactly when it has at most 50 documents with pairwise distinct ids, and
    hands it on unchanged; an absent list and the empty list are accepted;
    every other list raises [ValueError]. *)
Theorem validate_external_docs_accepts (v : option (list ExternalDoc)) :
  let accepted :=
    match v with
    | None => True
    | Some docs =>
        (List.length docs <= 50)%nat /\ List.NoDup (map doc_src_id docs)
    end in
  (accepted -> validate_external_docs v = Returned v)
  /\ (~ accepted -> validate_external_docs v = Raised ValueError)
  /\ validate_external_docs None = Returned None
  /\ validate_external_docs (Some []) = Returned (Some []).
Proof.
  intros accepted. unfold accepted.
  split; [|split; [|split; reflexivity]].
  - destruct v as [docs|]; [|reflexivity].
    intros (Hlen & Hnd). unfold validate_external_docs.
    destruct (Nat.ltb_spec 50 (List.length docs)); [lia|].
    apply nodup_same_length in Hnd. rewrite Hnd, Nat.eqb_refl. reflexivity.
  - destruct v as [docs|]; [|tauto].
    intros Hnot. unfold validate_external_docs.
    destruct (Nat.ltb_spec 50 (List.length docs)); [reflexivity|].
    destruct (Nat.eqb_spec (List.length (map doc_src_id docs))
                           (List.length (to_set (map doc_src_id docs)))) as [E|E];
      [|reflexivity].
    exfalso. apply Hnot. split; [lia|]. now apply nodup_same_length.
Qed.

End SchemaProps.

(** ** The response of the two single-kind searches *)

Module PipelineProps.
Import Py RagBridge Ranking Records SortFacts RrfProps FuseProps SearchProps SourceProps
       SortedInputs BlendProps SearchSizeProps SingleSourceProps Doubles.

Lemma NoDup_firstn {A} (l : list A) : forall n, List.NoDup l -> List.NoDup (firstn n l).
Proof.
  induction l as [|x l IH]; intros [|n] Hnd; simpl; try constructor.
  - inversion Hnd as [|? ? Hnotin _]; subst.
    intros Hin. apply Hnotin. now apply In_firstn in Hin.
  - apply IH. now inversion Hnd.
Qed.

Lemma fusion_ids_NoDup sem lex k fused :
  0 < k ->
  reciprocal_rank_fusion sem lex k = Returned fused ->
  List.NoDup (map id fused).
Proof.
  intros Hk Hret.
  destruct (reciprocal_rank_fusion_shape sem lex k Hk) as (docs & Heq & Hids & _).
  rewrite Heq in Hret. injection Hret as <-.
  unfold enumerate. rewrite enumerate_from_ids by reflexivity.
  apply (Permutation_NoDup (l := map id docs)).
  - symmetry. apply Permutation_map, sorted_desc_perm.
  - rewrite Hids. apply first_seen_NoDup.
Qed.

Section Pipeline.
Context {Vec : Type} `{C : Collaborators Vec}.

(** X18: a search over the internal sources alone never returns a document
    twice: the ids of the hits are pairwise distinct, although a document
    may be listed by both sources (and more than once by the vector
    store). *)
Theorem internal_search_distinct_ids
        query tenant_id k_total alpha enable external_docs :
  falsy external_docs = true ->
  exists hits,
    federated_search query tenant_id k_total alpha enable external_docs true
    = Returned hits
    /\ List.NoDup (map id hits).
Proof.
  intros Hf. unfold federated_search, try_except.
  destruct (federated_search_body query tenant_id k_total alpha enable
              external_docs true) as [hits|e] eqn:Hbody.
  2:{ exists []. split; [reflexivity|constructor]. }
  exists hits. split; [reflexivity|].
  unfold federated_search_body in Hbody. rewrite Hf in Hbody.
  simpl negb in Hbody. simpl andb in Hbody. cbv iota in Hbody.
  destruct (resolve_query_vector query tenant_id alpha enable true)
    as [o|e] eqn:Hres; simpl in Hbody; [|discriminate].
  destruct (resolve_query_vector_internal _ _ _ _ _ Hres) as (qv & ->).
  rewrite app_nil_r in Hbody. unfold fuse_all in Hbody.
  match type of Hbody with
  | context [reciprocal_rank_fusion ?s ?l ?k] =>
      set (sem := s) in *; set (lex := l) in *
  end.
  change (results_get "semantic" [("semantic", sem); ("lexical", lex)]) with sem in Hbody.
  change (results_get "lexical" [("semantic", sem); ("lexical", lex)]) with lex in Hbody.
  change (results_get "ephemeral" [("semantic", sem); ("lexical", lex)])
    with (@nil hit) in Hbody.
  assert (Hfused : forall fused,
             (if is_nil sem && is_nil lex then Returned []
              else reciprocal_rank_fusion sem lex rrf_k) = Returned fused ->
             List.NoDup (map id fused)).
  { intros fused. destruct (is_nil sem && is_nil lex).
    - intros H. injection H as <-. constructor.
    - apply fusion_ids_NoDup. unfold rrf_k. lia. }
  destruct (if is_nil sem && is_nil lex then Returned []
            else reciprocal_rank_fusion sem lex rrf_k) as [fused|e] eqn:Hfu;
    simpl in Hbody; [|discriminate].
  injection Hbody as <-.
  rewrite slice_to_map. destruct (slice_to_prefix k_total (map id fused)) as (n & ->).
  apply NoDup_firstn. now apply Hfused.
Qed.

End Pipeline.

Lemma slice_to_full_length {A} (k : Z) (l : list A) :
  List.length (slice_to k l)
  = if (0 <=? k)%Z then Nat.min (Z.to_nat k) (List.length l)
    else List.length l - Z.to_nat (- k).
Proof.
  unfold slice_to. destruct (0 <=? k)%Z; rewrite length_firstn; lia.
Qed.

Lemma internal_search_distinct_ids_witness :
  falsy (@None (list external_doc)) = true
  /\ exists hits,
       federated_search (C := embedder_down) "x" "T1" 3 None true None true
       = Returned hits
       /\ List.NoDup (map id hits).
Proof.
  split; [reflexivity|].
  apply (internal_search_distinct_ids (C := embedder_down) "x" "T1" 3 None true None).
  reflexivity.
Defined.

End PipelineProps.

(** ** Build, lookup and personalization together *)

Module PersonalizationPipelineProps.
Import Py Np NpFacts TagInferencer Personalizer CentroidCalculator CentroidLookup
       PersonalizerProps PersonalizerNormProps CentroidProps CentroidLookupProps
       TagProps Doubles.
Local Open Scope R_scope.

Section Pipeline.
Variable frombuffer_text : nat -> R -> outcome vec.
Variable get_vectors_for_tag : string -> string -> list vec.

(** X20: when personalization hands the query back.  A centroid whose
    dimension differs from the one of the query is ignored, also where
    numpy would stretch one of the operands (the sum is formed, the dot
    product then raises, and the handler returns the query); and with Redis
    out of reach and no fresh cache entry the lookup finds nothing, so the
    query is returned unchanged and no error reaches the caller. *)
Theorem personalization_falls_back_to_query
        (q : vec) (tenant_id : string) (query tag : option string) (alpha : R) :
  (forall get_centroid c,
      get_centroid tenant_id (resolve_tag query tag) = Some c ->
      List.length c <> List.length q ->
      apply_personalization get_centroid q tenant_id query tag alpha = Returned q)
  /\ (forall c r now now_stored,
        reachable r = false ->
        fresh_entry c now (cache_key tenant_id (resolve_tag query tag)) = None ->
        apply_personalization (lookup frombuffer_text c r now now_stored) q tenant_id query tag alpha
        = Returned q).
Proof.
  split.
  - intros get_centroid c Hc Hlen. rewrite apply_personalization_cases, Hc.
    destruct (Nat.eqb_spec (List.length q) (List.length c)) as [E|_]; [|reflexivity].
    exfalso. apply Hlen. now symmetry.
  - intros c r now now_stored Hdown Hstale.
    rewrite apply_personalization_cases. unfold lookup, get_centroid.
    rewrite Hstale. unfold redis_get. rewrite Hdown. reflexivity.
Qed.

(** X21: build, lookup and personalization together.  After a build for
    the tenant on a reachable store, a unit-norm query whose resolved tag
    has embeddings of non-zero mean is personalized, for every alpha
    strictly between -1 and 1, into a unit-norm vector of its own
    dimension; when the mean has the dimension of the query that vector is
    the normalisation of q + alpha * centroid, with the centroid the
    L2-normalised mean. *)
Theorem personalization_after_build
        (c : gmap string cache_entry) (r : redis) (now now_stored : Q)
        (q : vec) (tenant_id : string) (query : option string) (alpha : R)
        (mu : vec) :
  let tag := resolve_tag query None in
  norm q = 1 ->
  -1 < alpha < 1 ->
  reachable r = true ->
  mean (get_vectors_for_tag tenant_id tag) = Returned mu ->
  0 < norm mu ->
  fresh_entry c now (cache_key tenant_id tag) = None ->
  let built := snd (calculate_and_store_centroids get_vectors_for_tag r tenant_id) in
  let centroid := div mu (norm mu) in
  exists v,
    apply_personalization (lookup frombuffer_text c built now now_stored) q tenant_id query None
                          alpha
    = Returned v
    /\ norm v = 1
    /\ List.length v = List.length q
    /\ (List.length mu = List.length q ->
        v = div (adjusted q alpha centroid) (norm (adjusted q alpha centroid))).
Proof.
  intros tag Hq Ha Hup Hmean Hpos Hstale built centroid.
  destruct (built_store_holds get_vectors_for_tag r tenant_id tag mu
              (resolve_tag_In query tenant_id) Hup Hmean Hpos)
    as (Hbuilt & Hdata & Hne).
  fold built centroid in Hbuilt, Hdata, Hne.
  assert (Hunit : norm centroid = 1) by now apply norm_div_norm.
  assert (Hlookup : lookup frombuffer_text c built now now_stored tenant_id tag
                    = Some centroid).
  { unfold lookup.
    now rewrite (get_centroid_redis_hit frombuffer_text c built now now_stored
                   tenant_id tag ttl_7_days centroid). }
  rewrite apply_personalization_cases. fold tag. rewrite Hlookup.
  eexists. split; [reflexivity|].
  destruct (Nat.eqb_spec (List.length q) (List.length centroid)) as [Hc|Hc].
  - assert (Hadj : 0 < norm (adjusted q alpha centroid)).
    { apply adjusted_norm_pos; [exact Hc|exact Hq|rewrite Hunit; lra|exact Ha]. }
    destruct (Rlt_dec 0 (norm (adjusted q alpha centroid))) as [_|Hn]; [|contradiction].
    split; [now apply norm_div_norm|].
    split; [rewrite div_length; now apply adjusted_length|reflexivity].
  - split; [exact Hq|]. split; [reflexivity|].
    intros Hdim. exfalso. apply Hc. unfold centroid. now rewrite div_length.
Qed.

End Pipeline.

Lemma personalization_after_build_witness :
  exists v,
    apply_personalization
      (lookup (fun _ _ => Raised ValueError) ∅
              (snd (calculate_and_store_centroids one_vector empty_redis "T1")) 0 1)
      [1] "T1" None None (/ 4)
    = Returned v
    /\ norm v = 1
    /\ List.length v = List.length [1].
Proof.
  assert (H1 : norm [1] = 1).
  { unfold norm, sum_sq. simpl. replace (1 * 1 + 0) with 1 by ring. apply sqrt_1. }
  assert (H2 : 0 < norm [2 / INR 1]).
  { unfold norm, sum_sq. simpl.
    replace (2 / 1 * (2 / 1) + 0) with (2 * 2) by field.
    rewrite sqrt_square; lra. }
  assert (Ha : -1 < / 4 < 1) by lra.
  assert (Hstale : fresh_entry ∅ 0 (cache_key "T1" (resolve_tag None None)) = None)
    by reflexivity.
  destruct (personalization_after_build (fun _ _ => Raised ValueError) one_vector
              ∅ empty_redis 0 1 [1] "T1" None (/ 4) [2 / INR 1]
              H1 Ha eq_refl eq_refl H2 Hstale) as (v & Hv & Hn & Hl & _).
  exists v. split; [exact Hv|]. split; [exact Hn|exact Hl].
Defined.

Lemma column_sums_spec rest : forall first,
  (Forall (fun v => List.length v = List.length first) rest ->
   exists sums, column_sums first rest = Returned sums
                /\ List.length sums = List.length first)
  /\ (~ Forall (fun v => List.length v = List.length first) rest ->
      exists e, column_sums first rest = Raised e).
Proof.
  assert (Hzip : forall u v : vec, List.length v = List.length u ->
                   List.length (zip_with Rplus u v) = List.length u).
  { induction u as [|x u IH]; intros [|y v]; simpl; try discriminate; [reflexivity|].
    intros H. injection H as H. now rewrite IH. }
  induction rest as [|v rest IH]; intros first; simpl.
  - split; [eauto|]. intros H. exfalso. apply H. constructor.
  - destruct (Nat.eqb_spec (List.length v) (List.length first)) as [E|E].
    + destruct (IH (zip_with Rplus first v)) as (Hok & Hbad).
      rewrite (Hzip first v E) in Hok, Hbad. split.
      * intros Hall. apply Hok. exact (Forall_inv_tail Hall).
      * intros Hnot. apply Hbad. intros Hall. apply Hnot. now constructor.
    + split; [|eauto]. intros Hall. exfalso. apply E. exact (Forall_inv Hall).
Qed.

(** X22: when a centroid is computed.  [calculate_centroid] returns no
    centroid exactly when the list of vectors is empty or some vector has
    not the dimension of the first one; a centroid it returns has that
    dimension, and its norm is 1, or 0 when the mean vanishes. *)
Theorem calculate_centroid_defined (first : vec) (rest : list vec) :
  calculate_centroid [] = None
  /\ (calculate_centroid (first :: rest) = None
      <-> ~ Forall (fun v => List.length v = List.length first) rest)
  /\ (forall c, calculate_centroid (first :: rest) = Some c ->
        List.length c = List.length first /\ (norm c = 1 \/ norm c = 0)).
Proof.
  split; [reflexivity|].
  destruct (column_sums_spec rest first) as (Hok & Hbad).
  unfold calculate_centroid, mean.
  set (n := INR (List.length (first :: rest))).
  split.
  - split.
    + intros Hnone Hall. destruct (Hok Hall) as (sums & Hs & _).
      rewrite Hs in Hnone. discriminate.
    + intros Hnot. destruct (Hbad Hnot) as (e & He). now rewrite He.
  - intros c Hc.
    destruct (column_sums first rest) as [sums|e] eqn:Hs; simpl in Hc; [|discriminate].
    assert (Hlen : List.length sums = List.length first).
    { destruct (List.Forall_dec (fun v : vec => List.length v = List.length first)
                  (fun v => Nat.eq_dec (List.length v) (List.length first)) rest)
        as [Hall|Hnot].
      - destruct (Hok Hall) as (sums' & Hs' & Hl). now injection Hs' as <-.
      - destruct (Hbad Hnot) as (e & He). discriminate. }
    injection Hc as <-.
    destruct (Rlt_dec 0 (norm (div sums n))) as [Hpos|Hzero].
    + split; [now rewrite !div_length|]. left. now apply norm_div_norm.
    + split; [now rewrite div_length|]. right.
      assert (H0 : 0 <= norm (div sums n)) by apply sqrt_pos. lra.
Qed.

End PersonalizationPipelineProps.

(** ** The word overlap of the external scorer *)

Module OverlapProps.
Import Py RagBridge SortFacts ExternalProps TagProps.

Lemma filter_members (a l : list string) :
  incl l a ->
  List.filter (fun x => if in_dec string_dec x a then true else false) l = l.
Proof.
  induction l as [|x l IH]; intros Hincl; simpl; [reflexivity|].
  destruct (in_dec string_dec x a) as [_|Hnot].
  - f_equal. apply IH. intros y Hy. apply Hincl. now right.
  - exfalso. apply Hnot, Hincl. now left.
Qed.

Lemma inter_size_self a : inter_size a a = List.length a.
Proof. unfold inter_size. now rewrite filter_members by apply incl_refl. Qed.

Lemma to_set_nil l : to_set l = [] -> l = [].
Proof.
  unfold to_set. destruct l as [|x l]; [reflexivity|]. intros H.
  assert (Hin : In x (nodup string_dec (x :: l))) by (apply nodup_In; now left).
  rewrite H in Hin. destruct Hin.
Qed.

(** X23: the word overlap of the external scorer lies between 0 and 1,
    does not depend on the case of the query or of the text, is 0 for a
    query without words and is 1 for a text that is the query itself. *)
Theorem overlap_is_a_case_blind_fraction (query doc_text : string) :
  (0 <= overlap query doc_text <= 1)%Q
  /\ overlap (lower query) doc_text = overlap query doc_text
  /\ overlap query (lower doc_text) = overlap query doc_text
  /\ (split (lower query) = [] -> overlap query doc_text = 0%Q)
  /\ (split (lower query) <> [] -> (overlap query query == 1)%Q).
Proof.
  split; [apply overlap_range|].
  split; [unfold overlap; now rewrite lower_idem|].
  split; [unfold overlap; now rewrite lower_idem|].
  split.
  - intros Hnil. unfold overlap. now rewrite Hnil.
  - intros Hne. unfold overlap.
    destruct (to_set (split (lower query))) as [|w ws] eqn:Hset.
    + exfalso. apply Hne. now apply to_set_nil.
    + rewrite inter_size_self.
      assert (Hpos : (0 < nat_Q (List.length (w :: ws)))%Q)
        by (apply nat_Q_pos; simpl; lia).
      unfold Qdiv. apply Qmult_inv_r. intros E. rewrite E in Hpos. discriminate.
Qed.

End OverlapProps.

(** ** The rounding to binary64 on known doubles *)

Module Binary64Props.
Import Binary64.

(** The float literals of the bridge: 0.1, 1.2, 0.01, 0.25 and 1/61. *)
Lemma round64_literals :
  round64 (1 # 10) = 3602879701896397 # 36028797018963968
  /\ round64 (12 # 10) = 5404319552844595 # 4503599627370496
  /\ round64 (1 # 100) = 5764607523034235 # 576460752303423488
  /\ round64 (25 # 100) = 1 # 4
  /\ round64 (1 / 61) = 4725088133634619 # 288230376151711744.
Proof. vm_compute. repeat split; reflexivity. Qed.

(** 0.1 + 0.2 is 0.30000000000000004, and 0.13 - 0.01 is not 0.12. *)
Lemma round64_sums :
  round64 (round64 (1 # 10) + round64 (2 # 10)) = 1351079888211149 # 4503599627370496
  /\ round64 (round64 (13 # 100) - round64 (1 # 100))
     = 8646911284551353 # 72057594037927936
  /\ round64 (12 # 100) = 1080863910568919 # 9007199254740992.
Proof. vm_compute. repeat split; reflexivity. Qed.

(** A double rounds to itself. *)
Lemma round64_of_double :
  round64 (round64 (1 # 3)) = round64 (1 # 3)
  /\ round64 (round64 (1 / 61)) = round64 (1 / 61)
  /\ round64 (inject_Z (2 ^ 53)) = inject_Z (2 ^ 53)
  /\ round64 0 = 0%Q
  /\ round64 (- (1 # 10)) = Qopp (round64 (1 # 10)).
Proof. vm_compute. repeat split; reflexivity. Qed.

(** Ties go to the even significand: 2^53 + 1 and 2^53 + 3 are half way
    between two doubles. *)
Lemma round64_ties_to_even :
  round64 (inject_Z (2 ^ 53 + 1)) = inject_Z (2 ^ 53)
  /\ round64 (inject_Z (2 ^ 53 + 3)) = inject_Z (2 ^ 53 + 4).
Proof. vm_compute. repeat split; reflexivity. Qed.

(** The subnormal range: 2^-1074 is the least positive double, half of it
    rounds to 0 and three halves of it to twice it. *)
Lemma round64_subnormal :
  round64 (1 # 2 ^ 1074) = 1 # 2 ^ 1074
  /\ round64 (1 # 2 ^ 1075) = 0%Q
  /\ round64 (3 # 2 ^ 1075) = 1 # 2 ^ 1073.
Proof. vm_compute. repeat split; reflexivity. Qed.

End Binary64Props.

(** ** Reciprocal rank fusion in floating point *)

Module RrfFloatProps.
Import Py RagBridge Ranking FloatRanking SortFacts RrfProps Binary64 FloatDoubles.

Section Rounded.
Variable rnd : Q -> Q.

Lemma score_of_update_rounded src rank term d docs d' :
  has_key d docs = true ->
  score_of (update d (FloatBridge.add_rrf rnd src rank term) docs) d'
  = if String.eqb d d' then rnd (score_of docs d' + term)%Q else score_of docs d'.
Proof.
  unfold score_of.
  induction docs as [|h docs IH]; simpl; [discriminate|].
  intros Hkey.
  destruct (String.eqb (id h) d) eqn:Hhd; simpl.
  - apply String.eqb_eq in Hhd. subst d.
    destruct (String.eqb (id h) d') eqn:Hhd'; reflexivity.
  - simpl in Hkey.
    destruct (String.eqb (id h) d') eqn:Hhd'.
    + apply String.eqb_eq in Hhd'. subst d'.
      assert (Hne : String.eqb d (id h) = false).
      { rewrite String.eqb_sym. exact Hhd. }
      now rewrite Hne.
    + now apply IH.
Qed.

Lemma score_of_new docs r d' :
  has_key (id r) docs = false ->
  score_of (docs ++ [init_rrf r]) d' = score_of docs d'.
Proof.
  unfold score_of.
  induction docs as [|h docs IH]; simpl; intros Hkey.
  - destruct (String.eqb (id r) d'); reflexivity.
  - apply orb_false_iff in Hkey. destruct Hkey as [_ Hkey].
    destruct (String.eqb (id h) d'); [reflexivity|now apply IH].
Qed.

Lemma update_scored_rounded src rank term d docs :
  Forall scored docs ->
  Forall scored (update d (FloatBridge.add_rrf rnd src rank term) docs).
Proof.
  induction docs as [|h docs IH]; simpl; intros H; [constructor|].
  destruct (String.eqb (id h) d).
  - constructor; [reflexivity|exact (Forall_inv_tail H)].
  - constructor; [exact (Forall_inv H)|apply IH, (Forall_inv_tail H)].
Qed.

Lemma rrf_step_rounded src rank_of k docs r :
  0 < k ->
  exists docs',
    FloatBridge.rrf_step rnd src rank_of k docs r = Returned docs'
    /\ map id docs' = add_new (map id docs) (id r)
    /\ (forall d, score_of docs' d = acc_step rnd k rank_of d (score_of docs d) r)
    /\ (Forall scored docs -> Forall scored docs').
Proof.
  intros Hk. unfold FloatBridge.rrf_step, FloatBridge.rrf_term, acc_step.
  assert (Hnz : (k + get (rank_of r) 999 =? 0) = false) by (apply Nat.eqb_neq; lia).
  rewrite Hnz. simpl.
  eexists. split; [reflexivity|].
  unfold add_new. rewrite <- has_key_mem.
  destruct (has_key (id r) docs) eqn:Hkey.
  - split; [now apply update_ids|]. split.
    + intros d. now apply score_of_update_rounded.
    + apply update_scored_rounded.
  - split.
    + rewrite update_ids by reflexivity. now rewrite map_app.
    + split.
      * intros d. rewrite score_of_update_rounded by apply has_key_app_new.
        now rewrite score_of_new.
      * intros H. apply update_scored_rounded.
        apply Forall_app. split; [exact H|]. constructor; [reflexivity|constructor].
Qed.

Lemma rrf_loop_rounded src rank_of k results :
  0 < k ->
  forall docs,
  exists docs',
    FloatBridge.rrf_loop rnd src rank_of k docs results = Returned docs'
    /\ map id docs' = fold_left add_new (map id results) (map id docs)
    /\ (forall d, score_of docs' d = acc_terms rnd k rank_of results d (score_of docs d))
    /\ (Forall scored docs -> Forall scored docs').
Proof.
  intros Hk. induction results as [|r results IH]; intros docs; simpl.
  - exists docs. repeat split; auto.
  - destruct (rrf_step_rounded src rank_of k docs r Hk) as (docs1 & -> & Hids1 & Hsc1 & Hs1).
    simpl.
    destruct (IH docs1) as (docs2 & -> & Hids2 & Hsc2 & Hs2).
    exists docs2. split; [reflexivity|].
    split; [now rewrite Hids2, Hids1|].
    split; [|auto].
    intros d. rewrite Hsc2, Hsc1. reflexivity.
Qed.

(** The fusion returns the documents of [all_docs], sorted and numbered;
    each carries the score that the additions of the two loops leave. *)
Lemma reciprocal_rank_fusion_rounded_shape (sem lex : list hit) (k : nat) :
  0 < k ->
  exists docs,
    FloatBridge.reciprocal_rank_fusion rnd sem lex k
    = Returned (enumerate (fun i result => set_final_rank (i + 1) result)
                          (sorted_desc rrf_key docs))
    /\ map id docs = insertion_order sem lex
    /\ (forall h, In h docs -> rrf_key h = fl_rrf rnd k sem lex (id h))
    /\ Forall scored docs.
Proof.
  intros Hk. unfold FloatBridge.reciprocal_rank_fusion.
  destruct (rrf_loop_rounded Semantic semantic_rank k sem Hk [])
    as (docs1 & -> & Hids1 & Hsc1 & Hs1).
  simpl.
  destruct (rrf_loop_rounded Lexical lexical_rank k lex Hk docs1)
    as (docs2 & -> & Hids2 & Hsc2 & Hs2).
  simpl.
  assert (Hids : map id docs2 = insertion_order sem lex).
  { unfold insertion_order, first_seen. now rewrite fold_left_app, Hids2, Hids1. }
  exists docs2. split; [reflexivity|]. split; [exact Hids|]. split.
  - intros h Hin.
    assert (Hnd : List.NoDup (map id docs2)) by (rewrite Hids; apply first_seen_NoDup).
    rewrite <- (score_of_In docs2 h Hnd Hin).
    rewrite Hsc2, Hsc1. reflexivity.
  - apply Hs2, Hs1. constructor.
Qed.

(** With exact arithmetic the accumulated score is the sum of the terms. *)
Lemma acc_terms_exact k rank_of results d :
  (forall x, rnd x == x)%Q ->
  forall acc, (acc_terms rnd k rank_of results d acc
               == acc + sum_terms k rank_of results d)%Q.
Proof.
  intros Hexact. unfold acc_terms.
  induction results as [|r results IH]; intros acc; simpl; [ring|].
  rewrite IH. unfold acc_step.
  destruct (String.eqb (id r) d); [|ring].
  rewrite Hexact, Hexact. ring.
Qed.

(** C2 (amended): for every pair of ranked lists, every [k > 0] and every
    rounding of the float operations, the internal fusion returns each
    document of either list once, with the single score that the code
    accumulates for it: starting from 0 it adds [1 / (k + rank)] for every
    entry of the vector list and then of the lexical list that carries the
    document, each division and each addition rounded; in exact arithmetic
    that is the sum rrf(d) of the terms.  The fused list is in decreasing
    order of that score; documents whose computed scores are equal keep the
    order in which they were first met, the vector list being read first,
    so that on a tie every document of the vector list precedes every
    lexical-only one and the documents of one list keep the order of that
    list; no comparison of ids is made.  Final ranks are 1..N in list
    order. *)
Theorem reciprocal_rank_fusion_rounded_stable (sem lex : list hit) (k : nat) :
  0 < k ->
  exists fused,
    FloatBridge.reciprocal_rank_fusion rnd sem lex k = Returned fused
    /\ Permutation (map id fused) (insertion_order sem lex)
    /\ List.NoDup (map id fused)
    /\ (forall h, In h fused -> rrf_score h = Some (fl_rrf rnd k sem lex (id h)))
    /\ ((forall x, rnd x == x)%Q ->
        forall d, (fl_rrf rnd k sem lex d == rrf k sem lex d)%Q)
    /\ StronglySorted (desc rrf_key) fused
    /\ (forall v,
          map id (key_class rrf_key v fused)
          = List.filter (fun d => Qeq_bool (fl_rrf rnd k sem lex d) v)
                        (insertion_order sem lex))
    /\ (exists lexical_only,
          insertion_order sem lex = (first_seen (map id sem) ++ lexical_only)%list
          /\ forall d, In d lexical_only ->
                       In d (map id lex) /\ ~ In d (map id sem))
    /\ (forall i h, nth_error fused i = Some h -> final_rank h = Some (i + 1)).
Proof.
  intros Hk.
  destruct (reciprocal_rank_fusion_rounded_shape sem lex k Hk)
    as (docs & -> & Hids & Hscore & Hscored).
  assert (Hnd : List.NoDup (map id docs)).
  { rewrite Hids. apply first_seen_NoDup. }
  set (sorted := sorted_desc rrf_key docs).
  assert (Hmapid : map id (enumerate (fun i r => set_final_rank (i + 1) r) sorted)
                   = map id sorted).
  { unfold enumerate. now apply enumerate_from_map. }
  eexists. split; [reflexivity|].
  split.
  { rewrite Hmapid, <- Hids. apply Permutation_map, sorted_desc_perm. }
  split.
  { rewrite Hmapid.
    eapply Permutation_NoDup; [|exact Hnd].
    apply Permutation_map. symmetry. apply sorted_desc_perm. }
  split.
  { intros h Hin. unfold enumerate in Hin.
    apply enumerate_from_In in Hin. destruct Hin as (j & x & Hx & ->).
    apply sorted_desc_In in Hx. simpl.
    rewrite List.Forall_forall in Hscored. rewrite (Hscored x Hx).
    f_equal. now apply Hscore. }
  split.
  { intros Hexact d. unfold fl_rrf, rrf.
    rewrite (acc_terms_exact k lexical_rank lex d Hexact).
    rewrite (acc_terms_exact k semantic_rank sem d Hexact). ring. }
  split.
  { unfold enumerate. apply enumerate_sorted; [reflexivity|].
    apply sorted_desc_sorted. }
  split.
  { intros v. unfold enumerate.
    rewrite (enumerate_class rrf_key _ id v sorted) by reflexivity.
    unfold sorted. rewrite sorted_desc_stable. rewrite <- Hids.
    apply map_filter_ids. intros h Hin. now rewrite (Hscore h Hin). }
  split; [apply insertion_order_vector_first|].
  now apply numbered_enumerate.
Qed.

End Rounded.

(** C2, as stated, breaks a tie by the lower doc_id.  In floating point the
    documents "A" and "B", each at rank 1 in one list and at rank 2 in the
    other, both score 0.03252247488101534; the code returns "B", the first
    one met (in the vector list), before "A". *)
Lemma rrf_tie_keeps_first_met :
  exists fused,
    FloatBridge.reciprocal_rank_fusion round64 Doubles.tie_semantic Doubles.tie_lexical 60
    = Returned fused
    /\ map id fused = ["B"; "A"]
    /\ map rrf_score fused
       = [Some (146468205755307 # 4503599627370496);
          Some (146468205755307 # 4503599627370496)]
    /\ adjacent_ok (spec_rrf_before Doubles.tie_semantic) fused = false.
Proof. eexists. vm_compute. repeat split; reflexivity. Qed.

(** Where the rounding decides: 1/88 + 1/72 and 1/99 + 1/66 are the same
    rational, 5/198, and differ as floats, so that "Y" is ranked before "X";
    in exact arithmetic the two tie and "X", met first, stays first. *)
Lemma rounding_decides_a_rational_tie :
  (exists fused,
      FloatBridge.reciprocal_rank_fusion round64 near_tie_semantic near_tie_lexical 60
      = Returned fused
      /\ map id fused = ["Y"; "X"]
      /\ map rrf_score fused
         = [Some (3639272426157977 # 144115188075855872);
            Some (7278544852315953 # 288230376151711744)])
  /\ (exists fused,
        FloatBridge.reciprocal_rank_fusion (fun x => x) near_tie_semantic
                                           near_tie_lexical 60
        = Returned fused
        /\ map id fused = ["X"; "Y"]).
Proof. split; eexists; vm_compute; repeat split; reflexivity. Qed.

Lemma reciprocal_rank_fusion_rounded_stable_witness :
  0 < 60
  /\ exists fused,
       FloatBridge.reciprocal_rank_fusion round64 near_tie_semantic near_tie_lexical 60
       = Returned fused
       /\ Permutation (map id fused) (insertion_order near_tie_semantic near_tie_lexical)
       /\ List.NoDup (map id fused)
       /\ (forall h, In h fused ->
             rrf_score h
             = Some (fl_rrf round64 60 near_tie_semantic near_tie_lexical (id h))).
Proof.
  split; [lia|].
  destruct (reciprocal_rank_fusion_rounded_stable round64 near_tie_semantic
              near_tie_lexical 60) as (fused & H1 & H2 & H3 & H4 & _); [lia|].
  exists fused. auto.
Defined.

End RrfFloatProps.

(** ** The combine step in floating point *)

Module FuseFloatProps.
Import Py RagBridge Ranking FloatRanking SortFacts RrfProps Binary64 FloatDoubles.

Section Rounded.
Variable rnd : Q -> Q.

Lemma sort_key_internal_rounded h :
  internal_candidate h ->
  FloatBridge.get_sort_key rnd (set_fusion_source FusionInternal h) = rrf_key h.
Proof.
  intros (r & Hr & Hpos). unfold FloatBridge.get_sort_key, rrf_key. simpl.
  rewrite Hr. simpl.
  destruct (Qlt_le_dec 0 r) as [_|Hle]; [reflexivity|].
  exfalso. apply (Qlt_not_le _ _ Hpos Hle).
Qed.

Lemma sort_key_external_rounded h :
  external_candidate h ->
  FloatBridge.get_sort_key rnd (set_fusion_source FusionExternal h) = boosted rnd h.
Proof.
  unfold external_candidate, FloatBridge.get_sort_key, boosted, score_key. simpl.
  intros ->. simpl.
  destruct (Qlt_le_dec 0 0) as [Hlt|_]; [|reflexivity].
  exfalso. exact (Qlt_irrefl 0 Hlt).
Qed.

Lemma class_of_marked_by (sort_key : hit -> Q) (mark : hit -> hit) (key : hit -> Q) v l :
  (forall h, id (mark h) = id h) ->
  (forall h, In h l -> sort_key (mark h) = key h) ->
  map id (key_class sort_key v (map mark l)) = map id (key_class key v l).
Proof.
  intros Hid. unfold key_class.
  induction l as [|h l IH]; simpl; intros Hkey; [reflexivity|].
  rewrite (Hkey h) by now left.
  destruct (Qeq_bool (key h) v); simpl; [rewrite Hid|]; rewrite IH; auto.
Qed.

Lemma fuse_rounded_numbered internal external :
  numbered (FloatBridge.fuse_internal_and_external rnd internal external).
Proof. unfold FloatBridge.fuse_internal_and_external. now apply numbered_enumerate. Qed.

(** C3 (amended): in the combine step, for every rounding of the float
    operations, every candidate receives an effective score, the rrf score
    of an internal candidate (whose rrf_score is positive) and the external
    score multiplied by 1.2, rounded, for an external one; the candidates
    are sorted by effective score descending, and candidates whose computed
    effective scores are equal keep their input order, internal candidates
    (in fused order) before external ones (in their ranked order), with no
    comparison of origin or id; final_rank 1..N is assigned in list order,
    and for [k_total >= 0] the result is cut to its first [k_total] hits. *)
Theorem fuse_internal_and_external_rounded_stable
        (internal external : list hit) (k_total : Z) :
  Forall internal_candidate internal ->
  Forall external_candidate external ->
  (0 <= k_total)%Z ->
  let sort_key := FloatBridge.get_sort_key rnd in
  let fused := FloatBridge.fuse_internal_and_external rnd internal external in
  let final := slice_to k_total fused in
  Permutation (map id fused) (map id internal ++ map id external)
  /\ (forall h, In h fused ->
        fusion_score h = Some (sort_key h)
        /\ ((fusion_source h = Some FusionInternal /\ sort_key h = rrf_key h)
            \/ (fusion_source h = Some FusionExternal
                /\ sort_key h = boosted rnd h)))
  /\ StronglySorted (desc sort_key) fused
  /\ (forall v,
        map id (key_class sort_key v fused)
        = (map id (key_class rrf_key v internal)
           ++ map id (key_class (boosted rnd) v external))%list)
  /\ (forall i h, nth_error fused i = Some h -> final_rank h = Some (i + 1))
  /\ final = firstn (Z.to_nat k_total) fused
  /\ (Z.of_nat (List.length final) <= k_total)%Z
  /\ (forall i h, nth_error final i = Some h -> final_rank h = Some (i + 1)).
Proof.
  intros Hint Hext Hk sort_key fused final.
  set (combined := (map (set_fusion_source FusionInternal) internal
                    ++ map (set_fusion_source FusionExternal) external)%list).
  set (sorted := sorted_desc sort_key combined).
  set (number := fun (i : nat) (result : hit) =>
                   set_fusion_score (sort_key result)
                                    (set_final_rank (i + 1) result)).
  assert (Hfused : fused = enumerate_from number 0 sorted) by reflexivity.
  assert (Hranks : numbered fused) by apply fuse_rounded_numbered.
  split.
  { rewrite Hfused, (enumerate_from_map number id id) by reflexivity.
    unfold sorted. rewrite (Permutation_map id (sorted_desc_perm _ combined)).
    unfold combined. rewrite map_app, !map_map. simpl. reflexivity. }
  split.
  { intros h Hin. rewrite Hfused in Hin.
    apply enumerate_from_In in Hin. destruct Hin as (j & x & Hx & ->).
    split; [reflexivity|].
    apply sorted_desc_In in Hx. unfold combined in Hx.
    apply in_app_or in Hx. destruct Hx as [Hx|Hx];
      apply in_map_iff in Hx; destruct Hx as (y & <- & Hy).
    - left. split; [reflexivity|].
      rewrite List.Forall_forall in Hint.
      exact (sort_key_internal_rounded y (Hint y Hy)).
    - right. split; [reflexivity|].
      rewrite List.Forall_forall in Hext.
      exact (sort_key_external_rounded y (Hext y Hy)). }
  split.
  { rewrite Hfused. apply enumerate_sorted; [reflexivity|].
    apply sorted_desc_sorted. }
  split.
  { intros v. rewrite Hfused.
    rewrite (enumerate_class sort_key number id v sorted) by reflexivity.
    unfold sorted. rewrite sorted_desc_stable.
    unfold combined, key_class. rewrite List.filter_app, map_app.
    fold (key_class sort_key v (map (set_fusion_source FusionInternal) internal)).
    fold (key_class sort_key v (map (set_fusion_source FusionExternal) external)).
    rewrite (class_of_marked_by sort_key _ rrf_key),
            (class_of_marked_by sort_key _ (boosted rnd)); try reflexivity.
    - intros h Hin. rewrite List.Forall_forall in Hext.
      exact (sort_key_external_rounded h (Hext h Hin)).
    - intros h Hin. rewrite List.Forall_forall in Hint.
      exact (sort_key_internal_rounded h (Hint h Hin)). }
  split; [exact Hranks|].
  assert (Hfinal : final = firstn (Z.to_nat k_total) fused).
  { unfold final, slice_to. destruct (Z.leb_spec 0 k_total); [reflexivity|lia]. }
  split; [exact Hfinal|].
  split; [now apply slice_to_length|].
  now apply numbered_slice_to.
Qed.

End Rounded.

(** C3, as stated, breaks ties by origin (external first) and then by
    ascending id.  The code sorts on the effective score alone and keeps
    the input order on a tie.  In floating point: the internal "doc", of
    rrf score 1/61 = 0.01639344262295082, stays before the external "ext",
    whose score 0.013661202185792351 times 1.2 is the same double; and the
    external documents "z" and "a", both of score 0.5, come out as "z",
    "a". *)
Lemma fuse_tie_keeps_input_order :
  map rrf_score fused_one_lexical = [Some (4725088133634619 # 288230376151711744)]
  /\ map (fun h => (id h, fusion_score h))
         (FloatBridge.fuse_internal_and_external round64 fused_one_lexical
                                                 boosted_to_1_61)
     = [("doc", Some (4725088133634619 # 288230376151711744));
        ("ext", Some (4725088133634619 # 288230376151711744))]
  /\ adjacent_ok (spec_fuse_before round64)
       (FloatBridge.fuse_internal_and_external round64 fused_one_lexical
                                               boosted_to_1_61) = false
  /\ map (fun h => (id h, fusion_score h))
         (FloatBridge.fuse_internal_and_external round64 [] equal_externals)
     = [("z", Some (5404319552844595 # 9007199254740992));
        ("a", Some (5404319552844595 # 9007199254740992))]
  /\ adjacent_ok (spec_fuse_before round64)
       (FloatBridge.fuse_internal_and_external round64 [] equal_externals) = false.
Proof. vm_compute. repeat split; reflexivity. Qed.

Lemma fuse_internal_and_external_rounded_stable_witness :
  let fused := FloatBridge.fuse_internal_and_external round64 fused_one_lexical
                                                      boosted_to_1_61 in
  Permutation (map id fused) (map id fused_one_lexical ++ map id boosted_to_1_61)
  /\ StronglySorted (desc (FloatBridge.get_sort_key round64)) fused
  /\ (forall v,
        map id (key_class (FloatBridge.get_sort_key round64) v fused)
        = (map id (key_class rrf_key v fused_one_lexical)
           ++ map id (key_class (boosted round64) v boosted_to_1_61))%list).
Proof.
  intros fused.
  destruct (fuse_internal_and_external_rounded_stable round64 fused_one_lexical
              boosted_to_1_61 2) as (H1 & _ & H3 & H4 & _).
  - repeat constructor. eexists. split; [vm_compute; reflexivity|reflexivity].
  - repeat constructor.
  - lia.
  - split; [exact H1|]. split; [exact H3|exact H4].
Defined.

End FuseFloatProps.

(** ** The scorer of external documents in floating point *)

Module ScorerFloatProps.
Import Py PyBase RagBridge Ranking FloatRanking SortFacts RrfProps Binary64 FloatDoubles.
Import FloatBridge.

Lemma bind_result_no_base {A B} (m : result A) (f : A -> result B) :
  no_base m -> (forall a, no_base (f a)) -> no_base (bind_result m f).
Proof.
  intros Hm Hf b. destruct m as [a|s]; simpl; [apply Hf|].
  intros H. injection H as ->. apply (Hm b). reflexivity.
Qed.

Lemma except_Exception_no_base {A} (m : result A) (handler : exn -> result A) :
  no_base m -> (forall e, no_base (handler e)) -> no_base (except_Exception m handler).
Proof.
  intros Hm Hh b. destruct m as [a|[e|b']]; simpl; [discriminate|apply Hh|].
  intros H. apply (Hm b'). reflexivity.
Qed.

Lemma lift_no_base {A} (o : outcome A) : no_base (lift o).
Proof. intros b. destruct o; discriminate. Qed.

Lemma Ok_no_base {A} (a : A) : no_base (Ok a).
Proof. intros b. discriminate. Qed.

Section Scorer.
Variable rnd : Q -> Q.
Context {Vec : Type} `{Sv : Services Vec}.

Lemma get_query_embedding_no_base j text :
  no_base (embed_query text) -> no_base (get_query_embedding j text).
Proof.
  intros H. unfold get_query_embedding.
  apply except_Exception_no_base; [exact H|]. intros e. apply Ok_no_base.
Qed.

(** The similarity step returns a score: what it raises within class
    [Exception] is caught. *)
Lemma with_similarity_returns qv i text final_score :
  qv = None \/ (forall t, no_base (embed_query t)) ->
  exists s, with_similarity rnd qv i text final_score = Ok s.
Proof.
  intros Hsafe. unfold with_similarity.
  destruct qv as [v|]; [|eauto].
  destruct Hsafe as [Hnone|Hsafe]; [discriminate|].
  destruct (nonempty_str text); [|eauto].
  pose proof (get_query_embedding_no_base (S i) (take_str 1000 text) (Hsafe _)) as Hq.
  destruct (get_query_embedding (S i) (take_str 1000 text)) as [emb|[e|b]]; simpl.
  - destruct (np_dot v emb); simpl; eauto.
  - eauto.
  - exfalso. apply (Hq b). reflexivity.
Qed.

Lemma external_hit_cases query qv i doc :
  qv = None \/ (forall t, no_base (embed_query t)) ->
  (raw_priority doc = Null ->
   external_hit rnd query qv i doc = Throw (Exc TypeError))
  /\ (numeric_priority doc ->
      exists h, external_hit rnd query qv i doc = Ok h
                /\ external_rank h = Some (i + 1)
                /\ source h = External
                /\ rrf_score h = None
                /\ id h = get (raw_src_id doc) ("external_doc_" ++ str_of_nat i)).
Proof.
  intros Hsafe. unfold external_hit, numeric_priority. split.
  - intros ->. reflexivity.
  - intros Hnum.
    destruct (raw_priority doc) as [| |p]; [|congruence|]; simpl;
      match goal with
      | |- context [with_similarity rnd qv ?j ?t ?f] =>
          destruct (with_similarity_returns qv j t f Hsafe) as (s & ->)
      end; simpl; eexists; repeat split.
Qed.

Lemma external_hits_cases query qv docs :
  qv = None \/ (forall t, no_base (embed_query t)) ->
  forall i,
    (Exists (fun d => raw_priority d = Null) docs ->
     external_hits rnd query qv i docs = Throw (Exc TypeError))
    /\ (Forall numeric_priority docs ->
        exists scored,
          external_hits rnd query qv i docs = Ok scored
          /\ List.length scored = List.length docs
          /\ Forall (fun h => source h = External /\ rrf_score h = None) scored
          /\ (forall j h, nth_error scored j = Some h ->
                external_rank h = Some (i + j + 1))).
Proof.
  intros Hsafe. induction docs as [|doc docs IH]; intros i.
  - split; [intros H; inversion H|].
    intros _. exists []. simpl. repeat split; [constructor|].
    intros [|j] h H; discriminate.
  - destruct (external_hit_cases query qv i doc Hsafe) as (Hnull & Hnum).
    destruct (IH (S i)) as (IHnull & IHnum). split.
    + intros Hex. simpl.
      destruct (raw_priority doc) as [| |p] eqn:Hp.
      * destruct Hnum as (h & -> & _); [unfold numeric_priority; congruence|].
        simpl. rewrite IHnull; [reflexivity|].
        inversion Hex as [? ? H0|? ? H0]; subst; [congruence|exact H0].
      * now rewrite Hnull.
      * destruct Hnum as (h & -> & _); [unfold numeric_priority; congruence|].
        simpl. rewrite IHnull; [reflexivity|].
        inversion Hex as [? ? H0|? ? H0]; subst; [congruence|exact H0].
    + intros Hall. simpl.
      destruct (Hnum (Forall_inv Hall)) as (h & -> & Hrank & Hsrc & Hrrf & _).
      destruct (IHnum (Forall_inv_tail Hall)) as (scored & -> & Hlen & Hext & Hranks).
      simpl. exists (h :: scored). split; [reflexivity|].
      split; [simpl; now rewrite Hlen|].
      split; [constructor; [split; assumption|exact Hext]|].
      intros [|j] h' Hnth; simpl in Hnth.
      * injection Hnth as <-. rewrite Hrank. f_equal. lia.
      * rewrite (Hranks j h' Hnth). f_equal. lia.
Qed.

(** The scorer by cases: a document with [priority: None] makes the whole
    call return the empty list; otherwise the scored documents are sorted
    and numbered. *)
Lemma process_external_docs_cases docs query qv :
  qv = None \/ (forall t, no_base (embed_query t)) ->
  (Exists (fun d => raw_priority d = Null) docs ->
   process_external_docs rnd docs query qv = Ok [])
  /\ (Forall numeric_priority docs ->
      exists scored,
        external_hits rnd query qv 0 docs = Ok scored
        /\ List.length scored = List.length docs
        /\ Forall (fun h => source h = External /\ rrf_score h = None) scored
        /\ (forall j h, nth_error scored j = Some h -> external_rank h = Some (j + 1))
        /\ process_external_docs rnd docs query qv
           = Ok (enumerate (fun i hit => set_final_external_rank (i + 1) hit)
                           (sorted_desc score_key scored))).
Proof.
  intros Hsafe.
  destruct (external_hits_cases query qv docs Hsafe 0) as (Hnull & Hnum). split.
  - intros Hex. unfold process_external_docs.
    destruct docs as [|d docs]; [reflexivity|]. now rewrite (Hnull Hex).
  - intros Hall. destruct (Hnum Hall) as (scored & Hs & Hlen & Hext & Hranks).
    exists scored. split; [exact Hs|]. split; [exact Hlen|]. split; [exact Hext|].
    split; [exact Hranks|].
    unfold process_external_docs. destruct docs as [|d docs].
    + simpl in Hs. injection Hs as <-. reflexivity.
    + now rewrite Hs.
Qed.

(** X2: the scorer of external documents, for every rounding of the float
    operations, when there is no query vector or no embedding call is
    interrupted.  When a document
    carries [priority: None] the subtraction of line 222 raises outside the
    inner handler and the call returns the empty list.  Otherwise it
    returns one hit per document, carrying the id, score and input position
    (external_rank) of its document; the hits are in decreasing order of
    the computed scores, documents whose computed scores are equal keep
    their input order, and final_external_rank numbers the hits 1..N in
    list order. *)
Theorem process_external_docs_rounded_ranked
        (docs : list raw_doc) (query : string) (qv : option Vec) :
  qv = None \/ (forall t, no_base (embed_query t)) ->
  let view := fun h : hit => (id h, score h, external_rank h) in
  (Exists (fun d => raw_priority d = Null) docs ->
   process_external_docs rnd docs query qv = Ok [])
  /\ (Forall numeric_priority docs ->
      exists scored hits,
        external_hits rnd query qv 0 docs = Ok scored
        /\ process_external_docs rnd docs query qv = Ok hits
        /\ List.length hits = List.length docs
        /\ Permutation (map view hits) (map view scored)
        /\ StronglySorted (desc score_key) hits
        /\ (forall v, map view (key_class score_key v hits)
                      = map view (key_class score_key v scored))
        /\ (forall i h, nth_error hits i = Some h ->
              final_external_rank h = Some (i + 1))
        /\ (forall i h, nth_error scored i = Some h -> external_rank h = Some (i + 1))).
Proof.
  intros Hsafe view.
  destruct (process_external_docs_cases docs query qv Hsafe) as (Hnull & Hnum).
  split; [exact Hnull|].
  intros Hall. destruct (Hnum Hall) as (scored & Hs & Hlen & _ & Hranks & Hp).
  exists scored. eexists. split; [exact Hs|]. split; [exact Hp|].
  unfold enumerate. split.
  { now rewrite enumerate_from_length, sorted_desc_length. }
  split.
  { rewrite (enumerate_from_map _ view view) by reflexivity.
    apply Permutation_map, sorted_desc_perm. }
  split; [apply enumerate_sorted; [reflexivity|apply sorted_desc_sorted]|].
  split.
  { intros v. rewrite (enumerate_class score_key _ view v) by reflexivity.
    now rewrite sorted_desc_stable. }
  split; [|exact Hranks].
  intros i h Hnth. rewrite enumerate_from_nth in Hnth. simpl in Hnth.
  destruct (nth_error _ i); [|discriminate]. injection Hnth as <-. reflexivity.
Qed.

End Scorer.

(** Where the rounding decides: with priorities 0.12 and 0.13 the second
    document, 0.13 - 0.01, scores 0.09600000000000002 against 0.096 and is
    ranked first, although 0.12 and 0.13 - 0.01 are the same decimal.  And
    a [priority: None] empties the answer. *)
Lemma rounding_orders_external_docs :
  fmap (map (fun h => (id h, score h)))
       (process_external_docs round64 (Sv := healthy) close_docs "x" None)
  = Ok [("later", Some (6917529027641083 # 72057594037927936));
        ("first", Some (3458764513820541 # 36028797018963968))]
  /\ process_external_docs round64 (Sv := healthy) null_priority_docs "x" None = Ok [].
Proof. vm_compute. repeat split; reflexivity. Qed.

Lemma process_external_docs_rounded_ranked_witness :
  (forall t, no_base (embed_query (Services := healthy) t))
  /\ process_external_docs round64 (Sv := healthy) null_priority_docs "x" (Some [1%Q])
     = Ok []
  /\ exists scored hits,
       external_hits round64 (Sv := healthy) "x" (Some [1%Q]) 0 close_docs = Ok scored
       /\ process_external_docs round64 (Sv := healthy) close_docs "x" (Some [1%Q])
          = Ok hits
       /\ List.length hits = List.length close_docs
       /\ StronglySorted (desc score_key) hits.
Proof.
  assert (Hsafe : forall t, no_base (embed_query (Services := healthy) t))
    by (intros t b; discriminate).
  split; [exact Hsafe|].
  destruct (process_external_docs_rounded_ranked round64 (Sv := healthy)
              null_priority_docs "x" (Some [1%Q]) (or_intror Hsafe)) as (Hnull & _).
  destruct (process_external_docs_rounded_ranked round64 (Sv := healthy)
              close_docs "x" (Some [1%Q]) (or_intror Hsafe)) as (_ & Hnum).
  split.
  - apply Hnull. right. left. reflexivity.
  - destruct Hnum as (scored & hits & H1 & H2 & H3 & _ & H5 & _).
    + repeat constructor; discriminate.
    + exists scored, hits. auto.
Defined.

End ScorerFloatProps.

(** ** The federated search in floating point, with every handler *)

Module SearchFloatProps.
Import Py PyBase RagBridge Ranking FloatRanking SortFacts RrfProps Binary64 FloatDoubles.
Import FloatBridge ScorerFloatProps.

Lemma numeric_or_null (docs : list raw_doc) :
  Forall numeric_priority docs \/ Exists (fun d => raw_priority d = Null) docs.
Proof.
  induction docs as [|d docs IH]; [left; constructor|].
  destruct (raw_priority d) as [| |p] eqn:Hp.
  - destruct IH as [IH|IH]; [left|right; now right].
    constructor; [unfold numeric_priority; congruence|exact IH].
  - right. now left.
  - destruct IH as [IH|IH]; [left|right; now right].
    constructor; [unfold numeric_priority; congruence|exact IH].
Qed.

Section Search.
Variable rnd : Q -> Q.
Context {Vec : Type} `{Sv : Services Vec}.

Lemma semantic_search_no_base v tenant_id k :
  no_base (qdrant_search v tenant_id k) -> no_base (semantic_search v tenant_id k).
Proof.
  intros H. unfold semantic_search.
  apply except_Exception_no_base; [|intros e; apply Ok_no_base].
  apply bind_result_no_base; [exact H|intros rows; apply Ok_no_base].
Qed.

Lemma resolve_query_vector_no_base query tenant_id alpha enable use_internal :
  within_Exception Sv ->
  no_base (resolve_query_vector rnd query tenant_id alpha enable use_internal).
Proof.
  intros (Hembed & _ & Hpers). unfold resolve_query_vector.
  destruct use_internal; [|apply Ok_no_base].
  apply bind_result_no_base; [apply get_query_embedding_no_base, Hembed|].
  intros v. destruct enable; [|apply Ok_no_base].
  apply bind_result_no_base; [apply Hpers|].
  intros pv. apply bind_result_no_base; [apply lift_no_base|].
  intros s. apply Ok_no_base.
Qed.

Lemma process_external_docs_returns docs query qv :
  qv = None \/ (forall t, no_base (embed_query t)) ->
  exists hits, process_external_docs rnd docs query qv = Ok hits.
Proof.
  intros Hsafe.
  destruct (process_external_docs_cases rnd docs query qv Hsafe) as (Hnull & Hnum).
  destruct (numeric_or_null docs) as [Hall|Hex].
  - destruct (Hnum Hall) as (scored & _ & _ & _ & _ & Hp). eauto.
  - rewrite (Hnull Hex). eauto.
Qed.

Lemma search_from_no_base qv query tenant_id k_total alpha enable docs use_internal ms :
  (qv = None /\ True) \/ within_Exception Sv ->
  no_base (search_from rnd qv query tenant_id k_total alpha enable docs use_internal ms).
Proof.
  intros Hsafe. unfold search_from.
  apply bind_result_no_base.
  { destruct qv as [v|]; [|apply Ok_no_base].
    destruct Hsafe as [(Hnone & _)|(_ & Hq & _)]; [discriminate|].
    destruct use_internal; [|apply Ok_no_base].
    apply bind_result_no_base; [apply semantic_search_no_base, Hq|].
    intros sem. apply Ok_no_base. }
  intros internal. apply bind_result_no_base.
  { destruct (falsy docs); [apply Ok_no_base|].
    destruct (process_external_docs_returns (get docs []) query qv) as (hits & ->).
    - destruct Hsafe as [(Hnone & _)|(He & _)]; [now left|now right].
    - simpl. apply Ok_no_base. }
  intros ephemeral. destruct (internal ++ ephemeral)%list; [apply Ok_no_base|].
  apply bind_result_no_base; [apply lift_no_base|]. intros fused. apply Ok_no_base.
Qed.

Lemma federated_search_body_no_base
      query tenant_id k_total alpha enable docs use_internal ms :
  within_Exception Sv ->
  no_base (federated_search_body rnd query tenant_id k_total alpha enable docs
                                 use_internal ms).
Proof.
  intros Hw. unfold federated_search_body.
  destruct (negb use_internal && falsy docs); [apply Ok_no_base|].
  apply bind_result_no_base; [now apply resolve_query_vector_no_base|].
  intros qv. apply search_from_no_base. now right.
Qed.

(** What every returned hit carries as [search_metadata]. *)
Lemma search_from_metadata
      qv query tenant_id k_total alpha enable docs use_internal ms founds :
  search_from rnd qv query tenant_id k_total alpha enable docs use_internal ms
  = Ok founds ->
  Forall (fun f =>
            md_query (found_metadata f) = query
            /\ md_tenant_id (found_metadata f) = tenant_id
            /\ personalization_enabled (found_metadata f) = enable
            /\ md_personalization_alpha (found_metadata f) = alpha_or_default rnd alpha
            /\ md_use_internal_rag (found_metadata f) = use_internal
            /\ final_results_count (found_metadata f) = List.length founds
            /\ execution_time_ms (found_metadata f) = ms) founds.
Proof.
  unfold search_from.
  match goal with
  | |- bind_result ?m _ = _ -> _ => destruct m as [internal|s]; simpl; [|discriminate]
  end.
  match goal with
  | |- bind_result ?m _ = _ -> _ => destruct m as [ephemeral|s]; simpl; [|discriminate]
  end.
  destruct (internal ++ ephemeral)%list as [|p all_results] eqn:Hall.
  - intros H. injection H as <-. constructor.
  - match goal with
    | |- bind_result ?m _ = _ -> _ => destruct m as [fused|s]; simpl; [|discriminate]
    end.
    intros H. injection H as <-.
    apply List.Forall_forall. intros f Hin.
    apply in_map_iff in Hin. destruct Hin as (r & <- & _). simpl.
    rewrite length_map. repeat split.
Qed.

(** The result dictionaries do not depend on the arguments that only the
    metadata records. *)
Lemma search_from_hits
      qv query tenant_id k_total alpha alpha' enable enable' docs use_internal ms ms' :
  hits_of (search_from rnd qv query tenant_id k_total alpha enable docs use_internal ms)
  = hits_of (search_from rnd qv query tenant_id k_total alpha' enable' docs
                         use_internal ms').
Proof.
  unfold search_from.
  match goal with
  | |- hits_of (bind_result ?m _) = _ => destruct m as [internal|s]; simpl; [|reflexivity]
  end.
  match goal with
  | |- hits_of (bind_result ?m _) = _ => destruct m as [ephemeral|s]; simpl; [|reflexivity]
  end.
  destruct (internal ++ ephemeral)%list as [|p all_results]; [reflexivity|].
  match goal with
  | |- hits_of (bind_result ?m _) = _ => destruct m as [fused|s]; simpl; [|reflexivity]
  end.
  rewrite !map_map. reflexivity.
Qed.

Lemma federated_search_metadata
      query tenant_id k_total alpha enable docs use_internal ms founds :
  federated_search rnd query tenant_id k_total alpha enable docs use_internal ms
  = Ok founds ->
  Forall (fun f =>
            md_query (found_metadata f) = query
            /\ md_tenant_id (found_metadata f) = tenant_id
            /\ personalization_enabled (found_metadata f) = enable
            /\ md_personalization_alpha (found_metadata f) = alpha_or_default rnd alpha
            /\ md_use_internal_rag (found_metadata f) = use_internal
            /\ final_results_count (found_metadata f) = List.length founds
            /\ execution_time_ms (found_metadata f) = ms) founds.
Proof.
  unfold federated_search, federated_search_body.
  destruct (negb use_internal && falsy docs).
  { simpl. intros H. injection H as <-. constructor. }
  destruct (resolve_query_vector rnd query tenant_id alpha enable use_internal)
    as [qv|[e|b]]; simpl.
  - destruct (search_from rnd qv query tenant_id k_total alpha enable docs use_internal ms)
      as [l|[e|b]] eqn:Hs; simpl.
    + intros H. injection H as <-. now apply search_from_metadata in Hs.
    + intros H. injection H as <-. constructor.
    + discriminate.
  - intros H. injection H as <-. constructor.
  - discriminate.
Qed.

(** The handler of [federated_search] lets no exception of class
    [Exception] out. *)
Lemma federated_search_no_Exception
      query tenant_id k_total alpha enable docs use_internal ms e :
  federated_search rnd query tenant_id k_total alpha enable docs use_internal ms
  <> Throw (Exc e).
Proof.
  unfold federated_search.
  destruct (federated_search_body rnd query tenant_id k_total alpha enable docs
                                  use_internal ms) as [founds|[e'|b]];
    simpl; discriminate.
Qed.

(** With no service interrupted the search returns a list. *)
Lemma federated_search_returns
      query tenant_id k_total alpha enable docs use_internal ms :
  within_Exception Sv ->
  exists founds,
    federated_search rnd query tenant_id k_total alpha enable docs use_internal ms
    = Ok founds.
Proof.
  intros Hw.
  pose proof (federated_search_body_no_base query tenant_id k_total alpha enable
                docs use_internal ms Hw) as Hbase.
  unfold federated_search.
  destruct (federated_search_body rnd query tenant_id k_total alpha enable docs
                                  use_internal ms) as [founds|[e|b]]; simpl.
  - eauto.
  - eauto.
  - exfalso. now apply (Hbase b).
Qed.

(** An interruption of the semantic search (the [await] of line 398)
    leaves [search_from] as it came. *)
Lemma search_from_interrupted
      qv query tenant_id k_total alpha enable docs ms b :
  semantic_search qv tenant_id (Z.min (k_total * 2) 50) = Throw (Base b) ->
  search_from rnd (Some qv) query tenant_id k_total alpha enable docs true ms
  = Throw (Base b).
Proof. intros Hsem. unfold search_from. now rewrite Hsem. Qed.

(** What the search returns is a fused list cut to [k_total]. *)
Lemma search_from_cut
      qv query tenant_id k_total alpha enable docs use_internal ms founds :
  search_from rnd qv query tenant_id k_total alpha enable docs use_internal ms
  = Ok founds ->
  exists fused, map found_hit founds = slice_to k_total fused.
Proof.
  unfold search_from.
  match goal with
  | |- bind_result ?m _ = _ -> _ => destruct m as [internal|s]; simpl; [|discriminate]
  end.
  match goal with
  | |- bind_result ?m _ = _ -> _ => destruct m as [ephemeral|s]; simpl; [|discriminate]
  end.
  destruct (internal ++ ephemeral)%list as [|p all_results].
  - intros H. injection H as <-. exists []. simpl.
    unfold slice_to. destruct (0 <=? k_total)%Z; now rewrite firstn_nil.
  - match goal with
    | |- bind_result ?m _ = _ -> _ => destruct m as [fused|s]; simpl; [|discriminate]
    end.
    intros H. injection H as <-. exists fused.
    rewrite map_map. simpl. apply map_id.
Qed.

Lemma federated_search_cut
      query tenant_id k_total alpha enable docs use_internal ms founds :
  federated_search rnd query tenant_id k_total alpha enable docs use_internal ms
  = Ok founds ->
  exists fused, map found_hit founds = slice_to k_total fused.
Proof.
  assert (Hnil : exists fused : list hit, map found_hit [] = slice_to k_total fused).
  { exists []. simpl. unfold slice_to. destruct (0 <=? k_total)%Z; now rewrite firstn_nil. }
  unfold federated_search, federated_search_body.
  destruct (negb use_internal && falsy docs).
  { simpl. intros H. injection H as <-. exact Hnil. }
  destruct (resolve_query_vector rnd query tenant_id alpha enable use_internal)
    as [qv|[e|b]]; simpl.
  - destruct (search_from rnd qv query tenant_id k_total alpha enable docs use_internal ms)
      as [l|[e|b]] eqn:Hs; simpl.
    + intros H. injection H as <-. now apply search_from_cut in Hs.
    + intros H. injection H as <-. exact Hnil.
    + discriminate.
  - intros H. injection H as <-. exact Hnil.
  - discriminate.
Qed.

(** With the internal sources in use the body goes on to the query
    vector. *)
Lemma federated_search_body_internal
      query tenant_id k_total alpha enable docs ms :
  federated_search_body rnd query tenant_id k_total alpha enable docs true ms
  = bind_result (resolve_query_vector rnd query tenant_id alpha enable true)
      (fun query_vector =>
         search_from rnd query_vector query tenant_id k_total alpha enable docs
                     true ms).
Proof. reflexivity. Qed.


(** C10 (amended): the federated search never propagates an exception of
    class [Exception]: its body is wrapped in a handler for that class, so
    such a failure inside it (a personalization that raises, for one)
    yields the empty list, the value that a run matching nothing returns as
    well (a vector source that raises counts as an empty source), and when
    no service is interrupted the search returns a list.  An exception
    outside class [Exception] passes the handler: when the embedding of the
    query, the personalization or the semantic search is interrupted
    ([asyncio.CancelledError] at the [await], [KeyboardInterrupt]) the
    exception reaches the caller.  A run that finds nothing to return (one
    for [k_total = 0], say) returns the empty list as well. *)
Theorem federated_search_catches_Exception_only
        query tenant_id k_total alpha enable external_docs use_internal ms :
  let body := federated_search_body rnd query tenant_id k_total alpha enable
                                    external_docs use_internal ms in
  let result := federated_search rnd query tenant_id k_total alpha enable
                                 external_docs use_internal ms in
  (forall e, result <> Throw (Exc e))
  /\ (forall e, body = Throw (Exc e) -> result = Ok [])
  /\ (forall b, body = Throw (Base b) -> result = Throw (Base b))
  /\ (within_Exception Sv -> exists founds, result = Ok founds)
  /\ (use_internal = true ->
      (forall b, embed_query query = Throw (Base b) -> result = Throw (Base b))
      /\ (forall v s,
            get_query_embedding 0 query = Ok v -> enable = true ->
            personalize_query_vector v tenant_id query (alpha_or_default rnd alpha)
            = Throw s ->
            result = match s with Exc _ => Ok [] | Base b => Throw (Base b) end)
      /\ (forall qv b,
            resolve_query_vector rnd query tenant_id alpha enable true = Ok (Some qv) ->
            semantic_search qv tenant_id (Z.min (k_total * 2) 50) = Throw (Base b) ->
            result = Throw (Base b)))
  /\ (forall v t k e, qdrant_search v t k = Throw (Exc e) -> semantic_search v t k = Ok [])
  /\ (within_Exception Sv -> k_total = 0%Z -> result = Ok []).
Proof.
  intros body result.
  split; [intros e; apply federated_search_no_Exception|].
  split; [intros e He; unfold result, federated_search; fold body; now rewrite He|].
  split; [intros b Hb; unfold result, federated_search; fold body; now rewrite Hb|].
  split; [apply federated_search_returns|].
  split.
  - intros ->. split; [|split].
    + intros b Hb. unfold result, federated_search, federated_search_body,
        resolve_query_vector, get_query_embedding. simpl. now rewrite Hb.
    + intros v s Hv -> Hs. unfold result, federated_search, federated_search_body,
        resolve_query_vector. simpl. rewrite Hv. simpl. rewrite Hs.
      now destruct s.
    + intros qv b Hqv Hsem. unfold result, federated_search.
      rewrite federated_search_body_internal, Hqv. cbn [bind_result].
      now rewrite (search_from_interrupted qv query tenant_id k_total alpha enable
                     external_docs ms b Hsem).
  - split; [intros v t k e H; unfold semantic_search; now rewrite H|].
    intros Hw ->. unfold result.
    destruct (federated_search_returns query tenant_id 0 alpha enable external_docs
                use_internal ms Hw) as (founds & Hf).
    rewrite Hf. destruct (federated_search_cut _ _ _ _ _ _ _ _ _ Hf) as (fused & Hcut).
    simpl in Hcut. destruct founds; [reflexivity|discriminate].
Qed.


(** X7: the alpha argument.  An alpha of 0 is read as "not given" and
    replaced by the default 0.25, so the search it gives is the search
    without the argument, metadata included.  With personalization
    disabled the result dictionaries do not depend on alpha; the
    [search_metadata] attached to each of them still records the alpha
    given (or 0.25) and whether personalization was enabled. *)
Theorem alpha_zero_is_read_as_default
        query tenant_id k_total (a : Q) enable external_docs use_internal ms :
  (a == 0)%Q ->
  federated_search rnd query tenant_id k_total (Some a) enable external_docs
                   use_internal ms
  = federated_search rnd query tenant_id k_total None enable external_docs
                     use_internal ms
  /\ alpha_or_default rnd (Some a) = rnd (25 # 100)
  /\ (forall alpha alpha',
        hits_of (federated_search rnd query tenant_id k_total alpha false
                                  external_docs use_internal ms)
        = hits_of (federated_search rnd query tenant_id k_total alpha' false
                                    external_docs use_internal ms))
  /\ (forall alpha founds,
        federated_search rnd query tenant_id k_total alpha enable external_docs
                         use_internal ms = Ok founds ->
        Forall (fun f =>
                  md_personalization_alpha (found_metadata f)
                  = alpha_or_default rnd alpha
                  /\ personalization_enabled (found_metadata f) = enable) founds).
Proof.
  intros Ha.
  assert (Hd : alpha_or_default rnd (Some a) = rnd (25 # 100)).
  { unfold alpha_or_default. apply Qeq_bool_iff in Ha. now rewrite Ha. }
  split; [|split; [exact Hd|split]].
  - unfold federated_search, federated_search_body, resolve_query_vector, search_from.
    rewrite Hd. reflexivity.
  - intros alpha alpha'.
    unfold federated_search, federated_search_body.
    destruct (negb use_internal && falsy external_docs); [reflexivity|].
    assert (Hres : resolve_query_vector rnd query tenant_id alpha false use_internal
                   = resolve_query_vector rnd query tenant_id alpha' false use_internal)
      by reflexivity.
    rewrite Hres.
    destruct (resolve_query_vector rnd query tenant_id alpha' false use_internal)
      as [qv|[e|b]]; simpl; [|reflexivity|reflexivity].
    pose proof (search_from_hits qv query tenant_id k_total alpha alpha' false false
                  external_docs use_internal ms ms) as Hh.
    destruct (search_from rnd qv query tenant_id k_total alpha false external_docs
                          use_internal ms) as [l|[e|b]];
      destruct (search_from rnd qv query tenant_id k_total alpha' false external_docs
                            use_internal ms) as [l'|[e'|b']];
      simpl in *; try discriminate; try reflexivity; exact Hh.
  - intros alpha founds Hf. apply federated_search_metadata in Hf.
    eapply List.Forall_impl; [|exact Hf]. intros f H. cbv beta in H.
    destruct H as (_ & _ & Hen & Hal & _). split; assumption.
Qed.

End Search.

(** A scored list does not depend on the services when there is no query
    vector. *)
Lemma external_hits_without_vector
      (rnd : Q -> Q) {Vec1 Vec2 : Type} (S1 : Services Vec1) (S2 : Services Vec2)
      query docs :
  forall i,
    external_hits rnd (Sv := S1) query None i docs
    = external_hits rnd (Sv := S2) query None i docs.
Proof.
  induction docs as [|d docs IH]; intros i; simpl; [reflexivity|].
  assert (Hh : external_hit rnd (Sv := S1) query None i d
               = external_hit rnd (Sv := S2) query None i d) by reflexivity.
  now rewrite Hh, IH.
Qed.

Lemma process_external_docs_without_vector
      (rnd : Q -> Q) {Vec1 Vec2 : Type} (S1 : Services Vec1) (S2 : Services Vec2)
      docs query :
  process_external_docs rnd (Sv := S1) docs query None
  = process_external_docs rnd (Sv := S2) docs query None.
Proof.
  unfold process_external_docs. destruct docs as [|d docs]; [reflexivity|].
  now rewrite (external_hits_without_vector rnd S1 S2).
Qed.

(** The external-only path of the search. *)
Lemma search_from_external_only
      (rnd : Q -> Q) {Vec : Type} (Sv : Services Vec)
      query tenant_id k_total alpha enable docs ms hits :
  falsy docs = false ->
  process_external_docs rnd (Sv := Sv) (get docs []) query None = Ok hits ->
  search_from rnd (Sv := Sv) None query tenant_id k_total alpha enable docs false ms
  = Ok (map (fun result =>
               mk_found result
                 (mk_search_metadata query tenant_id enable (alpha_or_default rnd alpha)
                    false (List.length (get docs [])) 0 (List.length hits)
                    (List.length (slice_to k_total hits)) ms))
            (slice_to k_total hits)).
Proof.
  intros Hf Hp. unfold search_from. simpl. rewrite Hf, Hp. reflexivity.
Qed.

(** X19: a search over external documents alone, for every rounding of
    the float operations.  It calls no service: the answer is the same
    under any two sets of services, and it is a list (nothing is raised).
    The result dictionaries depend on neither the tenant nor the
    personalization arguments, which only the [search_metadata] attached to
    them records.  A document with [priority: None] empties the answer;
    otherwise the answer holds the first [k_total] scored documents, and
    for a negative [k_total] (a Python slice) all but the last
    [-k_total]. *)
Theorem external_only_search_calls_no_service
        (rnd : Q -> Q) {Vec1 Vec2 : Type} (S1 : Services Vec1) (S2 : Services Vec2)
        (query tenant_id : string) (k_total : Z) (alpha : option Q) (enable : bool)
        (external_docs : option (list raw_doc)) (ms : Q) :
  let answer := federated_search rnd (Sv := S1) query tenant_id k_total alpha enable
                                 external_docs false ms in
  answer = federated_search rnd (Sv := S2) query tenant_id k_total alpha enable
                            external_docs false ms
  /\ (forall tenant' alpha' enable' ms',
        hits_of answer
        = hits_of (federated_search rnd (Sv := S1) query tenant' k_total alpha' enable'
                                    external_docs false ms'))
  /\ exists founds,
       answer = Ok founds
       /\ (Exists (fun d => raw_priority d = Null) (get external_docs []) ->
           founds = [])
       /\ (Forall numeric_priority (get external_docs []) ->
           List.length founds
           = (if (0 <=? k_total)%Z
              then Nat.min (Z.to_nat k_total) (List.length (get external_docs []))
              else List.length (get external_docs []) - Z.to_nat (- k_total))
           /\ Forall (fun f => source (found_hit f) = External) founds)
       /\ Forall (fun f =>
                    md_tenant_id (found_metadata f) = tenant_id
                    /\ md_personalization_alpha (found_metadata f)
                       = alpha_or_default rnd alpha
                    /\ personalization_enabled (found_metadata f) = enable) founds.
Proof.
  intros answer. unfold answer, federated_search, federated_search_body.
  destruct (falsy external_docs) eqn:Hf.
  { simpl. split; [reflexivity|]. split; [reflexivity|].
    exists []. split; [reflexivity|]. split; [reflexivity|]. split; [|constructor].
    intros _. split; [|constructor].
    destruct external_docs as [[|d docs]|]; try discriminate;
      simpl; destruct (0 <=? k_total)%Z; lia. }
  simpl.
  destruct (process_external_docs_returns rnd (Sv := S1) (get external_docs []) query
              None (or_introl eq_refl)) as (hits & Hp).
  assert (Hp2 : process_external_docs rnd (Sv := S2) (get external_docs []) query None
                = Ok hits).
  { now rewrite <- (process_external_docs_without_vector rnd S1 S2). }
  rewrite (search_from_external_only rnd S1 query tenant_id k_total alpha enable
             external_docs ms hits Hf Hp).
  rewrite (search_from_external_only rnd S2 query tenant_id k_total alpha enable
             external_docs ms hits Hf Hp2).
  simpl. split; [reflexivity|]. split.
  { intros tenant' alpha' enable' ms'.
    rewrite (search_from_external_only rnd S1 query tenant' k_total alpha' enable'
               external_docs ms' hits Hf Hp).
    unfold hits_of, fmap. simpl. now rewrite !map_map. }
  eexists. split; [reflexivity|].
  destruct (process_external_docs_cases rnd (get external_docs []) query
              (@None Vec1) (or_introl eq_refl)) as (Hnull & Hnum).
  split.
  { intros Hex. rewrite (Hnull Hex) in Hp. injection Hp as <-.
    assert (Hnil : slice_to k_total (@nil hit) = [])
      by (unfold slice_to; destruct (0 <=? k_total)%Z; apply firstn_nil).
    now rewrite Hnil. }
  split.
  { intros Hall. destruct (Hnum Hall) as (scored & _ & Hlen & Hext & _ & Hp').
    rewrite Hp' in Hp. injection Hp as <-. split.
    - rewrite length_map, PipelineProps.slice_to_full_length.
      unfold enumerate. now rewrite enumerate_from_length, sorted_desc_length, Hlen.
    - apply List.Forall_forall. intros f Hin.
      apply in_map_iff in Hin. destruct Hin as (r & <- & Hr). simpl.
      apply SearchProps.In_slice_to in Hr. unfold enumerate in Hr.
      apply enumerate_from_In in Hr. destruct Hr as (j & x & Hx & ->).
      apply sorted_desc_In in Hx. simpl.
      rewrite List.Forall_forall in Hext. now destruct (Hext x Hx). }
  apply List.Forall_forall. intros f Hin.
  apply in_map_iff in Hin. destruct Hin as (r & <- & _). simpl. repeat split.
Qed.

(** C10, as stated, has no exception at all reach the caller.  A task
    cancelled while the embedding of the query is awaited raises
    [asyncio.CancelledError], which is no [Exception]: the handler does not
    catch it and the search propagates it. *)
Lemma cancellation_reaches_the_caller :
  federated_search round64 (Sv := cancelled) "x" "T1" 3 None true None true 0
  = Throw (Base CancelledError)
  /\ forall hits,
       federated_search round64 (Sv := cancelled) "x" "T1" 3 None true None true 0
       <> Ok hits.
Proof. split; [reflexivity|]. intros hits. discriminate. Qed.

Lemma embedder_down_within_Exception : within_Exception embedder_down.
Proof. repeat split; intros; intros b; discriminate. Qed.

Lemma federated_search_catches_Exception_only_witness :
  (forall e, federated_search round64 (Sv := embedder_down) "x" "T1" 3 None true None
                              true 0 <> Throw (Exc e))
  /\ exists founds,
       federated_search round64 (Sv := embedder_down) "x" "T1" 3 None true None
                        true 0 = Ok founds.
Proof.
  destruct (federated_search_catches_Exception_only round64 (Sv := embedder_down)
              "x" "T1" 3 None true None true 0) as (H1 & _ & _ & H4 & _).
  split; [exact H1|exact (H4 embedder_down_within_Exception)].
Defined.



Lemma alpha_zero_is_read_as_default_witness :
  (0 # 5 == 0)%Q
  /\ federated_search round64 (Sv := healthy) "x" "T1" 3 (Some (0 # 5)) true None true 0
     = federated_search round64 (Sv := healthy) "x" "T1" 3 None true None true 0.
Proof.
  split; [reflexivity|].
  apply (alpha_zero_is_read_as_default round64 (Sv := healthy)
           "x" "T1" 3 (0 # 5) true None true 0). reflexivity.
Defined.

End SearchFloatProps.

(** ** The exact embedding is the floating-point one without rounding *)

Module ExactProps.
Import Py PyBase RagBridge Ranking FloatRanking FloatDoubles.

Lemma rrf_loop_exact src rank_of k results :
  forall docs,
    FloatBridge.rrf_loop (fun x => x) src rank_of k docs results
    = rrf_loop src rank_of k docs results.
Proof.
  induction results as [|r results IH]; intros docs; simpl; [reflexivity|].
  assert (Hstep : FloatBridge.rrf_step (fun x => x) src rank_of k docs r
                  = rrf_step src rank_of k docs r) by reflexivity.
  rewrite Hstep. destruct (rrf_step src rank_of k docs r); simpl; [apply IH|reflexivity].
Qed.

Lemma reciprocal_rank_fusion_exact sem lex k :
  FloatBridge.reciprocal_rank_fusion (fun x => x) sem lex k
  = reciprocal_rank_fusion sem lex k.
Proof.
  unfold FloatBridge.reciprocal_rank_fusion, reciprocal_rank_fusion.
  rewrite rrf_loop_exact.
  destruct (rrf_loop Semantic semantic_rank k [] sem); simpl; [|reflexivity].
  now rewrite rrf_loop_exact.
Qed.

Lemma fuse_internal_and_external_exact internal external :
  FloatBridge.fuse_internal_and_external (fun x => x) internal external
  = fuse_internal_and_external internal external.
Proof. reflexivity. Qed.

Lemma lexical_search_exact query tenant_id k :
  FloatBridge.lexical_search (fun x => x) query tenant_id k
  = lexical_search query tenant_id k.
Proof. reflexivity. Qed.

Lemma alpha_or_default_exact alpha :
  FloatBridge.alpha_or_default (fun x => x) alpha = alpha_or_default alpha.
Proof. reflexivity. Qed.

Lemma fuse_all_exact all_results k_total :
  bind (FloatBridge.fuse_all (fun x => x) all_results)
       (fun fused_results => Returned (slice_to k_total fused_results))
  = fuse_all all_results k_total.
Proof.
  unfold FloatBridge.fuse_all, fuse_all.
  destruct all_results as [|[name only] [|second rest]]; [| reflexivity |].
  - simpl. unfold slice_to. destruct (0 <=? k_total)%Z; now rewrite firstn_nil.
  - rewrite reciprocal_rank_fusion_exact.
    match goal with
    | |- bind (bind ?m _) _ = _ => destruct m; reflexivity
    end.
Qed.

Section Services.
Context {Vec : Type} (C : Collaborators Vec) (Sv : FloatBridge.Services Vec).
Hypothesis Hsame : same_services C Sv.

Lemma get_query_embedding_exact j text :
  FloatBridge.get_query_embedding j text = Ok (get_query_embedding text).
Proof.
  destruct Hsame as (Hembed & _ & _ & _ & Hdraw).
  unfold FloatBridge.get_query_embedding, get_query_embedding.
  rewrite Hembed.
  destruct (embed_query text) as [v|e] eqn:He; simpl; [reflexivity|].
  f_equal. exact (Hdraw j text e He).
Qed.

Lemma semantic_search_exact v tenant_id k :
  FloatBridge.semantic_search v tenant_id k = Ok (semantic_search v tenant_id k).
Proof.
  destruct Hsame as (_ & Hq & _).
  unfold FloatBridge.semantic_search, semantic_search. rewrite Hq.
  destruct (qdrant_search v tenant_id k); reflexivity.
Qed.

Lemma external_hit_exact query qv i doc :
  FloatBridge.external_hit (fun x => x) query qv i (raw_of doc)
  = Ok (external_hit query qv i doc).
Proof.
  destruct Hsame as (_ & _ & _ & Hdot & _).
  unfold FloatBridge.external_hit, external_hit, priority_score, raw_of,
    FloatBridge.with_similarity.
  cbn [FloatBridge.raw_priority FloatBridge.raw_text FloatBridge.raw_src_id].
  destruct (doc_priority doc) as [p|]; cbn [bind_result get];
    (destruct qv as [v|]; [|reflexivity]);
    (destruct (nonempty_str (get (text doc) "")); [|reflexivity]);
    rewrite get_query_embedding_exact; cbn [bind_result except_Exception];
    rewrite Hdot;
    destruct (np_dot v (get_query_embedding (take_str 1000 (get (text doc) ""))));
    reflexivity.
Qed.

Lemma external_hits_exact query qv docs :
  forall i,
    FloatBridge.external_hits (fun x => x) query qv i (map raw_of docs)
    = Ok (enumerate_from (external_hit query qv) i docs).
Proof.
  induction docs as [|doc docs IH]; intros i; simpl; [reflexivity|].
  rewrite external_hit_exact. simpl. now rewrite IH.
Qed.

(** The scorer of [RagBridge] is the scorer in exact arithmetic on
    documents whose priority is a number or absent. *)
Lemma process_external_docs_exact docs query qv :
  FloatBridge.process_external_docs (fun x => x) (map raw_of docs) query qv
  = Ok (process_external_docs docs query qv).
Proof.
  unfold FloatBridge.process_external_docs, process_external_docs.
  destruct docs as [|doc docs]; [reflexivity|].
  change (map raw_of (doc :: docs)) with (raw_of doc :: map raw_of docs).
  cbv iota. change (raw_of doc :: map raw_of docs) with (map raw_of (doc :: docs)).
  rewrite external_hits_exact. reflexivity.
Qed.

Lemma resolve_query_vector_exact query tenant_id alpha enable use_internal :
  FloatBridge.resolve_query_vector (fun x => x) query tenant_id alpha enable use_internal
  = lift (resolve_query_vector query tenant_id alpha enable use_internal).
Proof.
  destruct Hsame as (_ & _ & Hpers & Hdot & _).
  unfold FloatBridge.resolve_query_vector, resolve_query_vector.
  destruct use_internal; [|reflexivity].
  rewrite get_query_embedding_exact. cbn [bind_result].
  destruct enable; [|reflexivity].
  rewrite Hpers, alpha_or_default_exact.
  destruct (personalize_query_vector (get_query_embedding query) tenant_id query
              (alpha_or_default alpha)) as [pv|e]; simpl; [|reflexivity].
  rewrite Hdot. destruct (np_dot (get_query_embedding query) pv); reflexivity.
Qed.

Lemma falsy_raw (external_docs : option (list external_doc)) :
  falsy (option_map (map raw_of) external_docs) = falsy external_docs.
Proof. destruct external_docs as [[|d docs]|]; reflexivity. Qed.

Lemma get_raw (external_docs : option (list external_doc)) :
  get (option_map (map raw_of) external_docs) [] = map raw_of (get external_docs []).
Proof. destruct external_docs as [docs|]; reflexivity. Qed.

(** The search once the query vector is known, under its handler. *)
Lemma hits_of_search_from
      qv query tenant_id k_total alpha enable
      (external_docs : option (list external_doc)) use_internal ms :
  hits_of
    (except_Exception
       (FloatBridge.search_from (fun x => x) qv query tenant_id k_total alpha enable
          (option_map (map raw_of) external_docs) use_internal ms)
       (fun _ => Ok []))
  = lift
      (try_except
         (fuse_all
            (match qv with
             | Some v =>
                 if use_internal then
                   [("semantic", semantic_search v tenant_id (Z.min (k_total * 2) 50));
                    ("lexical", lexical_search query tenant_id (Z.min (k_total * 2) 50))]
                 else []
             | None => []
             end
             ++ (if falsy external_docs then []
                 else [("ephemeral",
                        process_external_docs (get external_docs []) query qv)]))%list
            k_total)
         (fun _ => Returned [])).
Proof.
  unfold FloatBridge.search_from.
  rewrite falsy_raw, get_raw, process_external_docs_exact.
  set (internal := match qv with
                   | Some v =>
                       if use_internal then
                         [("semantic", semantic_search v tenant_id (Z.min (k_total * 2) 50));
                          ("lexical", lexical_search query tenant_id (Z.min (k_total * 2) 50))]
                       else []
                   | None => []
                   end).
  assert (Hint : match qv with
                 | Some v =>
                     if use_internal then
                       bind_result
                         (FloatBridge.semantic_search v tenant_id (Z.min (k_total * 2) 50))
                         (fun semantic_results =>
                            Ok [("semantic", semantic_results);
                                ("lexical",
                                 FloatBridge.lexical_search (fun x => x) query tenant_id
                                   (Z.min (k_total * 2) 50))])
                     else Ok []
                 | None => Ok []
                 end = Ok internal).
  { unfold internal. destruct qv as [v|]; [|reflexivity].
    destruct use_internal; [|reflexivity].
    now rewrite semantic_search_exact. }
  rewrite Hint. cbn [bind_result].
  set (ephemeral := if falsy external_docs then []
                    else [("ephemeral",
                           process_external_docs (get external_docs []) query qv)]).
  assert (Heph : (if falsy external_docs then Ok []
                  else Ok [("ephemeral",
                            process_external_docs (get external_docs []) query qv)])
                 = Ok ephemeral).
  { unfold ephemeral. destruct (falsy external_docs); reflexivity. }
  rewrite Heph. cbn [bind_result].
  rewrite <- (fuse_all_exact (internal ++ ephemeral)%list k_total).
  destruct (internal ++ ephemeral)%list as [|first rest] eqn:Hall.
  { simpl. unfold slice_to. destruct (0 <=? k_total)%Z; now rewrite firstn_nil. }
  destruct (FloatBridge.fuse_all (fun x => x) (first :: rest)) as [fused|e];
    [|reflexivity].
  unfold hits_of, fmap. simpl. rewrite map_map. simpl. now rewrite map_id.
Qed.

(** The federated search of [RagBridge] returns the result dictionaries
    of the search in exact arithmetic. *)
Lemma federated_search_exact
        query tenant_id k_total alpha enable (external_docs : option (list external_doc))
        use_internal ms :
  hits_of (FloatBridge.federated_search (fun x => x) query tenant_id k_total alpha
             enable (option_map (map raw_of) external_docs) use_internal ms)
  = lift (federated_search query tenant_id k_total alpha enable external_docs
            use_internal).
Proof.
  unfold FloatBridge.federated_search, federated_search,
    FloatBridge.federated_search_body, federated_search_body.
  rewrite falsy_raw.
  destruct (negb use_internal && falsy external_docs); [reflexivity|].
  rewrite resolve_query_vector_exact.
  destruct (resolve_query_vector query tenant_id alpha enable use_internal)
    as [qv|e]; [|reflexivity].
  cbn [lift bind_result bind].
  rewrite hits_of_search_from. reflexivity.
Qed.

End Services.

(** Collaborators whose embedding always answers are services, whatever
    the numpy calls of the fallback give. *)
Lemma same_services_as_services
      {Vec} (C : Collaborators Vec) (draw : nat -> nat -> Vec)
      (norm : Vec -> Q) (divide : Vec -> Q -> Vec) :
  (forall text, exists v, embed_query text = Returned v) ->
  same_services C (as_services C draw norm divide).
Proof.
  intros Hanswers. repeat split.
  intros j text e He. destruct (Hanswers text) as (v & Hv). congruence.
Qed.

(** A run of both embeddings on the same services and documents. *)
Lemma federated_search_exact_run :
  hits_of (FloatBridge.federated_search
             (Sv := as_services Doubles.opposite_embedder (fun _ _ => []) (fun _ => 1%Q)
                                (fun v _ => v))
             (fun x => x) "x y" "T1" 3 None true
             (option_map (map raw_of) (Some Doubles.three_docs)) true 0)
  = lift (federated_search (C := Doubles.opposite_embedder) "x y" "T1" 3 None true
                           (Some Doubles.three_docs) true).
Proof.
  apply federated_search_exact, same_services_as_services.
  intros text. eexists. reflexivity.
Qed.

End ExactProps.
